(** * Pivot ITM trading system: decision-and-resilience engine

    A shallow embedding of the decision logic of
    [part1_config_and_utils.py], [part2_strategy_logic.py],
    [part3_integrated.py] and of the slice of [shared_state.py] that the
    position lifecycle writes to, followed by the properties of the
    specification that are proved (or refuted) on it.

    Modelling conventions.
    - A Python [float] is the rational number the IEEE 754 double stands
      for ([Q]), and the numbers the broker's client hands over are taken
      to be such doubles ([float(...)] of them changes nothing).  The
      arithmetic of the decision logic (the pivot, the pullback zone, the
      strike, the entry guard, the stop and target levels, the journal's
      profit) is the arithmetic of doubles: each operation is the exact
      one followed by rounding to the nearest double, ties to even
      ([Double.rd]); [round(x, 2)] is the nearest hundredth of the exact
      value of [x], ties to even, as a double.  Comparisons ([<=], [<],
      [>=], [>]) are exact.  Infinities and NaN are not modelled: the
      exponent range is not cut off above, so the model follows the
      source wherever no result reaches [2 ^ 1024] ([Double.finite]);
      the quotes the fetches accept and what is computed from them stay
      far below.  The dashboard's own display numbers and the daily
      report are computed on the exact values.
    - [datetime.date] values are proleptic Gregorian ordinals
      ([date.toordinal()]); [datetime.time] values are microseconds since
      midnight; [time.time()] is a rational number of seconds.
    - The broker client ([groww]), the instrument catalogue and the wall
      clock read by [time.time()] are deterministic stubs indexed by the
      number of calls made so far; a raised exception, a missing key or
      an unparsable value is the answer [None].
    - Module-level globals of [part1_config_and_utils] live in a record
      that is threaded through a state-and-exception monad; the
      exceptions modelled are the [ZeroDivisionError] of a division and
      the [TypeError] of the heartbeat's subtraction and the [OSError]
      of a journal file that cannot be written.  Whether the [n]-th
      write to the journal goes through is a stub like the others.
      Logging and the termination of the process ([sys.exit],
      [KeyboardInterrupt]) are not modelled. *)

From Stdlib Require Import ZArith QArith Qround Qabs Qpower Lia Lqa List String Bool Arith.
Import ListNotations.

Local Open Scope Q_scope.

(* ================================================================== *)
(** * Numbers *)
(* ================================================================== *)

(** [x < y] as a boolean test, next to the library's [Qle_bool]. *)
Definition Qlt_bool (x y : Q) : bool := negb (Qle_bool y x).

(** Python's [round(x)] to an integer: nearest, ties to even. *)
Definition round_half_even (x : Q) : Z :=
  let f := Qfloor x in
  match Qcompare (x - inject_Z f) (1 # 2) with
  | Lt => f
  | Gt => (f + 1)%Z
  | Eq => if Z.even f then f else (f + 1)%Z
  end.

(** ** IEEE 754 double precision *)

Module Double.

Definition pow2 (e : Z) : Q := Qpower 2 e.

(** The binary exponent of a number that is not zero:
    [2 ^ ilog2 x <= |x| < 2 ^ (ilog2 x + 1)]. *)
Definition ilog2 (x : Q) : Z :=
  let e := (Z.log2 (Z.abs (Qnum x)) - Z.log2 (Zpos (Qden x)))%Z in
  if Qle_bool (pow2 e) (Qabs x) then e else (e - 1)%Z.

(** The unit in the last place at [x]: 53 significant bits, and the
    fixed spacing [2 ^ -1074] below the normal range. *)
Definition ulp (x : Q) : Q := pow2 (Z.max (ilog2 x - 52) (-1074)).

(** The double nearest to [x], ties to the even significand.  The range
    is not cut off here: a result of [2 ^ 1024] or more stands for an
    overflow, which [finite] tests. *)
Definition rd (x : Q) : Q :=
  if Qeq_bool x 0 then 0
  else Qred (inject_Z (round_half_even (x / ulp x)) * ulp x).

Definition finite (x : Q) : bool := Qlt_bool (Qabs x) (pow2 1024).

(** [x + y], [x - y], [x * y] and [x / y] on doubles. *)
Definition add (x y : Q) : Q := rd (x + y).
Definition sub (x y : Q) : Q := rd (x - y).
Definition mul (x y : Q) : Q := rd (x * y).
Definition div (x y : Q) : Q := rd (x / y).

End Double.

(** Python's [round(x, 2)] of a double: the hundredth nearest to the
    exact value of [x], ties to even, and of that the nearest double. *)
Definition py_round2 (x : Q) : Q := Double.rd (round_half_even (x * 100) # 100).

(** Python's [abs]. *)
Definition py_abs (x : Q) : Q := if Qlt_bool x 0 then - x else x.

(** Python's [int(x // y)] for a positive integer divisor: the floor of
    the quotient, which the floor division of doubles gives exactly for
    every [x] below [2 ^ 53]. *)
Definition py_floordiv (x : Q) (y : Z) : Z := Qfloor (x / inject_Z y).

(** Python truthiness of an optional number: [None] and [0] are falsy. *)
Definition truthy (o : option Q) : bool :=
  match o with
  | None => false
  | Some x => negb (Qeq_bool x 0)
  end.

(* ================================================================== *)
(** * Configuration ([part1_config_and_utils.py]) *)
(* ================================================================== *)

Definition NIFTY_LOT_SIZE : Z := 65.
Definition TRADE_LOTS : Z := 1.

Definition MAX_DAILY_TRADES : nat := 2.
Definition PIVOT_BUFFER_POINTS : Q := 25.
(** The literals [0.10]. *)
Definition STOP_LOSS_PERCENT : Q := Double.rd (10 # 100).
Definition PROFIT_TARGET_PERCENT : Q := Double.rd (10 # 100).

(** A clock time ["HH:MM"] as microseconds since midnight. *)
Definition hhmm (h m : Z) : Z := ((h * 60 + m) * 60 * 1000000)%Z.

Definition MARKET_OPEN : Z := hhmm 9 15.
Definition MARKET_CLOSE : Z := hhmm 15 30.
Definition EOD_EXIT : Z := hhmm 15 20.
Definition ENTRY_CUTOFF : Z := hhmm 15 20.
Definition BIAS_CANDLE_START : Z := hhmm 9 15.
Definition BIAS_CANDLE_END : Z := hhmm 9 20.

Definition MAX_RETRIES : nat := 3.
Definition RETRY_DELAY_SEC : Q := 2.
Definition CIRCUIT_BREAKER_FAILURES : nat := 5.
Definition CIRCUIT_BREAKER_TIMEOUT_SEC : Q := 300.
Definition HEARTBEAT_INTERVAL_SEC : Z := 600.

Definition MIN_OPTION_PRICE : Q := 1.
Definition MAX_OPTION_PRICE : Q := 1000.
Definition MIN_SPOT_PRICE : Q := 15000.
Definition MAX_SPOT_PRICE : Q := 30000.

(* ================================================================== *)
(** * Calendar *)
(* ================================================================== *)

Definition is_leap (y : Z) : bool :=
  ((y mod 4 =? 0) && (negb (y mod 100 =? 0) || (y mod 400 =? 0)))%Z.

Definition days_before_year (y : Z) : Z :=
  let y1 := (y - 1)%Z in (y1 * 365 + y1 / 4 - y1 / 100 + y1 / 400)%Z.

Definition days_before_month (y m : Z) : Z :=
  (nth (Z.to_nat (m - 1)) [0; 31; 59; 90; 120; 151; 181; 212; 243; 273; 304; 334] 0
   + (if (2 <? m) && is_leap y then 1 else 0))%Z.

(** [date(y, m, d).toordinal()]. *)
Definition date (y m d : Z) : Z :=
  (days_before_year y + days_before_month y m + d)%Z.

(** [d.weekday()]: Monday is 0, Sunday is 6. *)
Definition weekday (d : Z) : Z := ((d + 6) mod 7)%Z.

Definition HOLIDAYS_2026 : list Z :=
  [ date 2026 1 15; date 2026 1 26; date 2026 3 3; date 2026 3 26;
    date 2026 3 31; date 2026 4 3; date 2026 4 14; date 2026 5 1;
    date 2026 5 28; date 2026 6 26; date 2026 9 14; date 2026 10 2;
    date 2026 10 20; date 2026 11 10; date 2026 11 24; date 2026 12 25 ].

Definition is_trading_day (today : Z) : bool :=
  if (5 <=? weekday today)%Z then false
  else if existsb (Z.eqb today) HOLIDAYS_2026 then false
  else true.

(* ================================================================== *)
(** * Circuit breaker ([class CircuitBreaker]) *)
(* ================================================================== *)

Module CircuitBreaker.

Record t : Type := mk {
  failure_count : nat;
  threshold : nat;
  timeout : Q;
  opened_at : option Q
}.

(** [__init__]. *)
Definition init (threshold : nat) (timeout : Q) : t :=
  mk 0 threshold timeout None.

(** [record_failure]; [now] is the reading of [time.time()], which the
    method takes only when the threshold is reached. *)
Definition record_failure (now : Q) (b : t) : t :=
  let n := S (failure_count b) in
  if (threshold b <=? n)%nat
  then mk n (threshold b) (timeout b) (Some now)
  else mk n (threshold b) (timeout b) (opened_at b).

(** [record_success]. *)
Definition record_success (b : t) : t :=
  mk 0 (threshold b) (timeout b) None.

(** [is_open]: the answer and the breaker after the call; [now] is
    read only past the [if not self.opened_at] test. *)
Definition is_open (now : Q) (b : t) : bool * t :=
  if negb (truthy (opened_at b)) then (false, b)
  else
    match opened_at b with
    | None => (false, b)
    | Some at_ =>
        let elapsed := now - at_ in
        if Qlt_bool (timeout b) elapsed
        then (false, mk 0 (threshold b) (timeout b) None)
        else (true, b)
    end.

(** The breaker after [n] calls of [record_failure], the [k]-th of
    which reads the clock [clock k]. *)
Fixpoint failures (clock : nat -> Q) (n : nat) (b : t) : t :=
  match n with
  | O => b
  | S n' => record_failure (clock n') (failures clock n' b)
  end.

(** The state in which the breaker counts as tripped. *)
Definition tripped (b : t) : Prop := (threshold b <= failure_count b)%nat.

(** [opened_at] is stamped exactly in the tripped states. *)
Definition wf (b : t) : Prop := opened_at b <> None <-> tripped b.

End CircuitBreaker.

(* ================================================================== *)
(** * Data model *)
(* ================================================================== *)

Local Open Scope string_scope.

Inductive Direction : Type := CALL | PUT.
Inductive OptionType : Type := CE | PE.
Inductive Bias : Type := BULLISH | BEARISH | NEUTRAL.

(** A row [[timestamp, open, high, low, close, volume]] of the broker's
    historical data; the timestamp is in epoch seconds. *)
Record RawCandle : Type := mkRaw {
  r_timestamp : Z;
  r_open : Q;
  r_high : Q;
  r_low : Q;
  r_close : Q;
  r_volume : Q
}.

(** The [candle_data] dictionary of [get_first_5min_candle]. *)
Record Candle : Type := mkCandle {
  c_open : Q;
  c_high : Q;
  c_low : Q;
  c_close : Q
}.

(** The dictionary returned by [find_option_instrument]. *)
Record Instrument : Type := mkInstrument {
  i_symbol : string;
  i_segment : string;
  i_lot_size : Z;
  i_strike : Q
}.

(** The [current_position] dictionary ([entry_time] left out). *)
Record Position : Type := mkPosition {
  p_symbol : string;
  p_segment : string;
  p_direction : Direction;
  p_entry_price : Q;
  p_quantity : Z;
  p_invested : Q;
  p_profit_target : Q;
  p_stop_loss : Q;
  p_pivot : Q
}.

(** ** The trade journal ([trade_journal.csv], [generate_daily_report]) *)

Module Journal.

(** A row of [trade_journal.csv] (the entry and exit times left out). *)
Record Row : Type := mkRow {
  j_date : Z;
  j_symbol : string;
  j_direction : Direction;
  j_entry_price : Q;
  j_exit_price : Q;
  j_quantity : Z;
  j_invested : Q;
  j_pnl : Q;
  j_pnl_percent : Q;
  j_exit_reason : string;
  j_stop_loss : Q;
  j_profit_target : Q;
  j_pivot : Q
}.

(** The [trade_record] that [log_trade_to_journal(trade, exit_price,
    exit_reason)] builds on the date [today] for a trade whose entry
    price is not zero. *)
Definition trade_record (today : Z) (trade : Position) (exit_price : Q)
    (exit_reason : string) : Row :=
  let pnl :=
    Double.mul (Double.sub exit_price (p_entry_price trade))
               (inject_Z (p_quantity trade)) in
  let pnl_percent :=
    Double.mul (Double.div (Double.sub exit_price (p_entry_price trade))
                           (p_entry_price trade)) 100 in
  mkRow today (p_symbol trade) (p_direction trade) (p_entry_price trade) exit_price
        (p_quantity trade) (p_invested trade) (py_round2 pnl) (py_round2 pnl_percent)
        exit_reason (p_stop_loss trade) (p_profit_target trade) (p_pivot trade).

Fixpoint total (l : list Q) : Q :=
  match l with
  | [] => 0
  | x :: l' => x + total l'
  end.

(** [.mean()] of a column that is not empty. *)
Definition mean (l : list Q) : Q := total l / inject_Z (Z.of_nat (List.length l)).



End Journal.

(** The day's globals of [part1_config_and_utils]: the specification's
    [DaySession].  A [datetime] is a date and a time of day.
    [last_status_timestamp], written next to [last_heartbeat_timestamp]
    and never read, is left out. *)
Record Session : Type := mkSession {
  executed_trades_count : nat;
  current_position : option Position;
  last_trading_date : option Z;
  daily_pivot_point : option Q;
  daily_bias : option Bias;
  bias_lock_date : option Z;
  bias_candle_data : option Candle;
  last_heartbeat_timestamp : option (Z * Z)
}.

(** [SharedState.current_trade]; [{}] is [None], and [in_trade] is true
    exactly when the dictionary is set (the source writes both together). *)
Record DashTrade : Type := mkDashTrade {
  d_symbol : string;
  d_direction : Direction;
  d_entry_price : Q;
  d_quantity : Z;
  d_stop_loss : Q;
  d_profit_target : Q;
  d_current_price : Q
}.

(** The slice of [SharedState] written by the position lifecycle.  The
    market snapshot, the trade history and the performance counters are
    left out. *)
Record Dashboard : Type := mkDashboard {
  status : string;
  current_trade : option DashTrade;
  events : list string
}.

Definition in_trade (d : Dashboard) : bool :=
  match current_trade d with Some _ => true | None => false end.

Inductive BreakerId : Type := SpotBreaker | OptionBreaker.

(** What the program does to its collaborators, in order. *)
Inductive Effect : Type :=
| CallLtp (segment symbol : string)
| CallCandles (interval_in_minutes : Z)
| Sleep (seconds : Q)
| RecordSuccess (b : BreakerId)
| RecordFailure (b : BreakerId)
| PaperBuy (symbol : string) (quantity : Z) (price : Q)
| PaperSell (symbol : string) (quantity : Z) (price : Q) (reason : string).

(** The globals, the dashboard, the rows of the journal file, the
    number of calls made to each stub, and the effects so far. *)
Record World : Type := mkWorld {
  sess : Session;
  spot_price_breaker : CircuitBreaker.t;
  option_price_breaker : CircuitBreaker.t;
  dash : Dashboard;
  ltp_calls : nat;
  candle_calls : nat;
  clock_reads : nat;
  trace : list Effect;
  journal : list Journal.Row;
  journal_calls : nat
}.

(** The collaborators.  [get_ltp n] answers the [n]-th quote request,
    [get_historical_candle_data n] the [n]-th candle request, [time_time n]
    is the [n]-th reading of the clock.  The two catalogue lookups stand
    for [get_nearest_valid_expiry] and [find_option_instrument] over the
    day's instrument table.  [journal_writable n] says whether the
    [n]-th [to_csv] on the journal file goes through; it raises
    otherwise. *)
Record Groww : Type := mkGroww {
  get_ltp : nat -> string -> string -> option Q;
  get_historical_candle_data : nat -> Z -> option (list RawCandle);
  time_time : nat -> Q;
  get_nearest_valid_expiry : Z -> option Z;
  find_option_instrument : Z -> Z -> OptionType -> option Instrument;
  journal_writable : nat -> bool
}.

(** ** Field updates *)

Definition set_sess (s : Session) (w : World) : World :=
  mkWorld s (spot_price_breaker w) (option_price_breaker w) (dash w)
          (ltp_calls w) (candle_calls w) (clock_reads w) (trace w)
          (journal w) (journal_calls w).

Definition set_dash (d : Dashboard) (w : World) : World :=
  mkWorld (sess w) (spot_price_breaker w) (option_price_breaker w) d
          (ltp_calls w) (candle_calls w) (clock_reads w) (trace w)
          (journal w) (journal_calls w).

Definition breaker (id : BreakerId) (w : World) : CircuitBreaker.t :=
  match id with
  | SpotBreaker => spot_price_breaker w
  | OptionBreaker => option_price_breaker w
  end.

Definition set_breaker (id : BreakerId) (b : CircuitBreaker.t) (w : World) : World :=
  match id with
  | SpotBreaker =>
      mkWorld (sess w) b (option_price_breaker w) (dash w)
              (ltp_calls w) (candle_calls w) (clock_reads w) (trace w)
              (journal w) (journal_calls w)
  | OptionBreaker =>
      mkWorld (sess w) (spot_price_breaker w) b (dash w)
              (ltp_calls w) (candle_calls w) (clock_reads w) (trace w)
              (journal w) (journal_calls w)
  end.

Definition emit (e : Effect) (w : World) : World :=
  mkWorld (sess w) (spot_price_breaker w) (option_price_breaker w) (dash w)
          (ltp_calls w) (candle_calls w) (clock_reads w) (trace w ++ [e])
          (journal w) (journal_calls w).

Definition tick_ltp (w : World) : World :=
  mkWorld (sess w) (spot_price_breaker w) (option_price_breaker w) (dash w)
          (S (ltp_calls w)) (candle_calls w) (clock_reads w) (trace w)
          (journal w) (journal_calls w).

Definition tick_candles (w : World) : World :=
  mkWorld (sess w) (spot_price_breaker w) (option_price_breaker w) (dash w)
          (ltp_calls w) (S (candle_calls w)) (clock_reads w) (trace w)
          (journal w) (journal_calls w).

Definition tick_clock (w : World) : World :=
  mkWorld (sess w) (spot_price_breaker w) (option_price_breaker w) (dash w)
          (ltp_calls w) (candle_calls w) (S (clock_reads w)) (trace w)
          (journal w) (journal_calls w).

Definition tick_journal (w : World) : World :=
  mkWorld (sess w) (spot_price_breaker w) (option_price_breaker w) (dash w)
          (ltp_calls w) (candle_calls w) (clock_reads w) (trace w)
          (journal w) (S (journal_calls w)).

(** A row appended to the journal file. *)
Definition write_journal (row : Journal.Row) (w : World) : World :=
  mkWorld (sess w) (spot_price_breaker w) (option_price_breaker w) (dash w)
          (ltp_calls w) (candle_calls w) (clock_reads w) (trace w)
          (journal w ++ [row]) (journal_calls w).

Definition set_executed_trades_count (n : nat) (s : Session) : Session :=
  mkSession n (current_position s) (last_trading_date s) (daily_pivot_point s)
            (daily_bias s) (bias_lock_date s) (bias_candle_data s)
            (last_heartbeat_timestamp s).

Definition set_current_position (p : option Position) (s : Session) : Session :=
  mkSession (executed_trades_count s) p (last_trading_date s) (daily_pivot_point s)
            (daily_bias s) (bias_lock_date s) (bias_candle_data s)
            (last_heartbeat_timestamp s).

Definition set_last_trading_date (d : option Z) (s : Session) : Session :=
  mkSession (executed_trades_count s) (current_position s) d (daily_pivot_point s)
            (daily_bias s) (bias_lock_date s) (bias_candle_data s)
            (last_heartbeat_timestamp s).

Definition set_daily_pivot_point (p : option Q) (s : Session) : Session :=
  mkSession (executed_trades_count s) (current_position s) (last_trading_date s) p
            (daily_bias s) (bias_lock_date s) (bias_candle_data s)
            (last_heartbeat_timestamp s).

Definition set_daily_bias (b : option Bias) (s : Session) : Session :=
  mkSession (executed_trades_count s) (current_position s) (last_trading_date s)
            (daily_pivot_point s) b (bias_lock_date s) (bias_candle_data s)
            (last_heartbeat_timestamp s).

Definition set_bias_lock (d : option Z) (c : option Candle) (s : Session) : Session :=
  mkSession (executed_trades_count s) (current_position s) (last_trading_date s)
            (daily_pivot_point s) (daily_bias s) d c (last_heartbeat_timestamp s).

Definition set_last_heartbeat_timestamp (t : option (Z * Z)) (s : Session) : Session :=
  mkSession (executed_trades_count s) (current_position s) (last_trading_date s)
            (daily_pivot_point s) (daily_bias s) (bias_lock_date s)
            (bias_candle_data s) t.

(** The globals as the module defines them at import. *)
Definition initial_session : Session :=
  mkSession 0 None None None None None None None.

(** [SharedState.__init__]. *)
Definition initial_dashboard : Dashboard :=
  mkDashboard "WAITING_FOR_MARKET" None [].

Definition initial_world : World :=
  mkWorld initial_session
          (CircuitBreaker.init CIRCUIT_BREAKER_FAILURES CIRCUIT_BREAKER_TIMEOUT_SEC)
          (CircuitBreaker.init CIRCUIT_BREAKER_FAILURES CIRCUIT_BREAKER_TIMEOUT_SEC)
          initial_dashboard 0 0 0 [] [] 0.

(* ================================================================== *)
(** * The state-and-exception monad *)
(* ================================================================== *)

Inductive exn : Type := ZeroDivisionError | TypeError | OSError.

(** An exception leaves the globals as they were when it was raised. *)
Inductive result (A : Type) : Type :=
| Ok (a : A) (w : World)
| Raised (e : exn) (w : World).

Arguments Ok {A} a w.
Arguments Raised {A} e w.

Definition M (A : Type) : Type := World -> result A.

Definition ret {A} (a : A) : M A := fun w => Ok a w.

Definition bind {A B} (c : M A) (k : A -> M B) : M B :=
  fun w => match c w with
           | Ok a w' => k a w'
           | Raised e w' => Raised e w'
           end.

Definition raise {A} (e : exn) : M A := fun w => Raised e w.

Definition gets {A} (f : World -> A) : M A := fun w => Ok (f w) w.

Definition modify (f : World -> World) : M unit := fun w => Ok tt (f w).

(** [try: c except Exception: handler]. *)
Definition try_except (c handler : M unit) : M unit :=
  fun w => match c w with
           | Ok _ w' => Ok tt w'
           | Raised _ w' => handler w'
           end.

(** The globals an outcome leaves behind. *)
Definition world_of {A} (r : result A) : World :=
  match r with Ok _ w => w | Raised _ w => w end.

Declare Scope monad_scope.
Delimit Scope monad_scope with monad.
Notation "x <- c ;; k" := (bind c (fun x => k))
  (at level 61, c at next level, right associativity) : monad_scope.
Notation "c ;; k" := (bind c (fun _ => k))
  (at level 61, right associativity) : monad_scope.

Local Open Scope monad_scope.

(** Python's true division, exact. *)
Definition py_div (a b : Q) : M Q :=
  if Qeq_bool b 0 then raise ZeroDivisionError else ret (a / b).

(** Python's true division of doubles. *)
Definition py_truediv (a b : Q) : M Q :=
  if Qeq_bool b 0 then raise ZeroDivisionError else ret (Double.div a b).

Definition modify_sess (f : Session -> Session) : M unit :=
  modify (fun w => set_sess (f (sess w)) w).

Definition modify_dash (f : Dashboard -> Dashboard) : M unit :=
  modify (fun w => set_dash (f (dash w)) w).

Definition do (e : Effect) : M unit := modify (emit e).

(** [time.sleep]. *)
Definition sleep (seconds : Q) : M unit := do (Sleep seconds).

(* ================================================================== *)
(** * Dashboard ([shared_state.py]) *)
(* ================================================================== *)

(** [self.events.append(...)] on a [deque(maxlen=200)]; the time stamp
    and formatted numbers of a message are left out. *)
Definition push_event (message : string) (evs : list string) : list string :=
  let l := (evs ++ [message])%list in skipn (List.length l - 200) l.

Definition add_event (message : string) : M unit :=
  modify_dash (fun d => mkDashboard (status d) (current_trade d)
                                    (push_event message (events d))).

Definition update_strategy_status (st : string) : M unit :=
  modify_dash (fun d => mkDashboard st (current_trade d) (events d));;
  add_event ("Status: " ++ st).

Definition dash_enter_trade (symbol : string) (direction : Direction)
    (entry_price : Q) (quantity : Z) (stop_loss profit_target : Q) : M unit :=
  modify_dash (fun d =>
    mkDashboard (status d)
      (Some (mkDashTrade symbol direction entry_price quantity stop_loss
                         profit_target entry_price))
      (events d));;
  add_event "Trade entered".

Definition dash_update_trade_price (current_price : Q) : M unit :=
  d <- gets dash;;
  match current_trade d with
  | None => ret tt
  | Some t =>
      modify_dash (fun d =>
        mkDashboard (status d)
          (Some (mkDashTrade (d_symbol t) (d_direction t) (d_entry_price t)
                             (d_quantity t) (d_stop_loss t) (d_profit_target t)
                             current_price))
          (events d));;
      _ <- py_div (current_price - d_entry_price t) (d_entry_price t);;
      ret tt
  end.

Definition dash_exit_trade (exit_price : Q) (exit_reason : string) : M unit :=
  d <- gets dash;;
  match current_trade d with
  | None => ret tt
  | Some t =>
      _ <- py_div (exit_price - d_entry_price t) (d_entry_price t);;
      modify_dash (fun d => mkDashboard (status d) None (events d));;
      add_event ("Trade exited: " ++ exit_reason)
  end.

(** The price the dashboard last recorded for the open trade: the entry
    price, then every quote seen while monitoring. *)
Definition last_known_price (w : World) : option Q :=
  match current_trade (dash w) with
  | Some t => Some (d_current_price t)
  | None => None
  end.

(* ================================================================== *)
(** * The program over its collaborators *)
(* ================================================================== *)

Section Program.

Variable groww : Groww.

(** ** Stubs *)

Definition call_ltp (segment symbol : string) : M (option Q) :=
  n <- gets ltp_calls;;
  modify tick_ltp;;
  do (CallLtp segment symbol);;
  ret (get_ltp groww n segment symbol).

Definition call_candles (interval : Z) : M (option (list RawCandle)) :=
  n <- gets candle_calls;;
  modify tick_candles;;
  do (CallCandles interval);;
  ret (get_historical_candle_data groww n interval).

Definition read_clock : M Q :=
  n <- gets clock_reads;;
  modify tick_clock;;
  ret (time_time groww n).

(** ** The breakers as globals *)

(** [record_failure] reads the clock only when it stamps [opened_at];
    on the other branch the reading handed to the method is not used. *)
Definition breaker_record_failure (id : BreakerId) : M unit :=
  b <- gets (breaker id);;
  do (RecordFailure id);;
  if (CircuitBreaker.threshold b <=? S (CircuitBreaker.failure_count b))%nat
  then now <- read_clock;;
       modify (set_breaker id (CircuitBreaker.record_failure now b))
  else modify (set_breaker id (CircuitBreaker.record_failure 0 b)).

Definition breaker_record_success (id : BreakerId) : M unit :=
  do (RecordSuccess id);;
  modify (fun w => set_breaker id (CircuitBreaker.record_success (breaker id w)) w).

Definition breaker_is_open (id : BreakerId) : M bool :=
  b <- gets (breaker id);;
  if truthy (CircuitBreaker.opened_at b)
  then now <- read_clock;;
       modify (set_breaker id (snd (CircuitBreaker.is_open now b)));;
       ret (fst (CircuitBreaker.is_open now b))
  else ret false.

(** ** Price fetching ([fetch_spot_price], [fetch_option_price])

    The two functions of the source are the same text up to the breaker,
    the quote requested and the plausibility range.  [remaining] counts
    the iterations left of [for attempt in range(1, MAX_RETRIES + 1)]:
    [attempt < MAX_RETRIES] is [remaining > 1]. *)

Fixpoint fetch_attempts (id : BreakerId) (lo hi : Q) (segment symbol : string)
    (remaining : nat) : M (option Q) :=
  match remaining with
  | O => ret None
  | S rest =>
      response <- call_ltp segment symbol;;
      match response with
      | Some price =>
          if negb (Qle_bool lo price && Qle_bool price hi) then
            match rest with
            | S _ => sleep RETRY_DELAY_SEC;;
                     fetch_attempts id lo hi segment symbol rest
            | O => breaker_record_failure id;; ret None
            end
          else
            breaker_record_success id;; ret (Some price)
      | None =>
          match rest with
          | S _ => sleep RETRY_DELAY_SEC;;
                   fetch_attempts id lo hi segment symbol rest
          | O => breaker_record_failure id;; ret None
          end
      end
  end.

Definition fetch_price (id : BreakerId) (lo hi : Q) (segment symbol : string)
    : M (option Q) :=
  open <- breaker_is_open id;;
  if open then ret None
  else fetch_attempts id lo hi segment symbol MAX_RETRIES.

Definition fetch_spot_price : M (option Q) :=
  fetch_price SpotBreaker MIN_SPOT_PRICE MAX_SPOT_PRICE "CASH" "NSE_NIFTY".

Definition fetch_option_price (symbol segment : string) : M (option Q) :=
  fetch_price OptionBreaker MIN_OPTION_PRICE MAX_OPTION_PRICE segment
              ("NSE_" ++ symbol).

(** ** Pivot ([fetch_and_calculate_pivot]) *)

(** The calendar date in Asia/Kolkata (UTC+05:30) of an epoch second. *)
Definition ist_date (timestamp : Z) : Z :=
  (date 1970 1 1 + (timestamp + 19800) / 86400)%Z.

Definition candle_date (c : RawCandle) : Z := ist_date (r_timestamp c).

Fixpoint insert_by_date (c : RawCandle) (l : list RawCandle) : list RawCandle :=
  match l with
  | [] => [c]
  | x :: l' =>
      if (candle_date c <? candle_date x)%Z then c :: l
      else x :: insert_by_date c l'
  end.

(** [sort_values("date")], ascending. *)
Definition sort_by_date (l : list RawCandle) : list RawCandle :=
  fold_right insert_by_date [] (rev l).

(** [iloc[-1]]. *)
Definition iloc_last (l : list RawCandle) : option RawCandle :=
  match rev l with
  | [] => None
  | c :: _ => Some c
  end.

(** [round((high + low + close) / 3, 2)] in doubles. *)
Definition pivot_formula (c : RawCandle) : Q :=
  py_round2 (Double.div (Double.add (Double.add (r_high c) (r_low c)) (r_close c)) 3).

(** The body of [fetch_and_calculate_pivot] past the request. *)
Definition pivot_of_candles (today : Z) (candles : list RawCandle) : option Q :=
  match candles with
  | [] => None
  | _ =>
      let completed_days := filter (fun c => (candle_date c <? today)%Z) candles in
      match completed_days with
      | [] => None
      | _ =>
          match iloc_last (sort_by_date completed_days) with
          | Some prev_day => Some (pivot_formula prev_day)
          | None => None
          end
      end
  end.

Definition fetch_and_calculate_pivot (today : Z) : M (option Q) :=
  _ <- read_clock;;
  response <- call_candles 1440;;
  match response with
  | None => ret None
  | Some candles => ret (pivot_of_candles today candles)
  end.

(** ** Daily reset ([reset_daily_state])

    The report on the day before (a reading of the journal that writes
    nothing), the clearing of the instrument cache and the reloading of
    the catalogue belong to the collaborators and leave no mark on the
    globals modelled here. *)

Definition same_date (d : option Z) (today : Z) : bool :=
  match d with
  | Some d => (d =? today)%Z
  | None => false
  end.

Definition reset_daily_state (today : Z) : M unit :=
  s <- gets sess;;
  if same_date (last_trading_date s) today then ret tt
  else
    modify_sess (fun s =>
      mkSession 0 None (last_trading_date s) (daily_pivot_point s) None None None None);;
    breaker_record_success SpotBreaker;;
    breaker_record_success OptionBreaker;;
    pivot <- fetch_and_calculate_pivot today;;
    modify_sess (set_daily_pivot_point pivot);;
    modify_sess (set_last_trading_date (Some today)).

(** ** Bias ([get_first_5min_candle], [determine_daily_bias]) *)

Definition get_first_5min_candle : M (option Candle) :=
  response <- call_candles 5;;
  match response with
  | None => ret None
  | Some [] => ret None
  | Some (c :: _) =>
      ret (Some (mkCandle (r_open c) (r_high c) (r_low c) (r_close c)))
  end.

Definition determine_daily_bias (today now : Z) : M unit :=
  s <- gets sess;;
  match daily_bias s with
  | Some _ => ret tt
  | None =>
      match daily_pivot_point s with
      | None => ret tt
      | Some pivot =>
          if (now <? BIAS_CANDLE_END)%Z then ret tt
          else
            first_candle <- get_first_5min_candle;;
            match first_candle with
            | None => ret tt
            | Some candle =>
                let close_price := c_close candle in
                if Qlt_bool pivot close_price then
                  modify_sess (set_daily_bias (Some BULLISH));;
                  modify_sess (set_bias_lock (Some today) (Some candle))
                else if Qlt_bool close_price pivot then
                  modify_sess (set_daily_bias (Some BEARISH));;
                  modify_sess (set_bias_lock (Some today) (Some candle))
                else
                  modify_sess (set_daily_bias (Some NEUTRAL))
            end
      end
  end.

(** ** Entry trigger and strike ([is_in_pivot_zone], [calculate_itm_strike]) *)

Definition is_in_pivot_zone (spot pivot : Q) : bool :=
  let lower := Double.sub pivot PIVOT_BUFFER_POINTS in
  let upper := Double.add pivot PIVOT_BUFFER_POINTS in
  Qle_bool lower spot && Qle_bool spot upper.

(** The source's last branch, [else: return None], answers a direction
    string that is neither ["CALL"] nor ["PUT"]; [Direction] has no such
    value. *)
Definition calculate_itm_strike (spot : Q) (direction : Direction) : Z :=
  match direction with
  | CALL => (py_floordiv spot 100 * 100)%Z
  | PUT => (py_floordiv (Double.add spot 99) 100 * 100)%Z
  end.

(** ** Position management ([part3_integrated.py]) *)

Definition calculate_position_size (option_price : Q) : Z :=
  if Qle_bool option_price 0 then 0%Z
  else (NIFTY_LOT_SIZE * TRADE_LOTS)%Z.

Definition can_enter_trade : M bool :=
  s <- gets sess;;
  if (MAX_DAILY_TRADES <=? executed_trades_count s)%nat then ret false
  else
    match current_position s with
    | Some _ => ret false
    | None => ret true
    end.

Definition paper_buy (symbol : string) (quantity : Z) (price : Q) : M unit :=
  do (PaperBuy symbol quantity price).

Definition paper_sell (symbol : string) (quantity : Z) (price : Q)
    (reason : string) : M unit :=
  do (PaperSell symbol quantity price reason).

(** The test of the entry guard, in the source's order of evaluation. *)
Definition entry_prices_unusable (option_price confirm_price : option Q) : M bool :=
  match confirm_price with
  | None => ret true
  | Some confirm =>
      match option_price with
      | None => ret true
      | Some first =>
          if Qle_bool first 0 then ret true
          else if Qle_bool confirm 0 then ret true
          else
            ratio <- py_truediv (py_abs (Double.sub confirm first)) first;;
            ret (Qlt_bool (Double.rd (5 # 100)) ratio)
      end
  end.

Definition enter_position (direction : Direction) (symbol segment : string)
    (pivot : Q) : M (option Position) :=
  allowed <- can_enter_trade;;
  if negb allowed then ret None
  else
    option_price <- fetch_option_price symbol segment;;
    sleep (1 # 2);;
    confirm_price <- fetch_option_price symbol segment;;
    unusable <- entry_prices_unusable option_price confirm_price;;
    if unusable then
      add_event "Entry aborted - price unstable";;
      ret None
    else
      match confirm_price with
      | None => ret None
      | Some option_price =>
          let qty := calculate_position_size option_price in
          if negb (qty =? NIFTY_LOT_SIZE * TRADE_LOTS)%Z then ret None
          else if (qty <=? 0)%Z then ret None
          else
            let invested := Double.mul option_price (inject_Z qty) in
            paper_buy symbol qty option_price;;
            modify_sess (fun s =>
              set_executed_trades_count (S (executed_trades_count s)) s);;
            let profit_target :=
              py_round2 (Double.mul option_price (Double.add 1 PROFIT_TARGET_PERCENT)) in
            let stop_loss :=
              py_round2 (Double.mul option_price (Double.sub 1 STOP_LOSS_PERCENT)) in
            let position :=
              mkPosition symbol segment direction option_price qty invested
                         profit_target stop_loss pivot in
            modify_sess (set_current_position (Some position));;
            dash_enter_trade symbol direction option_price qty stop_loss profit_target;;
            update_strategy_status "IN_TRADE";;
            ret (Some position)
      end.

(** [log_trade_to_journal(trade, exit_price, exit_reason)] on the date
    [today]: the division by the entry price, then the row written to
    the file, a write that does not go through raising [OSError] with the
    file as it was. *)
Definition log_trade_to_journal (today : Z) (trade : Position) (exit_price : Q)
    (exit_reason : string) : M unit :=
  _ <- py_div (exit_price - p_entry_price trade) (p_entry_price trade);;
  let trade_record := Journal.trade_record today trade exit_price exit_reason in
  n <- gets journal_calls;;
  modify tick_journal;;
  if journal_writable groww n then modify (write_journal trade_record)
  else raise OSError.

(** [today] is the reading of [date.today()] that dates the journal's
    row. *)
Definition exit_position (today : Z) (exit_price : Q) (reason : string) : M unit :=
  s <- gets sess;;
  match current_position s with
  | None => ret tt
  | Some position =>
      paper_sell (p_symbol position) (p_quantity position) exit_price reason;;
      _ <- py_div (exit_price - p_entry_price position) (p_entry_price position);;
      log_trade_to_journal today position exit_price reason;;
      dash_exit_trade exit_price reason;;
      s <- gets sess;;
      (if (MAX_DAILY_TRADES <=? executed_trades_count s)%nat
       then update_strategy_status "TRADE_LIMIT_REACHED"
       else update_strategy_status "WAITING_FOR_SETUP");;
      modify_sess (set_current_position None)
  end.

Definition check_stop_loss (today : Z) : M unit :=
  s <- gets sess;;
  match current_position s with
  | None => ret tt
  | Some position =>
      price <- fetch_option_price (p_symbol position) (p_segment position);;
      match price with
      | None => ret tt
      | Some price =>
          dash_update_trade_price price;;
          if Qle_bool price (p_stop_loss position)
          then exit_position today price "STOP_LOSS"
          else ret tt
      end
  end.

Definition check_profit_target (today : Z) : M unit :=
  s <- gets sess;;
  match current_position s with
  | None => ret tt
  | Some position =>
      price <- fetch_option_price (p_symbol position) (p_segment position);;
      match price with
      | None => ret tt
      | Some price =>
          dash_update_trade_price price;;
          if Qle_bool (p_profit_target position) price
          then exit_position today price "PROFIT_TARGET"
          else ret tt
      end
  end.

Definition force_eod_exit (today : Z) : M unit :=
  s <- gets sess;;
  match current_position s with
  | None => ret tt
  | Some position =>
      add_event "EOD exit triggered";;
      price <- fetch_option_price (p_symbol position) (p_segment position);;
      let exit_price :=
        match price with
        | Some p => if truthy price then p else p_entry_price position
        | None => p_entry_price position
        end in
      exit_position today exit_price "EOD_EXIT"
  end.

(** ** One iteration of [run_trading_loop]

    [today] and [now] are the readings of [date.today()] and
    [datetime.now().time()], taken to be the same at every place the
    iteration reads them, the journal's row included.  The sleep that closes an iteration and the
    dashboard's market snapshot are left out. *)

(** [(datetime.now() - last).total_seconds() >= HEARTBEAT_INTERVAL_SEC]. *)
Definition heartbeat_due (last : Z * Z) (today now : Z) : bool :=
  (HEARTBEAT_INTERVAL_SEC * 1000000
   <=? (today - fst last) * 86400000000 + (now - snd last))%Z.

(** The heartbeat that opens an iteration.  Subtracting [None] from a
    [datetime] raises [TypeError]. *)
Definition heartbeat (today now : Z) : M unit :=
  s <- gets sess;;
  match last_heartbeat_timestamp s with
  | None => raise TypeError
  | Some last =>
      if heartbeat_due last today now
      then modify_sess (set_last_heartbeat_timestamp (Some (today, now)))
      else ret tt
  end.

Definition entry_logic (today now : Z) (pivot : Q) : M unit :=
  if (ENTRY_CUTOFF <=? now)%Z then update_strategy_status "ENTRY_CUTOFF_REACHED"
  else if (now <? BIAS_CANDLE_END)%Z then update_strategy_status "WAITING_FOR_BIAS"
  else
    determine_daily_bias today now;;
    s <- gets sess;;
    match daily_bias s with
    | None => ret tt
    | Some NEUTRAL =>
        update_strategy_status "NO_TRADE_TODAY";;
        add_event "No clear bias - no trade today"
    | Some bias =>
        update_strategy_status "WAITING_FOR_PULLBACK";;
        spot <- fetch_spot_price;;
        match spot with
        | None => ret tt
        | Some spot =>
            if negb (is_in_pivot_zone spot pivot) then ret tt
            else
              add_event "Pullback to pivot zone detected";;
              update_strategy_status "READY_TO_ENTER";;
              let direction := match bias with BULLISH => CALL | _ => PUT end in
              let itm_strike := calculate_itm_strike spot direction in
              let option_type := match direction with CALL => CE | PUT => PE end in
              match get_nearest_valid_expiry groww today with
              | None => ret tt
              | Some expiry =>
                  match find_option_instrument groww expiry itm_strike option_type with
                  | None => ret tt
                  | Some instrument =>
                      _ <- enter_position direction (i_symbol instrument)
                                          (i_segment instrument) pivot;;
                      ret tt
                  end
              end
        end
    end.

Definition position_management (today now : Z) : M unit :=
  if (EOD_EXIT <=? now)%Z then force_eod_exit today
  else
    check_stop_loss today;;
    s <- gets sess;;
    match current_position s with
    | None => ret tt
    | Some _ => check_profit_target today
    end.

Definition loop_body (today now : Z) : M unit :=
  heartbeat today now;;
  if negb (is_trading_day today) then update_strategy_status "MARKET_CLOSED"
  else
    reset_daily_state today;;
    s <- gets sess;;
    match daily_pivot_point s with
    | None => add_event "Waiting for pivot calculation"
    | Some pivot =>
        match current_position s with
        | Some _ => position_management today now
        | None => entry_logic today now pivot
        end
    end.

(** The iteration inside its [try ... except Exception], whose handler
    reports the error to the dashboard. *)
Definition tick (today now : Z) : M unit :=
  try_except (loop_body today now) (add_event "Error").

(** The globals after a run of iterations, one per clock reading. *)
Fixpoint run (ticks : list (Z * Z)) (w : World) : World :=
  match ticks with
  | [] => w
  | (today, now) :: rest => run rest (world_of (tick today now w))
  end.

(** [run_trading_loop] entered at the clock reading [start]: the time
    stamp is set, then the iterations run. *)
Definition run_trading_loop (start : Z * Z) (ticks : list (Z * Z)) (w : World)
    : World :=
  run ticks (set_sess (set_last_heartbeat_timestamp (Some start) (sess w)) w).

(** [main] past the set-up of its collaborators: the daily reset, then
    the loop. *)
Definition main (start : Z * Z) (ticks : list (Z * Z)) : World :=
  run_trading_loop start ticks
    (world_of (reset_daily_state (fst start) initial_world)).

End Program.

(* ================================================================== *)
(** * Market hours ([is_market_open], [get_sleep_duration]) *)
(* ================================================================== *)

Definition is_market_open (now : Z) : bool :=
  ((MARKET_OPEN <=? now) && (now <=? MARKET_CLOSE))%Z.

(** The seconds the loop sleeps for at the end of an iteration. *)
Definition get_sleep_duration (now : Z) (s : Session) : Z :=
  if negb (is_market_open now) then 300%Z
  else
    match current_position s with
    | None => 30%Z
    | Some _ => 5%Z
    end.

(* ================================================================== *)
(** * The breaker's status line ([CircuitBreaker.status]) *)
(* ================================================================== *)

(** Python's [int] of a float: truncation towards zero. *)
Definition py_int (x : Q) : Z := Z.quot (Qnum x) (Zpos (Qden x)).

Module BreakerStatus.

(** What the status line says: [OPEN (<remaining>s remaining, <failures>
    failures)] or [CLOSED (<failures>/<threshold> failures)]. *)
Inductive Status : Type :=
| OPEN (remaining : Q) (failures : nat)
| CLOSED (failures threshold : nat).

Definition status (now : Q) (b : CircuitBreaker.t) : Status :=
  match CircuitBreaker.opened_at b with
  | Some at_ =>
      if truthy (CircuitBreaker.opened_at b) then
        let left := CircuitBreaker.timeout b - inject_Z (py_int (now - at_)) in
        OPEN (if Qlt_bool 0 left then left else 0) (CircuitBreaker.failure_count b)
      else CLOSED (CircuitBreaker.failure_count b) (CircuitBreaker.threshold b)
  | None => CLOSED (CircuitBreaker.failure_count b) (CircuitBreaker.threshold b)
  end.

End BreakerStatus.

(* ================================================================== *)
(** * The instrument catalogue ([get_nearest_valid_expiry],
      [find_option_instrument]) *)
(* ================================================================== *)

Module Catalogue.

(** A row of [instruments_data], with the columns the two lookups read.
    [expiry_date] is the date the column parses to; [strike_price] is
    [None] where [pd.to_numeric(..., errors="coerce")] gives NaN. *)
Record Row : Type := mkRow {
  underlying_symbol : string;
  segment : string;
  expiry_date : Z;
  instrument_type : string;
  buy_allowed : Z;
  strike_price : option Q;
  lot_size : Z;
  trading_symbol : string
}.

Definition option_type_name (t : OptionType) : string :=
  match t with
  | CE => "CE"
  | PE => "PE"
  end.

Fixpoint insert_date (d : Z) (l : list Z) : list Z :=
  match l with
  | [] => [d]
  | x :: l' => if (d <=? x)%Z then d :: l else x :: insert_date d l'
  end.

(** [sorted(...)] on dates. *)
Definition sorted (l : list Z) : list Z := fold_right insert_date [] l.

(** [get_nearest_valid_expiry(underlying)] over the table
    [instruments_data] on the date [today]. *)
Definition get_nearest_valid_expiry (instruments_data : list Row) (today : Z)
    (underlying : string) : option Z :=
  let df :=
    filter (fun r => (underlying_symbol r =? underlying)%string
                     && (segment r =? "FNO")%string) instruments_data in
  let future_expiries :=
    sorted (filter (fun d => (today <=? d)%Z)
                   (nodup Z.eq_dec (map expiry_date df))) in
  let weekly_expiries := filter (fun d => (d - today <=? 7)%Z) future_expiries in
  match weekly_expiries with
  | [] => None
  | nearest :: _ => Some nearest
  end.

(** The key of [instrument_lookup_cache], the fields of the formatted
    string [f"{underlying}_{expiry}_{strike}_{option_type}"]. *)
Definition CacheKey : Type := (string * Z * Z * OptionType)%type.

Definition option_type_eqb (a b : OptionType) : bool :=
  match a, b with
  | CE, CE | PE, PE => true
  | _, _ => false
  end.

Definition key_eqb (a b : CacheKey) : bool :=
  let '(u1, e1, s1, t1) := a in
  let '(u2, e2, s2, t2) := b in
  (u1 =? u2)%string && (e1 =? e2)%Z && (s1 =? s2)%Z && option_type_eqb t1 t2.

Definition Cache : Type := list (CacheKey * Instrument).

Fixpoint cache_get (k : CacheKey) (c : Cache) : option Instrument :=
  match c with
  | [] => None
  | (k', v) :: c' => if key_eqb k k' then Some v else cache_get k c'
  end.

(** The rows that survive [dropna(subset=["strike_price"])], each with
    its strike. *)
Definition with_strike (rows : list Row) : list (Row * Q) :=
  flat_map (fun r => match strike_price r with
                     | Some k => [(r, k)]
                     | None => []
                     end) rows.

Definition strike_diff (strike : Z) (x : Row * Q) : Q :=
  py_abs (snd x - inject_Z strike).

Fixpoint insert_by_diff (strike : Z) (x : Row * Q) (l : list (Row * Q))
    : list (Row * Q) :=
  match l with
  | [] => [x]
  | y :: l' =>
      if Qlt_bool (strike_diff strike x) (strike_diff strike y) then x :: l
      else y :: insert_by_diff strike x l'
  end.

(** [sort_values("strike_diff")], ascending; which of several rows at
    the same distance comes first is not fixed by pandas, and here it is
    the one listed first. *)
Definition sort_by_diff (strike : Z) (l : list (Row * Q)) : list (Row * Q) :=
  fold_right (insert_by_diff strike) [] (rev l).

(** [find_option_instrument(underlying, expiry, strike, option_type)]
    over the table and the cache: the answer and the cache after the
    call. *)
Definition find_option_instrument (instruments_data : list Row) (cache : Cache)
    (underlying : string) (expiry strike : Z) (option_type : OptionType)
    : option Instrument * Cache :=
  let cache_key := (underlying, expiry, strike, option_type) in
  match cache_get cache_key cache with
  | Some hit => (Some hit, cache)
  | None =>
      let filtered :=
        filter (fun r => (underlying_symbol r =? underlying)%string
                         && (expiry_date r =? expiry)%Z
                         && (instrument_type r =? option_type_name option_type)%string)
               instruments_data in
      let filtered := filter (fun r => (buy_allowed r =? 1)%Z) filtered in
      match filtered with
      | [] => (None, cache)
      | _ =>
          match with_strike filtered with
          | [] => (None, cache)
          | priced =>
              match sort_by_diff strike priced with
              | [] => (None, cache)
              | (nearest, nearest_strike) :: _ =>
                  if negb (lot_size nearest =? NIFTY_LOT_SIZE)%Z then (None, cache)
                  else
                    let result :=
                      mkInstrument (trading_symbol nearest) (segment nearest)
                                   (lot_size nearest) nearest_strike in
                    (Some result, (cache_key, result) :: cache)
              end
          end
      end
  end.

End Catalogue.

(* ================================================================== *)
(** * The dashboard's state in full ([class SharedState]) *)
(* ================================================================== *)

(** Python's [round(x, 1)]. *)
Definition py_round1 (x : Q) : Q := Qred (round_half_even (x * 10) # 10).

(** [append] on a [deque(maxlen=maxlen)]. *)
Definition deque_append {A : Type} (maxlen : nat) (x : A) (l : list A) : list A :=
  let l' := (l ++ [x])%list in skipn (List.length l' - maxlen) l'.

Module SharedState.

(** The [current_trade] dictionary ([entry_time] left out). *)
Record Trade : Type := mkTrade {
  symbol : string;
  direction : Direction;
  entry_price : Q;
  quantity : Z;
  stop_loss : Q;
  profit_target : Q;
  current_price : Q;
  pnl : Q;
  pnl_percent : Q
}.

(** A [trade_record] of the history (the two times left out). *)
Record TradeRecord : Type := mkTradeRecord {
  t_direction : Direction;
  t_symbol : string;
  t_entry_price : Q;
  t_exit_price : Q;
  t_quantity : Z;
  t_pnl : Q;
  t_pnl_percent : Q;
  t_exit_reason : string
}.

(** The attributes of the singleton; [{}] is [None].  [mode] and
    [current_date], which no method writes, are left out, and so are the
    lock, the time stamps of the events and the numbers formatted into
    their messages. *)
Record t : Type := mk {
  market_status : string;
  spot_price : option Q;
  pivot : option Q;
  bias : option Bias;
  status : string;
  distance_to_pivot : option Q;
  in_trade : bool;
  current_trade : option Trade;
  trades : list TradeRecord;
  events : list string;
  total_trades : nat;
  wins : nat;
  losses : nat;
  total_pnl : Q;
  max_drawdown : Q
}.

(** [__init__]. *)
Definition init : t :=
  mk "CLOSED" None None None "WAITING_FOR_MARKET" None false None [] [] 0 0 0 0 0.

Inductive exn : Type := ZeroDivisionError | KeyError.

(** How a method call ends, and the attributes it leaves. *)
Inductive outcome : Type :=
| Returns (s : t)
| Raises (e : exn) (s : t).

Definition state_of (o : outcome) : t :=
  match o with
  | Returns s => s
  | Raises _ s => s
  end.

Definition or_keep {A : Type} (new : option A) (old : option A) : option A :=
  match new with
  | Some _ => new
  | None => old
  end.

Definition add_event (message : string) (s : t) : t :=
  mk (market_status s) (spot_price s) (pivot s) (bias s) (status s)
     (distance_to_pivot s) (in_trade s) (current_trade s) (trades s)
     (deque_append 200 message (events s))
     (total_trades s) (wins s) (losses s) (total_pnl s) (max_drawdown s).

Definition update_market (new_spot new_pivot : option Q) (new_bias : option Bias)
    (new_status : option string) (s : t) : t :=
  let spot' := or_keep new_spot (spot_price s) in
  let pivot' := or_keep new_pivot (pivot s) in
  let distance :=
    match spot', pivot' with
    | Some sp, Some pv =>
        if truthy spot' && truthy pivot' then Some (py_round2 (sp - pv))
        else distance_to_pivot s
    | _, _ => distance_to_pivot s
    end in
  mk (match new_status with Some st => st | None => market_status s end)
     spot' pivot' (or_keep new_bias (bias s)) (status s) distance
     (in_trade s) (current_trade s) (trades s) (events s)
     (total_trades s) (wins s) (losses s) (total_pnl s) (max_drawdown s).

Definition update_strategy_status (st : string) (s : t) : t :=
  add_event ("Status: " ++ st)
    (mk (market_status s) (spot_price s) (pivot s) (bias s) st
        (distance_to_pivot s) (in_trade s) (current_trade s) (trades s) (events s)
        (total_trades s) (wins s) (losses s) (total_pnl s) (max_drawdown s)).

Definition set_trade (b : bool) (tr : option Trade) (s : t) : t :=
  mk (market_status s) (spot_price s) (pivot s) (bias s) (status s)
     (distance_to_pivot s) b tr (trades s) (events s)
     (total_trades s) (wins s) (losses s) (total_pnl s) (max_drawdown s).

Definition enter_trade (sym : string) (dir : Direction) (entry : Q) (qty : Z)
    (sl pt : Q) (s : t) : t :=
  add_event "Trade entered"
    (set_trade true (Some (mkTrade sym dir entry qty sl pt entry 0 0)) s).

(** The price is written before the percentage is computed: a zero
    entry price raises with the new price already recorded. *)
Definition update_trade_price (price : Q) (s : t) : outcome :=
  if in_trade s then
    match current_trade s with
    | None => Returns s
    | Some tr =>
        let priced :=
          mkTrade (symbol tr) (direction tr) (entry_price tr) (quantity tr)
                  (stop_loss tr) (profit_target tr) price (pnl tr) (pnl_percent tr) in
        let entry := entry_price tr in
        let amount := (price - entry) * inject_Z (quantity tr) in
        if Qeq_bool entry 0
        then Raises ZeroDivisionError (set_trade (in_trade s) (Some priced) s)
        else
          let percent := (price - entry) / entry * 100 in
          Returns
            (set_trade (in_trade s)
               (Some (mkTrade (symbol tr) (direction tr) (entry_price tr) (quantity tr)
                              (stop_loss tr) (profit_target tr) price
                              (py_round2 amount) (py_round2 percent)))
               s)
    end
  else Returns s.

Definition exit_trade (price : Q) (exit_reason : string) (s : t) : outcome :=
  if negb (in_trade s) then Returns s
  else
    match current_trade s with
    | None => Raises KeyError s
    | Some tr =>
        let entry := entry_price tr in
        let qty := quantity tr in
        let amount := (price - entry) * inject_Z qty in
        if Qeq_bool entry 0 then Raises ZeroDivisionError s
        else
          let percent := (price - entry) / entry * 100 in
          let trade_record :=
            mkTradeRecord (direction tr) (symbol tr) entry price qty
                          (py_round2 amount) (py_round2 percent) exit_reason in
          let total := total_pnl s + amount in
          let won := Qlt_bool 0 amount in
          Returns
            (add_event ("Trade exited: " ++ exit_reason)
               (mk (market_status s) (spot_price s) (pivot s) (bias s) (status s)
                   (distance_to_pivot s) false None
                   (deque_append 100 trade_record (trades s)) (events s)
                   (S (total_trades s))
                   (if won then S (wins s) else wins s)
                   (if won then losses s else S (losses s))
                   total
                   (if Qlt_bool total (max_drawdown s) then total else max_drawdown s)))
    end.

(** The [metrics] entry of the snapshot. *)
Record Metrics : Type := mkMetrics {
  m_total_trades : nat;
  m_wins : nat;
  m_losses : nat;
  m_win_rate : Q;
  m_total_pnl : Q;
  m_max_drawdown : Q
}.

(** [get_state]: the attributes as they are, and the metrics. *)
Definition get_state (s : t) : t * Metrics :=
  let win_rate :=
    if (0 <? total_trades s)%nat
    then inject_Z (Z.of_nat (wins s)) / inject_Z (Z.of_nat (total_trades s)) * 100
    else 0 in
  (s, mkMetrics (total_trades s) (wins s) (losses s) (py_round1 win_rate)
                (py_round2 (total_pnl s)) (py_round2 (max_drawdown s))).

(** A call of one of the methods that write. *)
Inductive call : Type :=
| UpdateMarket (new_spot new_pivot : option Q) (new_bias : option Bias)
               (new_status : option string)
| UpdateStrategyStatus (st : string)
| EnterTrade (sym : string) (dir : Direction) (entry : Q) (qty : Z) (sl pt : Q)
| UpdateTradePrice (price : Q)
| ExitTrade (price : Q) (exit_reason : string)
| AddEvent (message : string).

Definition step (c : call) (s : t) : outcome :=
  match c with
  | UpdateMarket sp pv b st => Returns (update_market sp pv b st s)
  | UpdateStrategyStatus st => Returns (update_strategy_status st s)
  | EnterTrade sym dir entry qty sl pt => Returns (enter_trade sym dir entry qty sl pt s)
  | UpdateTradePrice price => update_trade_price price s
  | ExitTrade price reason => exit_trade price reason s
  | AddEvent message => Returns (add_event message s)
  end.

(** The attributes after a sequence of calls, an exception ending the
    call that raised it and no more. *)
Fixpoint run (calls : list call) (s : t) : t :=
  match calls with
  | [] => s
  | c :: rest => run rest (state_of (step c s))
  end.

End SharedState.

(* ================================================================== *)
(** * Comparisons *)
(* ================================================================== *)

Lemma Qlt_bool_iff x y : Qlt_bool x y = true <-> x < y.
Proof.
  unfold Qlt_bool. rewrite negb_true_iff. split; intros H.
  - apply Qnot_le_lt. intros Hle. apply Qle_bool_iff in Hle. congruence.
  - destruct (Qle_bool y x) eqn:E; [ | reflexivity ].
    apply Qle_bool_iff in E. exfalso. apply (Qlt_not_le _ _ H E).
Qed.

Lemma Qlt_bool_false_iff x y : Qlt_bool x y = false <-> y <= x.
Proof.
  unfold Qlt_bool. rewrite negb_false_iff. apply Qle_bool_iff.
Qed.

Lemma Qle_bool_false_iff x y : Qle_bool x y = false <-> y < x.
Proof.
  rewrite <- Qlt_bool_iff. unfold Qlt_bool.
  destruct (Qle_bool x y); simpl; split; congruence.
Qed.

(* ================================================================== *)
(** * Properties of rounding *)
(* ================================================================== *)

Lemma round_half_even_close x :
  x - (1 # 2) <= inject_Z (round_half_even x) /\ inject_Z (round_half_even x) <= x + (1 # 2).
Proof.
  unfold round_half_even.
  pose proof (Qfloor_le x) as Hlo. pose proof (Qlt_floor x) as Hhi.
  rewrite inject_Z_plus in Hhi. change (inject_Z 1) with 1 in Hhi.
  destruct (Qcompare (x - inject_Z (Qfloor x)) (1 # 2)) eqn:E.
  - apply Qeq_alt in E.
    destruct (Z.even (Qfloor x)); rewrite ?inject_Z_plus; change (inject_Z 1) with 1; lra.
  - apply Qlt_alt in E. lra.
  - apply Qgt_alt in E. rewrite inject_Z_plus. change (inject_Z 1) with 1. lra.
Qed.

Lemma round_half_even_ge (n : Z) x : inject_Z n <= x -> (n <= round_half_even x)%Z.
Proof.
  intros H. apply Qfloor_resp_le in H. rewrite Qfloor_Z in H.
  unfold round_half_even.
  destruct (Qcompare _ _); [ destruct (Z.even _) | | ]; lia.
Qed.

Lemma round_half_even_le (n : Z) x : x <= inject_Z n -> (round_half_even x <= n)%Z.
Proof.
  intros H. pose proof (Qfloor_le x) as Hf.
  assert (Hfn : (Qfloor x <= n)%Z) by (rewrite Zle_Qle; lra).
  assert (Hup : 0 < x - inject_Z (Qfloor x) -> (Qfloor x + 1 <= n)%Z).
  { intros Hpos. assert (Hlt : (Qfloor x < n)%Z) by (rewrite Zlt_Qlt; lra). lia. }
  unfold round_half_even.
  destruct (Qcompare (x - inject_Z (Qfloor x)) (1 # 2)) eqn:E.
  - apply Qeq_alt in E. destruct (Z.even _); [ exact Hfn | apply Hup; lra ].
  - exact Hfn.
  - apply Qgt_alt in E. apply Hup. lra.
Qed.

Module DoubleFacts.
Import Double.

Lemma pow2_pos e : 0 < pow2 e.
Proof. apply Qpower_0_lt. reflexivity. Qed.

Lemma pow2_add a b : pow2 (a + b) == pow2 a * pow2 b.
Proof. apply Qpower_plus. intros H. discriminate H. Qed.

Lemma pow2_le a b : (a <= b)%Z -> pow2 a <= pow2 b.
Proof. intros H. apply Qpower_le_compat_l; [ exact H | intros H'; discriminate H' ]. Qed.

Lemma pow2_Z e : (0 <= e)%Z -> pow2 e == inject_Z (2 ^ e).
Proof. intros H. symmetry. exact (Zpower_Qpower 2 e H). Qed.

Lemma pow2_opp e : pow2 (- e) == / pow2 e.
Proof. apply Qpower_opp. Qed.

Lemma pow2_sub a b : pow2 (a - b) == pow2 a / pow2 b.
Proof. unfold Z.sub. rewrite pow2_add, pow2_opp. reflexivity. Qed.

(** The exponent is not above the number. *)
Lemma ilog2_le x : ~ x == 0 -> pow2 (ilog2 x) <= Qabs x.
Proof.
  intros Hx. unfold ilog2.
  set (a := Z.abs (Qnum x)). set (d := Zpos (Qden x)).
  destruct (Qle_bool (pow2 (Z.log2 a - Z.log2 d)) (Qabs x)) eqn:E;
    [ apply Qle_bool_iff; exact E | ].
  assert (Ha : (0 < a)%Z).
  { unfold a. destruct x as [ n dd ]. unfold Qeq in Hx. simpl in *. lia. }
  assert (Hd : (0 < d)%Z) by (unfold d; lia).
  pose proof (Z.log2_spec a Ha) as (Ha1 & _).
  pose proof (Z.log2_spec d Hd) as (_ & Hd2).
  pose proof (Z.log2_nonneg a) as Hla. pose proof (Z.log2_nonneg d) as Hld.
  assert (Habs : Qabs x == inject_Z a / inject_Z d).
  { destruct x as [ n dd ]. unfold a, d. cbn [Qabs Qnum Qden]. apply Qmake_Qdiv. }
  replace (Z.log2 a - Z.log2 d - 1)%Z with (Z.log2 a - Z.succ (Z.log2 d))%Z by lia.
  rewrite pow2_sub, (pow2_Z (Z.log2 a)) by lia.
  rewrite (pow2_Z (Z.succ (Z.log2 d))) by lia. rewrite Habs.
  set (P := (2 ^ Z.log2 a)%Z) in *. set (R := (2 ^ Z.succ (Z.log2 d))%Z) in *.
  assert (HR : 0 < inject_Z R) by (change 0 with (inject_Z 0); rewrite <- Zlt_Qlt; lia).
  assert (HD : 0 < inject_Z d) by (change 0 with (inject_Z 0); rewrite <- Zlt_Qlt; lia).
  apply Qle_shift_div_r; [ exact HR | ].
  assert (E1 : inject_Z a / inject_Z d * inject_Z R == inject_Z (a * R) / inject_Z d).
  { rewrite inject_Z_mult. field. intros H. rewrite H in HD. discriminate HD. }
  rewrite E1. apply Qle_shift_div_l; [ exact HD | ].
  rewrite <- inject_Z_mult, <- Zle_Qle. nia.
Qed.

Lemma ulp_pos x : 0 < ulp x.
Proof. apply pow2_pos. Qed.

Lemma rd_zero x : x == 0 -> rd x = 0.
Proof. intros H. unfold rd. apply Qeq_bool_iff in H. rewrite H. reflexivity. Qed.

Lemma rd_eq x : ~ x == 0 -> rd x == inject_Z (round_half_even (x / ulp x)) * ulp x.
Proof.
  intros H. unfold rd. destruct (Qeq_bool x 0) eqn:E.
  - apply Qeq_bool_iff in E. contradiction.
  - apply Qred_correct.
Qed.

(** Rounding moves a number by half a unit in the last place at most. *)
Lemma rd_close x : ~ x == 0 -> Qabs (rd x - x) <= ulp x * (1 # 2).
Proof.
  intros H. rewrite (rd_eq x H).
  pose proof (ulp_pos x) as Hu. set (u := ulp x) in *.
  destruct (round_half_even_close (x / u)) as (H1 & H2).
  set (z := inject_Z (round_half_even (x / u))) in *.
  assert (Hxu : x == x / u * u) by (field; intros E; rewrite E in Hu; discriminate Hu).
  apply Qabs_Qle_condition. split.
  - assert (H3 : (x / u - (1 # 2)) * u <= z * u) by (apply Qmult_le_compat_r; lra).
    lra.
  - assert (H3 : z * u <= (x / u + (1 # 2)) * u) by (apply Qmult_le_compat_r; lra).
    lra.
Qed.

Lemma ulp_bound x : ~ x == 0 -> ulp x <= Qabs x * pow2 (-52) + pow2 (-1074).
Proof.
  intros H. unfold ulp. pose proof (ilog2_le x H) as He.
  pose proof (pow2_pos (-1074)) as H1. pose proof (pow2_pos (-52)) as H2.
  pose proof (Qabs_nonneg x) as Hx.
  destruct (Z.max_spec (ilog2 x - 52) (-1074)) as [ (_ & ->) | (_ & ->) ].
  - assert (0 <= Qabs x * pow2 (-52)) by (apply Qmult_le_0_compat; lra). lra.
  - replace (ilog2 x - 52)%Z with (ilog2 x + - 52)%Z by lia. rewrite pow2_add.
    assert (pow2 (ilog2 x) * pow2 (-52) <= Qabs x * pow2 (-52))
      by (apply Qmult_le_compat_r; lra).
    lra.
Qed.

(** The relative error of rounding is [2 ^ -53], but for the numbers
    below the normal range, where the error is [2 ^ -1075] at most. *)
Lemma rd_rel x : Qabs (rd x - x) <= Qabs x * pow2 (-53) + pow2 (-1075).
Proof.
  destruct (Qeq_dec x 0) as [ E | H ].
  - rewrite (rd_zero x E).
    assert (E' : 0 - x == 0) by (rewrite E; reflexivity).
    rewrite E', E. vm_compute. discriminate.
  - pose proof (rd_close x H) as Hc. pose proof (ulp_bound x H) as Hb.
    assert (E53 : pow2 (-53) == pow2 (-52) * (1 # 2)) by reflexivity.
    assert (E1075 : pow2 (-1075) == pow2 (-1074) * (1 # 2)) by reflexivity.
    rewrite E53, E1075. lra.
Qed.


(** Rounding does not cross an integer below [2 ^ 53]. *)
Lemma rd_int_ge (n : Z) x :
  (Z.abs n < 2 ^ 53)%Z -> inject_Z n <= x -> inject_Z n <= rd x.
Proof.
  intros Hn Hle.
  destruct (Qeq_dec x 0) as [ E | H ]; [ rewrite (rd_zero x E); lra | ].
  rewrite (rd_eq x H). pose proof (ilog2_le x H) as He. unfold ulp.
  set (k := Z.max (ilog2 x - 52) (-1074)).
  pose proof (pow2_pos k) as Hu.
  assert (Hxu : x == x / pow2 k * pow2 k) by (field; intros E; rewrite E in Hu; discriminate Hu).
  destruct (Z.le_gt_cases k 0) as [ Hk | Hk ].
  - (* the grid is finer than the integers *)
    assert (Ek : pow2 k == / inject_Z (2 ^ (- k))).
    { replace k with (- - k)%Z at 1 by lia. rewrite pow2_opp, pow2_Z by lia. reflexivity. }
    assert (HN : 0 < inject_Z (2 ^ (- k))).
    { change 0 with (inject_Z 0). rewrite <- Zlt_Qlt. apply Z.pow_pos_nonneg; lia. }
    set (N := (2 ^ (- k))%Z) in *.
    assert (Hz : x / pow2 k == x * inject_Z N).
    { rewrite Ek. field. intros E. rewrite E in HN. discriminate HN. }
    assert (Hr : (n * N <= round_half_even (x / pow2 k))%Z).
    { apply round_half_even_ge. rewrite Hz, inject_Z_mult.
      apply Qmult_le_compat_r; lra. }
    rewrite Zle_Qle in Hr. rewrite inject_Z_mult in Hr.
    set (z := inject_Z (round_half_even (x / pow2 k))) in *.
    rewrite Ek.
    assert (E1 : z * / inject_Z N == z / inject_Z N) by reflexivity.
    rewrite E1. apply Qle_shift_div_l; [ exact HN | exact Hr ].
  - (* the number is beyond [2 ^ 53] *)
    assert (Hk' : k = (ilog2 x - 52)%Z) by (unfold k; lia).
    assert (He53 : pow2 53 <= Qabs x).
    { apply (Qle_trans _ (pow2 (ilog2 x))); [ apply pow2_le; lia | exact He ]. }
    assert (Hn' : - pow2 53 < inject_Z n /\ inject_Z n < pow2 53).
    { rewrite (pow2_Z 53) by lia.
      change (- inject_Z (2 ^ 53)) with (inject_Z (- 2 ^ 53)).
      rewrite <- !Zlt_Qlt. lia. }
    assert (Hpos : pow2 53 <= x).
    { revert He53. apply Qabs_case; intros; lra. }
    assert (Hz : pow2 52 <= x / pow2 k).
    { apply Qle_shift_div_l; [ exact Hu | ].
      rewrite <- pow2_add. replace (52 + k)%Z with (ilog2 x) by lia.
      revert He. apply Qabs_case; intros; lra. }
    assert (Hr : (2 ^ 52 <= round_half_even (x / pow2 k))%Z).
    { apply round_half_even_ge. rewrite <- (pow2_Z 52) by lia. exact Hz. }
    rewrite Zle_Qle in Hr. rewrite <- (pow2_Z 52) in Hr by lia.
    set (z := inject_Z (round_half_even (x / pow2 k))) in *.
    assert (H1 : pow2 52 * pow2 k <= z * pow2 k) by (apply Qmult_le_compat_r; lra).
    assert (H2 : pow2 53 <= pow2 52 * pow2 k).
    { rewrite <- pow2_add. apply pow2_le. lia. }
    lra.
Qed.

Lemma rd_int_le (n : Z) x :
  (Z.abs n < 2 ^ 53)%Z -> x <= inject_Z n -> rd x <= inject_Z n.
Proof.
  intros Hn Hle.
  destruct (Qeq_dec x 0) as [ E | H ]; [ rewrite (rd_zero x E); lra | ].
  rewrite (rd_eq x H). pose proof (ilog2_le x H) as He. unfold ulp.
  set (k := Z.max (ilog2 x - 52) (-1074)).
  pose proof (pow2_pos k) as Hu.
  destruct (Z.le_gt_cases k 0) as [ Hk | Hk ].
  - assert (Ek : pow2 k == / inject_Z (2 ^ (- k))).
    { replace k with (- - k)%Z at 1 by lia. rewrite pow2_opp, pow2_Z by lia. reflexivity. }
    assert (HN : 0 < inject_Z (2 ^ (- k))).
    { change 0 with (inject_Z 0). rewrite <- Zlt_Qlt. apply Z.pow_pos_nonneg; lia. }
    set (N := (2 ^ (- k))%Z) in *.
    assert (Hz : x / pow2 k == x * inject_Z N).
    { rewrite Ek. field. intros E. rewrite E in HN. discriminate HN. }
    assert (Hr : (round_half_even (x / pow2 k) <= n * N)%Z).
    { apply round_half_even_le. rewrite Hz, inject_Z_mult.
      apply Qmult_le_compat_r; lra. }
    rewrite Zle_Qle in Hr. rewrite inject_Z_mult in Hr.
    set (z := inject_Z (round_half_even (x / pow2 k))) in *.
    rewrite Ek.
    assert (E1 : z * / inject_Z N == z / inject_Z N) by reflexivity.
    rewrite E1. apply Qle_shift_div_r; [ exact HN | exact Hr ].
  - assert (Hk' : k = (ilog2 x - 52)%Z) by (unfold k; lia).
    assert (He53 : pow2 53 <= Qabs x).
    { apply (Qle_trans _ (pow2 (ilog2 x))); [ apply pow2_le; lia | exact He ]. }
    assert (Hn' : - pow2 53 < inject_Z n /\ inject_Z n < pow2 53).
    { rewrite (pow2_Z 53) by lia.
      change (- inject_Z (2 ^ 53)) with (inject_Z (- 2 ^ 53)).
      rewrite <- !Zlt_Qlt. lia. }
    assert (Hneg : x <= - pow2 53).
    { revert He53. apply Qabs_case; intros; lra. }
    assert (Hz : x / pow2 k <= - pow2 52).
    { apply Qle_shift_div_r; [ exact Hu | ].
      assert (E2 : - pow2 52 * pow2 k == - (pow2 52 * pow2 k)) by ring.
      rewrite E2, <- pow2_add. replace (52 + k)%Z with (ilog2 x) by lia.
      revert He. apply Qabs_case; intros; lra. }
    assert (Hr : (round_half_even (x / pow2 k) <= - 2 ^ 52)%Z).
    { apply round_half_even_le.
      change (inject_Z (- 2 ^ 52)) with (- inject_Z (2 ^ 52)).
      rewrite <- (pow2_Z 52) by lia. exact Hz. }
    rewrite Zle_Qle in Hr.
    change (inject_Z (- 2 ^ 52)) with (- inject_Z (2 ^ 52)) in Hr.
    rewrite <- (pow2_Z 52) in Hr by lia.
    set (z := inject_Z (round_half_even (x / pow2 k))) in *.
    assert (H1 : z * pow2 k <= - pow2 52 * pow2 k) by (apply Qmult_le_compat_r; lra).
    assert (H2 : pow2 53 <= pow2 52 * pow2 k).
    { rewrite <- pow2_add. apply pow2_le. lia. }
    lra.
Qed.

(** An integer below [2 ^ 53] is a double. *)
Lemma rd_int (n : Z) : (Z.abs n < 2 ^ 53)%Z -> rd (inject_Z n) == inject_Z n.
Proof.
  intros Hn. apply Qle_antisym.
  - apply rd_int_le; [ exact Hn | apply Qle_refl ].
  - apply rd_int_ge; [ exact Hn | apply Qle_refl ].
Qed.

End DoubleFacts.

(* ================================================================== *)
(** * Properties of the circuit breaker *)
(* ================================================================== *)

Module CircuitBreakerFacts.
Import CircuitBreaker.

Lemma failures_shape clock n b :
  failure_count (failures clock n b) = (n + failure_count b)%nat
  /\ threshold (failures clock n b) = threshold b
  /\ timeout (failures clock n b) = timeout b.
Proof.
  induction n as [ | n IH ]; simpl; [ auto | ].
  destruct IH as (Hc & Ht & Hd). unfold record_failure.
  destruct (threshold _ <=? _)%nat; simpl; rewrite Hc, Ht, Hd; auto.
Qed.

Lemma failures_trip clock n b :
  threshold b = S (n + failure_count b) ->
  failures clock (S n) b
  = mk (threshold b) (threshold b) (timeout b) (Some (clock n)).
Proof.
  intros Hthr. simpl.
  destruct (failures_shape clock n b) as (Hc & Ht & Hd).
  unfold record_failure. rewrite Hc, Ht, Hd, Hthr, Nat.leb_refl. reflexivity.
Qed.

Lemma truthy_nonzero t : ~ t == 0 -> truthy (Some t) = true.
Proof.
  intros Hne. simpl. destruct (Qeq_bool t 0) eqn:E; [ | reflexivity ].
  apply Qeq_bool_iff in E. contradiction.
Qed.

Lemma is_open_within now b t :
  opened_at b = Some t -> ~ t == 0 -> now - t <= timeout b ->
  is_open now b = (true, b).
Proof.
  intros Hat Hne Hle. unfold is_open. rewrite Hat, (truthy_nonzero t Hne). simpl.
  apply Qlt_bool_false_iff in Hle. rewrite Hle. reflexivity.
Qed.

Lemma is_open_expired now b t :
  opened_at b = Some t -> ~ t == 0 -> timeout b < now - t ->
  is_open now b = (false, mk 0 (threshold b) (timeout b) None).
Proof.
  intros Hat Hne Hlt. unfold is_open. rewrite Hat, (truthy_nonzero t Hne). simpl.
  apply Qlt_bool_iff in Hlt. rewrite Hlt. reflexivity.
Qed.

Lemma is_open_closed now b : opened_at b = None -> is_open now b = (false, b).
Proof. intros Hat. unfold is_open. rewrite Hat. reflexivity. Qed.

(** The breakers a program can hold: built by [__init__] with a
    positive threshold and driven by the three methods, the clock never
    reading the epoch itself. *)
Inductive reachable (thr : nat) (cool : Q) : t -> Prop :=
| reach_init : reachable thr cool (init thr cool)
| reach_failure b now :
    reachable thr cool b -> ~ now == 0 ->
    reachable thr cool (record_failure now b)
| reach_success b :
    reachable thr cool b -> reachable thr cool (record_success b)
| reach_is_open b now :
    reachable thr cool b -> reachable thr cool (snd (is_open now b)).

Lemma is_open_cases now b :
  is_open now b = (false, b)
  \/ is_open now b = (true, b) /\ (exists t, opened_at b = Some t)
  \/ is_open now b = (false, mk 0 (threshold b) (timeout b) None).
Proof.
  unfold is_open. destruct (opened_at b) as [ t | ] eqn:Hat; simpl; [ | auto ].
  destruct (Qeq_bool t 0); simpl; [ auto | ].
  destruct (Qlt_bool (timeout b) (now - t)); [ auto | ].
  right; left. split; [ reflexivity | ]. exists t. reflexivity.
Qed.

Lemma reachable_inv thr cool b :
  (0 < thr)%nat -> reachable thr cool b ->
  threshold b = thr /\ timeout b = cool /\ wf b
  /\ (forall t, opened_at b = Some t -> ~ t == 0).
Proof.
  intros Hthr Hr. induction Hr as [ | b now Hr IH Hne | b Hr IH | b now Hr IH ].
  - split; [ reflexivity | split; [ reflexivity | split ] ].
    + unfold wf, tripped. simpl. split; [ congruence | lia ].
    + simpl. discriminate.
  - destruct IH as (Ht & Hc & Hwf & Hz). unfold record_failure, wf, tripped in *.
    destruct (threshold b <=? S (failure_count b))%nat eqn:E; simpl;
      (split; [ exact Ht | split; [ exact Hc | split ] ]).
    + apply Nat.leb_le in E. split; [ intros _; exact E | discriminate ].
    + intros t Heq. inversion Heq; subst. exact Hne.
    + apply Nat.leb_gt in E. split; [ intros Hset; apply Hwf in Hset; lia | lia ].
    + exact Hz.
  - destruct IH as (Ht & Hc & Hwf & Hz). unfold record_success, wf, tripped. simpl.
    split; [ exact Ht | split; [ exact Hc | split ] ].
    + split; [ congruence | lia ].
    + discriminate.
  - destruct IH as (Ht & Hc & Hwf & Hz).
    destruct (is_open_cases now b) as [ E | [ (E & _) | E ] ]; rewrite E; simpl; auto.
    split; [ exact Ht | split; [ exact Hc | split ] ].
    + unfold wf, tripped. simpl. split; [ congruence | lia ].
    + simpl. discriminate.
Qed.

(** ** C7 *)

(** C7. Built with a positive threshold and read against a clock that
    never shows the epoch itself, a closed breaker that takes
    [threshold] calls of [record_failure] in a row is stamped with the
    time of the last one; from then on [is_open] answers true, and
    changes nothing, at every time within [timeout] seconds of the
    stamp, and at a time strictly more than [timeout] seconds past it
    answers false and resets [failure_count] to 0 and [opened_at] to
    [None].  [record_success] resets both from any state.  In every
    breaker the methods can produce, [opened_at] is set exactly when
    the failure count has reached the threshold, and [is_open] answers
    true exactly when [opened_at] is set once it returns. *)
Theorem breaker_contract (thr : nat) (cool : Q) (clock : nat -> Q) :
  (0 < thr)%nat ->
  (forall k, ~ clock k == 0) ->
  let b := failures clock thr (init thr cool) in
  let stamp := clock (thr - 1)%nat in
  (failure_count b = thr /\ opened_at b = Some stamp)
  /\ (forall now, now - stamp <= cool -> is_open now b = (true, b))
  /\ (forall now, cool < now - stamp ->
        is_open now b = (false, mk 0 thr cool None))
  /\ (forall b', failure_count (record_success b') = 0%nat
                 /\ opened_at (record_success b') = None)
  /\ (forall b', reachable thr cool b' ->
        (opened_at b' <> None <-> tripped b')
        /\ forall now,
             fst (is_open now b') = true
             <-> opened_at (snd (is_open now b')) <> None).
Proof.
  intros Hthr Hclock b stamp.
  assert (Hb : b = mk thr thr cool (Some stamp)).
  { subst b stamp. destruct thr as [ | n ]; [ lia | ].
    rewrite failures_trip by (simpl; lia). simpl.
    rewrite Nat.sub_0_r. reflexivity. }
  clearbody b. subst b.
  assert (Hne : ~ stamp == 0) by apply Hclock.
  split; [ split; reflexivity | ].
  split; [ intros now Hle; apply (is_open_within now _ stamp); simpl; auto | ].
  split; [ intros now Hlt;
           rewrite (is_open_expired now _ stamp); simpl; auto | ].
  split; [ intros b'; split; reflexivity | ].
  intros b' Hr. destruct (reachable_inv thr cool b' Hthr Hr) as (_ & _ & Hwf & Hz).
  split; [ exact Hwf | ].
  intros now. unfold is_open.
  destruct (opened_at b') as [ t | ] eqn:Hat; simpl.
  - assert (E : Qeq_bool t 0 = false).
    { destruct (Qeq_bool t 0) eqn:E; [ | reflexivity ].
      apply Qeq_bool_iff in E. exfalso. exact (Hz t eq_refl E). }
    rewrite E. simpl. destruct (Qlt_bool (timeout b') (now - t)); simpl.
    + split; [ discriminate | intros H; exfalso; apply H; reflexivity ].
    + rewrite Hat. split; [ discriminate | reflexivity ].
  - rewrite Hat. split; [ discriminate | intros H; exfalso; apply H; reflexivity ].
Qed.

(** The two breakers of the program, failing five times from a clock
    that starts at 1000 seconds. *)
Lemma breaker_contract_witness :
  let clock := fun k : nat => 1000 + inject_Z (Z.of_nat k) in
  let b := failures clock CIRCUIT_BREAKER_FAILURES
             (init CIRCUIT_BREAKER_FAILURES CIRCUIT_BREAKER_TIMEOUT_SEC) in
  is_open 1304 b = (true, b)
  /\ is_open (1304 + (1 # 2)) b
     = (false, mk 0 CIRCUIT_BREAKER_FAILURES CIRCUIT_BREAKER_TIMEOUT_SEC None).
Proof.
  intros clock b.
  assert (Hthr : (0 < CIRCUIT_BREAKER_FAILURES)%nat) by (unfold CIRCUIT_BREAKER_FAILURES; lia).
  assert (Hclock : forall k, ~ clock k == 0).
  { intros k. unfold clock. intros H.
    assert (0 <= inject_Z (Z.of_nat k)).
    { change 0 with (inject_Z 0). rewrite <- Zle_Qle. lia. }
    lra. }
  destruct (breaker_contract CIRCUIT_BREAKER_FAILURES CIRCUIT_BREAKER_TIMEOUT_SEC
              clock Hthr Hclock) as (_ & Hin & Hout & _).
  split.
  - apply Hin. vm_compute. discriminate.
  - apply Hout. vm_compute. reflexivity.
Defined.

End CircuitBreakerFacts.

(* ================================================================== *)
(** * Properties of the strike selection *)
(* ================================================================== *)

Module StrikeFacts.

Local Open Scope Z_scope.

(** [m] is a strike of the 100-point grid. *)
Definition on_grid (m : Z) : Prop := exists j, m = j * 100.

Lemma floordiv_le spot : (inject_Z (py_floordiv spot 100 * 100) <= spot)%Q.
Proof.
  unfold py_floordiv.
  pose proof (Qfloor_le (spot / 100)) as H.
  rewrite inject_Z_mult.
  assert (E : (spot == spot / 100 * 100)%Q) by (field; discriminate).
  rewrite E at 2. apply Qmult_le_compat_r; [ exact H | discriminate ].
Qed.

Lemma floordiv_greatest spot j :
  (inject_Z (j * 100) <= spot)%Q -> j <= py_floordiv spot 100.
Proof.
  intros H. unfold py_floordiv.
  rewrite <- (Qfloor_Z j). apply Qfloor_resp_le.
  rewrite inject_Z_mult in H.
  apply Qle_shift_div_l; [ reflexivity | exact H ].
Qed.

(** For a call the function answers the greatest grid strike that does
    not exceed the spot. *)
Lemma itm_call_is_floor spot :
  let k := calculate_itm_strike spot CALL in
  on_grid k /\ (inject_Z k <= spot)%Q
  /\ forall m, on_grid m -> (inject_Z m <= spot)%Q -> m <= k.
Proof.
  simpl. split; [ eexists; reflexivity | ].
  split; [ apply floordiv_le | ].
  intros m (j & ->) Hle. apply floordiv_greatest in Hle. lia.
Qed.

Lemma floordiv_integer (n : Z) :
  py_floordiv (inject_Z n + 99) 100 = (n + 99) / 100.
Proof.
  unfold py_floordiv, Qfloor, Qdiv, Qmult, Qplus, Qinv, inject_Z. simpl.
  rewrite !Z.mul_1_r. reflexivity.
Qed.

(** For a put and an integral spot (below [2 ^ 53]) the function answers
    the least grid strike that is not below the spot. *)
Lemma itm_put_is_ceil_on_integers (n : Z) :
  Z.abs (n + 99) < 2 ^ 53 ->
  let k := calculate_itm_strike (inject_Z n) PUT in
  on_grid k /\ n <= k /\ forall m, on_grid m -> n <= m -> k <= m.
Proof.
  intros Hn. cbv zeta. cbn [calculate_itm_strike].
  assert (E : (Double.add (inject_Z n) 99 == inject_Z n + 99)%Q).
  { unfold Double.add. change 99%Q with (inject_Z 99).
    rewrite <- inject_Z_plus. apply DoubleFacts.rd_int. exact Hn. }
  unfold py_floordiv at 1 2 3. rewrite (Qfloor_comp _ _ (Qdiv_comp _ _ E _ _ (Qeq_refl _))).
  fold (py_floordiv (inject_Z n + 99) 100). rewrite floordiv_integer.
  split; [ eexists; reflexivity | ].
  split; [ Z.div_mod_to_equations; lia | ].
  intros m (j & ->) Hle. Z.div_mod_to_equations. lia.
Qed.

(** ** C4 *)

(** C4, at the spot 18500.5 and the direction PUT: the function answers
    18500, a strike below the spot, while the least strike of the
    100-point grid that is not below the spot is 18600. *)
Theorem itm_put_strike_below_spot :
  calculate_itm_strike (37001 # 2) PUT = 18500
  /\ (inject_Z 18500 < 37001 # 2)%Q
  /\ (on_grid 18600 /\ (37001 # 2 <= inject_Z 18600)%Q
      /\ forall m, on_grid m -> (37001 # 2 <= inject_Z m)%Q -> 18600 <= m).
Proof.
  split; [ vm_compute; reflexivity | ].
  split; [ reflexivity | ].
  split; [ exists 186; reflexivity | ].
  split; [ discriminate | ].
  intros m (j & ->) Hle.
  unfold Qle, inject_Z in Hle. simpl in Hle. lia.
Qed.

End StrikeFacts.

(* ================================================================== *)
(** * Properties of the pivot computation *)
(* ================================================================== *)

Module PivotFacts.

Local Open Scope Z_scope.

Definition date_le (a b : RawCandle) : Prop := candle_date a <= candle_date b.

Lemma insert_by_date_In c l x :
  In x (insert_by_date c l) <-> x = c \/ In x l.
Proof.
  induction l as [ | y l IH ]; simpl.
  - intuition congruence.
  - destruct (candle_date c <? candle_date y); simpl; [ intuition congruence | ].
    rewrite IH. intuition congruence.
Qed.

Lemma sort_by_date_In l x : In x (sort_by_date l) <-> In x l.
Proof.
  unfold sort_by_date. rewrite (in_rev l x).
  induction (rev l) as [ | y r IH ]; simpl; [ reflexivity | ].
  rewrite insert_by_date_In, IH. intuition congruence.
Qed.

(** Every candle is dated no later than the ones after it. *)
Fixpoint ascending (l : list RawCandle) : Prop :=
  match l with
  | [] => True
  | x :: l' => (forall y, In y l' -> date_le x y) /\ ascending l'
  end.

Lemma insert_by_date_ascending c l :
  ascending l -> ascending (insert_by_date c l).
Proof.
  induction l as [ | y l IH ]; simpl; intros Hasc.
  - split; [ intros ? [] | exact I ].
  - destruct Hasc as (Hy & Hl).
    destruct (candle_date c <? candle_date y) eqn:E; simpl.
    + apply Z.ltb_lt in E. split; [ | split; assumption ].
      intros z [ <- | Hz ]; unfold date_le in *; [ lia | ].
      specialize (Hy z Hz). lia.
    + apply Z.ltb_ge in E. split; [ | apply IH; exact Hl ].
      intros z Hz. apply insert_by_date_In in Hz.
      destruct Hz as [ -> | Hz ]; [ exact E | apply Hy; exact Hz ].
Qed.

Lemma sort_by_date_ascending l : ascending (sort_by_date l).
Proof.
  unfold sort_by_date. induction (rev l) as [ | y r IH ]; simpl; [ exact I | ].
  apply insert_by_date_ascending. exact IH.
Qed.

Lemma iloc_last_app l x : iloc_last (l ++ [x]) = Some x.
Proof. unfold iloc_last. rewrite rev_app_distr. reflexivity. Qed.

Lemma iloc_last_ascending l :
  ascending l -> l <> [] ->
  exists c, iloc_last l = Some c /\ In c l /\ forall x, In x l -> date_le x c.
Proof.
  induction l as [ | a l IH ]; intros Hasc Hne; [ congruence | ].
  destruct Hasc as (Ha & Hl).
  destruct l as [ | b l ].
  - exists a. split; [ reflexivity | ]. split; [ left; reflexivity | ].
    intros x [ <- | [] ]. unfold date_le. lia.
  - destruct (IH Hl) as (c & Hlast & Hin & Hmax); [ discriminate | ].
    exists c. split; [ | split; [ right; exact Hin | ] ].
    + unfold iloc_last in *. simpl in *.
      destruct (rev l ++ [b])%list as [ | y r ] eqn:E; [ discriminate | ].
      simpl. exact Hlast.
    + intros x [ <- | Hx ]; [ apply Ha; exact Hin | apply Hmax; exact Hx ].
Qed.

(** What [pivot_of_candles] answers, by cases on the candles dated
    before [today]. *)
Lemma pivot_of_candles_spec today candles :
  ((forall c, In c candles -> today <= candle_date c) ->
     pivot_of_candles today candles = None)
  /\ ((exists c, In c candles /\ candle_date c < today) ->
      exists prev,
        In prev candles /\ candle_date prev < today
        /\ (forall c, In c candles -> candle_date c < today ->
              candle_date c <= candle_date prev)
        /\ pivot_of_candles today candles = Some (pivot_formula prev)).
Proof.
  unfold pivot_of_candles.
  set (completed := filter (fun c => candle_date c <? today) candles).
  assert (Hfilter : forall c, In c completed <-> In c candles /\ candle_date c < today).
  { intros c. unfold completed. rewrite filter_In, Z.ltb_lt. reflexivity. }
  split.
  - intros Hnone. destruct candles as [ | c0 cs ]; [ reflexivity | ].
    destruct completed as [ | c l ] eqn:E; [ reflexivity | ].
    exfalso. destruct (proj1 (Hfilter c) (or_introl eq_refl)) as (Hin & Hlt).
    specialize (Hnone c Hin). lia.
  - intros (c & Hin & Hlt).
    destruct candles as [ | c0 cs ]; [ destruct Hin | ].
    assert (Hc : In c completed) by (apply Hfilter; auto).
    destruct completed as [ | c1 l ] eqn:E; [ destruct Hc | ].
    destruct (iloc_last_ascending (sort_by_date (c1 :: l))
                (sort_by_date_ascending (c1 :: l))) as (prev & Hlast & Hprev & Hmax).
    { intros Hnil. apply (proj2 (sort_by_date_In (c1 :: l) c)) in Hc.
      rewrite Hnil in Hc. destruct Hc. }
    rewrite Hlast. apply (proj1 (sort_by_date_In _ _)) in Hprev.
    destruct (proj1 (Hfilter prev) Hprev) as (Hp1 & Hp2).
    exists prev. split; [ exact Hp1 | ]. split; [ exact Hp2 | ].
    split; [ | reflexivity ].
    intros x Hx Hxlt. apply Hmax. apply (proj2 (sort_by_date_In _ _)).
    apply Hfilter. auto.
Qed.

End PivotFacts.

(* ================================================================== *)
(** * Reasoning about runs *)
(* ================================================================== *)

Local Open Scope monad_scope.

Lemma bind_ok {A B} (c : M A) (k : A -> M B) w a w' :
  c w = Ok a w' -> bind c k w = k a w'.
Proof. intros H. unfold bind. rewrite H. reflexivity. Qed.

Lemma bind_raised {A B} (c : M A) (k : A -> M B) w e w' :
  c w = Raised e w' -> bind c k w = Raised e w'.
Proof. intros H. unfold bind. rewrite H. reflexivity. Qed.

(** Unfolds the monad's plumbing and the field updates, and nothing of
    the arithmetic. *)
Ltac msimpl :=
  cbn [bind ret gets modify raise do sleep modify_sess modify_dash
       set_sess set_dash set_breaker breaker emit tick_ltp tick_candles tick_clock
       sess spot_price_breaker option_price_breaker dash ltp_calls candle_calls
       clock_reads trace journal journal_calls tick_journal write_journal world_of
       set_executed_trades_count set_current_position set_last_trading_date
       set_daily_pivot_point set_daily_bias set_bias_lock set_last_heartbeat_timestamp
       executed_trades_count current_position last_trading_date daily_pivot_point
       daily_bias bias_lock_date bias_candle_data last_heartbeat_timestamp
       status current_trade events fst snd].

Ltac msimpl_in H :=
  cbn [bind ret gets modify raise do sleep modify_sess modify_dash
       set_sess set_dash set_breaker breaker emit tick_ltp tick_candles tick_clock
       sess spot_price_breaker option_price_breaker dash ltp_calls candle_calls
       clock_reads trace journal journal_calls tick_journal write_journal world_of
       set_executed_trades_count set_current_position set_last_trading_date
       set_daily_pivot_point set_daily_bias set_bias_lock set_last_heartbeat_timestamp
       executed_trades_count current_position last_trading_date daily_pivot_point
       daily_bias bias_lock_date bias_candle_data last_heartbeat_timestamp
       status current_trade events fst snd] in H.

(** Orders placed and not yet closed, read off the trace. *)
Definition order_delta (e : Effect) : Z :=
  match e with
  | PaperBuy _ _ _ => 1
  | PaperSell _ _ _ _ => -1
  | _ => 0
  end%Z.

Fixpoint open_orders (tr : list Effect) : Z :=
  match tr with
  | [] => 0
  | e :: tr' => order_delta e + open_orders tr'
  end%Z.

Lemma open_orders_app tr1 tr2 :
  open_orders (tr1 ++ tr2) = (open_orders tr1 + open_orders tr2)%Z.
Proof. induction tr1 as [ | e tr IH ]; simpl; [ reflexivity | rewrite IH; lia ]. Qed.

(** An effect that is neither a buy nor a sell. *)
Definition is_io (e : Effect) : Prop := order_delta e = 0%Z.

Lemma open_orders_io tr : Forall is_io tr -> open_orders tr = 0%Z.
Proof.
  induction 1 as [ | e tr He _ IH ]; simpl; [ reflexivity | ].
  unfold is_io in He. lia.
Qed.

(** [w'] differs from [w] in nothing but the breakers, the stubs'
    counters and a stretch [tr] of effects that are not orders. *)
Definition io_only (w w' : World) : Prop :=
  sess w' = sess w /\ dash w' = dash w
  /\ exists tr, trace w' = (trace w ++ tr)%list /\ Forall is_io tr.

Lemma io_only_refl w : io_only w w.
Proof.
  split; [ reflexivity | split; [ reflexivity | ] ].
  exists []. rewrite app_nil_r. auto.
Qed.

Lemma io_only_trans w1 w2 w3 : io_only w1 w2 -> io_only w2 w3 -> io_only w1 w3.
Proof.
  intros (Hs1 & Hd1 & tr1 & Ht1 & Hf1) (Hs2 & Hd2 & tr2 & Ht2 & Hf2).
  split; [ congruence | split; [ congruence | ] ].
  exists (tr1 ++ tr2)%list. split.
  - rewrite Ht2, Ht1, app_assoc. reflexivity.
  - apply Forall_app. auto.
Qed.


(** The positions the orders have left open: a buy opens one, a sale
    closes one if one is open. *)
Definition order_step (n : nat) (e : Effect) : nat :=
  match e with
  | PaperBuy _ _ _ => S n
  | PaperSell _ _ _ _ => pred n
  | _ => n
  end.

Definition open_positions (tr : list Effect) : nat := fold_left order_step tr 0%nat.

Lemma open_positions_app tr1 tr2 :
  open_positions (tr1 ++ tr2) = fold_left order_step tr2 (open_positions tr1).
Proof. apply fold_left_app. Qed.

Lemma order_step_io tr : Forall is_io tr -> forall n, fold_left order_step tr n = n.
Proof.
  induction 1 as [ | e tr He _ IH ]; intros n; simpl; [ reflexivity | ].
  rewrite IH. destruct e; try reflexivity; discriminate He.
Qed.

Lemma open_positions_io tr1 tr2 :
  Forall is_io tr2 -> open_positions (tr1 ++ tr2) = open_positions tr1.
Proof. intros H. rewrite open_positions_app. apply order_step_io. exact H. Qed.

Lemma open_positions_order tr1 tr2 e :
  Forall is_io tr2 ->
  open_positions (tr1 ++ tr2 ++ [e]) = order_step (open_positions tr1) e.
Proof.
  intros H. rewrite app_assoc, open_positions_app. simpl.
  rewrite (open_positions_io _ _ H). reflexivity.
Qed.

Lemma io_only_open_positions w w' :
  io_only w w' -> open_positions (trace w') = open_positions (trace w).
Proof. intros (_ & _ & tr & Ht & Hf). rewrite Ht. apply open_positions_io. exact Hf. Qed.

Section FetchFacts.

Variable groww : Groww.
Variable id : BreakerId.
Variables lo hi : Q.
Variables segment symbol : string.

Definition in_range (p : Q) : bool := Qle_bool lo p && Qle_bool p hi.

Lemma in_range_iff p : in_range p = true <-> lo <= p /\ p <= hi.
Proof. unfold in_range. rewrite andb_true_iff, !Qle_bool_iff. reflexivity. Qed.

(** An answer the fetch accepts: a number, and within the range. *)
Definition usable (answer : option Q) : bool :=
  match answer with
  | Some p => in_range p
  | None => false
  end.

(** The answer to the [j]-th request counted from the world [w]. *)
Definition answer_from (w : World) (j : nat) : option Q :=
  get_ltp groww (ltp_calls w + j) segment symbol.

(** [k] rounds of a request followed by the retry delay. *)
Fixpoint retry_trace (k : nat) : list Effect :=
  match k with
  | O => []
  | S k' => CallLtp segment symbol :: Sleep RETRY_DELAY_SEC :: retry_trace k'
  end.

Lemma breaker_record_success_run w :
  exists w', breaker_record_success id w = Ok tt w'
    /\ breaker id w' = CircuitBreaker.record_success (breaker id w)
    /\ trace w' = (trace w ++ [RecordSuccess id])%list
    /\ sess w' = sess w /\ dash w' = dash w /\ ltp_calls w' = ltp_calls w
    /\ candle_calls w' = candle_calls w /\ clock_reads w' = clock_reads w.
Proof.
  unfold breaker_record_success. msimpl. eexists. split; [ reflexivity | ].
  destruct id; msimpl; repeat split; reflexivity.
Qed.

Lemma breaker_record_failure_run w :
  exists w', breaker_record_failure groww id w = Ok tt w'
    /\ breaker id w'
       = CircuitBreaker.record_failure (time_time groww (clock_reads w)) (breaker id w)
    /\ trace w' = (trace w ++ [RecordFailure id])%list
    /\ sess w' = sess w /\ dash w' = dash w /\ ltp_calls w' = ltp_calls w
    /\ candle_calls w' = candle_calls w.
Proof.
  unfold breaker_record_failure, read_clock. msimpl.
  unfold CircuitBreaker.record_failure.
  destruct (CircuitBreaker.threshold _ <=? _)%nat eqn:E; msimpl;
    (eexists; split; [ reflexivity | ]);
    destruct id; msimpl; msimpl_in E; rewrite ?E; repeat split; reflexivity.
Qed.


(** What a fetch leaves alone. *)
Definition fetch_frame (w w' : World) : Prop :=
  sess w' = sess w /\ dash w' = dash w /\ candle_calls w' = candle_calls w
  /\ forall other, other <> id -> breaker other w' = breaker other w.

Lemma fetch_frame_refl w : fetch_frame w w.
Proof. repeat split; auto. Qed.

Lemma fetch_frame_trans w1 w2 w3 :
  fetch_frame w1 w2 -> fetch_frame w2 w3 -> fetch_frame w1 w3.
Proof.
  intros (Hs1 & Hd1 & Hc1 & Hb1) (Hs2 & Hd2 & Hc2 & Hb2).
  repeat split; try congruence.
  intros other Hne. rewrite Hb2, Hb1; auto.
Qed.

Lemma set_breaker_other b w other :
  other <> id -> breaker other (set_breaker id b w) = breaker other w.
Proof. destruct id, other; intros H; try congruence; reflexivity. Qed.

Lemma call_ltp_run w :
  call_ltp groww segment symbol w
  = Ok (answer_from w 0) (emit (CallLtp segment symbol) (tick_ltp w)).
Proof. unfold call_ltp, answer_from. msimpl. rewrite Nat.add_0_r. reflexivity. Qed.

Lemma answer_from_next w e j :
  answer_from (emit e (emit (CallLtp segment symbol) (tick_ltp w))) j
  = answer_from w (S j).
Proof. unfold answer_from. msimpl. f_equal. lia. Qed.

(** One unusable answer with attempts left: the delay, then the rest of
    the loop. *)
Lemma fetch_attempts_retry n w :
  usable (answer_from w 0) = false ->
  fetch_attempts groww id lo hi segment symbol (S (S n)) w
  = fetch_attempts groww id lo hi segment symbol (S n)
      (emit (Sleep RETRY_DELAY_SEC) (emit (CallLtp segment symbol) (tick_ltp w))).
Proof.
  intros Hbad. cbn [fetch_attempts]. rewrite (bind_ok _ _ _ _ _ (call_ltp_run w)).
  destruct (answer_from w 0) as [ q | ]; simpl in Hbad.
  - fold (in_range q). rewrite Hbad. reflexivity.
  - reflexivity.
Qed.

(** The last attempt answers nothing usable: one recorded failure. *)
Lemma fetch_attempts_last_fails w :
  usable (answer_from w 0) = false ->
  exists w',
    fetch_attempts groww id lo hi segment symbol 1 w = Ok None w'
    /\ ltp_calls w' = S (ltp_calls w)
    /\ trace w' = (trace w ++ [CallLtp segment symbol; RecordFailure id])%list
    /\ breaker id w'
       = CircuitBreaker.record_failure (time_time groww (clock_reads w)) (breaker id w)
    /\ fetch_frame w w'.
Proof.
  intros Hbad. cbn [fetch_attempts]. rewrite (bind_ok _ _ _ _ _ (call_ltp_run w)).
  set (w1 := emit (CallLtp segment symbol) (tick_ltp w)).
  destruct (breaker_record_failure_run w1)
    as (w' & Hrun & Hb & Ht & Hs & Hd & Hl & Hc).
  assert (Hother : forall other, other <> id -> breaker other w' = breaker other w).
  { intros other Hne. revert Hrun. unfold breaker_record_failure, read_clock. msimpl.
    destruct (CircuitBreaker.threshold _ <=? _)%nat; msimpl;
      intros Hrun; inversion Hrun; subst w'; rewrite set_breaker_other by exact Hne;
      destruct other; reflexivity. }
  exists w'. split.
  - destruct (answer_from w 0) as [ q | ]; simpl in Hbad.
    + fold (in_range q). rewrite Hbad. cbn [negb].
      rewrite (bind_ok _ _ _ _ _ Hrun). reflexivity.
    + rewrite (bind_ok _ _ _ _ _ Hrun). reflexivity.
  - split; [ rewrite Hl; reflexivity | ].
    split; [ rewrite Ht; subst w1; msimpl; rewrite <- app_assoc; reflexivity | ].
    split; [ rewrite Hb; subst w1; destruct id; reflexivity | ].
    repeat split; [ rewrite Hs | rewrite Hd | rewrite Hc | exact Hother ]; reflexivity.
Qed.

(** A usable answer: one recorded success, and the answer returned. *)
Lemma fetch_attempts_accepts n w p :
  answer_from w 0 = Some p -> in_range p = true ->
  exists w',
    fetch_attempts groww id lo hi segment symbol (S n) w = Ok (Some p) w'
    /\ ltp_calls w' = S (ltp_calls w)
    /\ trace w' = (trace w ++ [CallLtp segment symbol; RecordSuccess id])%list
    /\ breaker id w' = CircuitBreaker.record_success (breaker id w)
    /\ clock_reads w' = clock_reads w
    /\ fetch_frame w w'.
Proof.
  intros Hans Hin. cbn [fetch_attempts]. rewrite (bind_ok _ _ _ _ _ (call_ltp_run w)).
  rewrite Hans. fold (in_range p). rewrite Hin. cbn [negb].
  set (w1 := emit (CallLtp segment symbol) (tick_ltp w)).
  destruct (breaker_record_success_run w1)
    as (w' & Hrun & Hb & Ht & Hs & Hd & Hl & Hc & Hk).
  assert (Hother : forall other, other <> id -> breaker other w' = breaker other w).
  { intros other Hne. revert Hrun. unfold breaker_record_success. msimpl.
    intros Hrun; inversion Hrun; subst w'. rewrite set_breaker_other by exact Hne.
    destruct other; reflexivity. }
  exists w'. rewrite (bind_ok _ _ _ _ _ Hrun).
  split; [ reflexivity | ].
  split; [ rewrite Hl; reflexivity | ].
  split; [ rewrite Ht; subst w1; msimpl; rewrite <- app_assoc; reflexivity | ].
  split; [ rewrite Hb; subst w1; destruct id; reflexivity | ].
  split; [ rewrite Hk; reflexivity | ].
  repeat split; [ rewrite Hs | rewrite Hd | rewrite Hc | exact Hother ]; reflexivity.
Qed.


Lemma retry_world_facts w :
  let w1 := emit (Sleep RETRY_DELAY_SEC) (emit (CallLtp segment symbol) (tick_ltp w)) in
  ltp_calls w1 = S (ltp_calls w)
  /\ trace w1 = (trace w ++ [CallLtp segment symbol; Sleep RETRY_DELAY_SEC])%list
  /\ breaker id w1 = breaker id w
  /\ clock_reads w1 = clock_reads w
  /\ fetch_frame w w1.
Proof.
  msimpl. split; [ reflexivity | ].
  split; [ rewrite <- app_assoc; reflexivity | ].
  split; [ destruct id; reflexivity | ].
  split; [ reflexivity | ].
  repeat split.
Qed.

(** The loop stops at the first usable answer. *)
Lemma fetch_attempts_first_usable k :
  forall n w p,
    (k < n)%nat ->
    (forall j, (j < k)%nat -> usable (answer_from w j) = false) ->
    answer_from w k = Some p -> in_range p = true ->
    exists w',
      fetch_attempts groww id lo hi segment symbol n w = Ok (Some p) w'
      /\ ltp_calls w' = (ltp_calls w + S k)%nat
      /\ trace w'
         = (trace w ++ retry_trace k ++ [CallLtp segment symbol; RecordSuccess id])%list
      /\ breaker id w' = CircuitBreaker.record_success (breaker id w)
      /\ clock_reads w' = clock_reads w
      /\ fetch_frame w w'.
Proof.
  induction k as [ | k IH ]; intros n w p Hlt Hbad Hans Hin.
  - destruct n as [ | n ]; [ lia | ].
    destruct (fetch_attempts_accepts n w p Hans Hin)
      as (w' & Hrun & Hl & Ht & Hb & Hk & Hf).
    exists w'. split; [ exact Hrun | ].
    split; [ rewrite Hl; lia | ]. auto.
  - destruct n as [ | [ | n ] ]; try lia.
    rewrite fetch_attempts_retry by (apply Hbad; lia).
    destruct (retry_world_facts w) as (Hl1 & Ht1 & Hb1 & Hk1 & Hf1).
    set (w1 := emit (Sleep RETRY_DELAY_SEC) (emit (CallLtp segment symbol) (tick_ltp w))) in *.
    destruct (IH (S n) w1 p) as (w' & Hrun & Hl & Ht & Hb & Hk & Hf).
    + lia.
    + intros j Hj. unfold w1. rewrite answer_from_next. apply Hbad. lia.
    + unfold w1. rewrite answer_from_next. exact Hans.
    + exact Hin.
    + exists w'. split; [ exact Hrun | ].
      split; [ rewrite Hl, Hl1; lia | ].
      split; [ rewrite Ht, Ht1, <- app_assoc; reflexivity | ].
      split; [ rewrite Hb, Hb1; reflexivity | ].
      split; [ rewrite Hk, Hk1; reflexivity | ].
      exact (fetch_frame_trans _ _ _ Hf1 Hf).
Qed.

(** With no usable answer in [n + 1] attempts the loop records one
    failure after the last of them. *)
Lemma fetch_attempts_none_usable n :
  forall w,
    (forall j, (j < S n)%nat -> usable (answer_from w j) = false) ->
    exists w',
      fetch_attempts groww id lo hi segment symbol (S n) w = Ok None w'
      /\ ltp_calls w' = (ltp_calls w + S n)%nat
      /\ trace w'
         = (trace w ++ retry_trace n ++ [CallLtp segment symbol; RecordFailure id])%list
      /\ breaker id w'
         = CircuitBreaker.record_failure (time_time groww (clock_reads w)) (breaker id w)
      /\ fetch_frame w w'.
Proof.
  induction n as [ | n IH ]; intros w Hbad.
  - destruct (fetch_attempts_last_fails w (Hbad 0%nat (Nat.lt_0_succ _)))
      as (w' & Hrun & Hl & Ht & Hb & Hf).
    exists w'. split; [ exact Hrun | ]. split; [ rewrite Hl; lia | ]. auto.
  - rewrite fetch_attempts_retry by (apply Hbad; lia).
    destruct (retry_world_facts w) as (Hl1 & Ht1 & Hb1 & Hk1 & Hf1).
    set (w1 := emit (Sleep RETRY_DELAY_SEC) (emit (CallLtp segment symbol) (tick_ltp w))) in *.
    destruct (IH w1) as (w' & Hrun & Hl & Ht & Hb & Hf).
    + intros j Hj. unfold w1. rewrite answer_from_next. apply Hbad. lia.
    + exists w'. split; [ exact Hrun | ].
      split; [ rewrite Hl, Hl1; lia | ].
      split; [ rewrite Ht, Ht1, <- app_assoc; reflexivity | ].
      split; [ rewrite Hb, Hb1, Hk1; reflexivity | ].
      exact (fetch_frame_trans _ _ _ Hf1 Hf).
Qed.

(** Among the next [n] answers either one is the first usable, or none
    is usable. *)
Lemma usable_scan n w :
  (exists k p, (k < n)%nat
     /\ (forall j, (j < k)%nat -> usable (answer_from w j) = false)
     /\ answer_from w k = Some p /\ in_range p = true)
  \/ (forall j, (j < n)%nat -> usable (answer_from w j) = false).
Proof.
  induction n as [ | n IH ].
  - right. intros j Hj. lia.
  - destruct IH as [ (k & p & Hk & Hbad & Hans & Hin) | Hnone ].
    + left. exists k, p. repeat split; auto.
    + destruct (usable (answer_from w n)) eqn:E.
      * left. destruct (answer_from w n) as [ p | ] eqn:Hans; [ | discriminate ].
        exists n, p. repeat split; auto.
      * right. intros j Hj. destruct (Nat.eq_dec j n) as [ -> | Hne ]; [ exact E | ].
        apply Hnone. lia.
Qed.

Lemma retry_trace_io k : Forall is_io (retry_trace k).
Proof. induction k; simpl; repeat constructor; auto. Qed.

Lemma frame_io_only w w' tr :
  fetch_frame w w' -> trace w' = (trace w ++ tr)%list -> Forall is_io tr ->
  io_only w w'.
Proof.
  intros (Hs & Hd & _) Ht Hio. split; [ exact Hs | split; [ exact Hd | ] ].
  exists tr. auto.
Qed.

(** The loop always returns: it raises nothing, places no order, leaves
    the session alone, and what it returns is within the range. *)
Lemma fetch_attempts_total n w :
  exists r w',
    fetch_attempts groww id lo hi segment symbol n w = Ok r w'
    /\ io_only w w' /\ fetch_frame w w'
    /\ forall p, r = Some p -> in_range p = true.
Proof.
  destruct n as [ | n ].
  - exists None, w. split; [ reflexivity | ].
    split; [ apply io_only_refl | ]. split; [ apply fetch_frame_refl | discriminate ].
  - destruct (usable_scan (S n) w) as [ (k & p & Hk & Hbad & Hans & Hin) | Hnone ].
    + destruct (fetch_attempts_first_usable k (S n) w p Hk Hbad Hans Hin)
        as (w' & Hrun & _ & Ht & _ & _ & Hf).
      exists (Some p), w'. split; [ exact Hrun | ].
      split; [ | split; [ exact Hf | intros q Hq; inversion Hq; subst; exact Hin ] ].
      apply (frame_io_only _ _ _ Hf Ht).
      apply Forall_app. split; [ apply retry_trace_io | repeat constructor ].
    + destruct (fetch_attempts_none_usable n w Hnone) as (w' & Hrun & _ & Ht & _ & Hf).
      exists None, w'. split; [ exact Hrun | ].
      split; [ | split; [ exact Hf | discriminate ] ].
      apply (frame_io_only _ _ _ Hf Ht).
      apply Forall_app. split; [ apply retry_trace_io | repeat constructor ].
Qed.

(** [is_open] on the global breaker: the method's answer at the clock's
    next reading, and no request. *)
Lemma breaker_is_open_run w :
  exists r w',
    breaker_is_open groww id w = Ok r w'
    /\ (r, breaker id w')
       = CircuitBreaker.is_open (time_time groww (clock_reads w)) (breaker id w)
    /\ trace w' = trace w /\ ltp_calls w' = ltp_calls w
    /\ fetch_frame w w'.
Proof.
  unfold breaker_is_open, read_clock. msimpl.
  destruct (truthy (CircuitBreaker.opened_at (breaker id w))) eqn:E; msimpl.
  - eexists. eexists. split; [ reflexivity | ].
    split; [ destruct id; msimpl; rewrite <- surjective_pairing; reflexivity | ].
    split; [ destruct id; reflexivity | ].
    split; [ destruct id; reflexivity | ].
    split; [ destruct id; reflexivity | ].
    split; [ destruct id; reflexivity | ].
    split; [ destruct id; reflexivity | ].
    intros other Hne. rewrite set_breaker_other by exact Hne.
    destruct other; reflexivity.
  - exists false, w. split; [ reflexivity | ].
    split; [ unfold CircuitBreaker.is_open; rewrite E; reflexivity | ].
    split; [ reflexivity | ]. split; [ reflexivity | ]. apply fetch_frame_refl.
Qed.

(** A fetch always returns; see [fetch_attempts_total]. *)
Lemma fetch_price_total w :
  exists r w',
    fetch_price groww id lo hi segment symbol w = Ok r w'
    /\ io_only w w' /\ fetch_frame w w'
    /\ forall p, r = Some p -> in_range p = true.
Proof.
  unfold fetch_price.
  destruct (breaker_is_open_run w) as (r0 & w0 & Hrun0 & _ & Ht0 & _ & Hf0).
  rewrite (bind_ok _ _ _ _ _ Hrun0).
  assert (Hio0 : io_only w w0).
  { apply (frame_io_only _ _ [] Hf0); [ rewrite app_nil_r; exact Ht0 | constructor ]. }
  destruct r0.
  - exists None, w0. repeat split; try apply Hio0; try apply Hf0. discriminate.
  - destruct (fetch_attempts_total MAX_RETRIES w0) as (r & w' & Hrun & Hio & Hf & Hr).
    exists r, w'. split; [ exact Hrun | ].
    split; [ exact (io_only_trans _ _ _ Hio0 Hio) | ].
    split; [ exact (fetch_frame_trans _ _ _ Hf0 Hf) | exact Hr ].
Qed.


(** The stub whose out-of-range quotes are turned into failed requests. *)
Definition censor (g : Groww) : Groww :=
  mkGroww
    (fun n seg sym =>
       match get_ltp g n seg sym with
       | Some p => if in_range p then Some p else None
       | None => None
       end)
    (get_historical_candle_data g) (time_time g)
    (get_nearest_valid_expiry g) (find_option_instrument g) (journal_writable g).

Lemma fetch_attempts_censor n :
  forall w,
    fetch_attempts (censor groww) id lo hi segment symbol n w
    = fetch_attempts groww id lo hi segment symbol n w.
Proof.
  induction n as [ | n IH ]; intros w; [ reflexivity | ].
  cbn [fetch_attempts]. unfold call_ltp. msimpl. cbn [censor get_ltp].
  destruct (get_ltp groww (ltp_calls w) segment symbol) as [ q | ].
  - fold (in_range q).
    destruct (in_range q) eqn:E; fold (in_range q); rewrite ?E; cbn [negb].
    + reflexivity.
    + destruct n as [ | n ]; [ reflexivity | ]. msimpl. apply IH.
  - destruct n as [ | n ]; [ reflexivity | ]. msimpl. apply IH.
Qed.

Lemma fetch_price_censor w :
  fetch_price (censor groww) id lo hi segment symbol w
  = fetch_price groww id lo hi segment symbol w.
Proof.
  unfold fetch_price, bind.
  change (breaker_is_open (censor groww) id w) with (breaker_is_open groww id w).
  destruct (breaker_is_open groww id w) as [ [ | ] w0 | e w0 ]; try reflexivity.
  apply fetch_attempts_censor.
Qed.

(** The contract of a resilient fetch [fetch] guarded by the breaker
    [id], requesting the quote [segment], [symbol] and accepting the
    range [lo .. hi]; [fetch] is given the collaborators it runs against. *)
Definition resilient_fetch_contract (fetch : Groww -> M (option Q)) : Prop :=
  forall w,
    let opening := CircuitBreaker.is_open (time_time groww (clock_reads w)) (breaker id w) in
    (* an open breaker: Unavailable, and no request made *)
    (fst opening = true ->
       exists w', fetch groww w = Ok None w'
         /\ ltp_calls w' = ltp_calls w /\ trace w' = trace w
         /\ breaker id w' = snd opening)
    (* k unusable answers, then a usable one: returned at once, one success *)
    /\ (fst opening = false ->
        forall k p,
          (k < MAX_RETRIES)%nat ->
          (forall j, (j < k)%nat -> usable (answer_from w j) = false) ->
          answer_from w k = Some p -> lo <= p <= hi ->
          exists w', fetch groww w = Ok (Some p) w'
            /\ ltp_calls w' = (ltp_calls w + k + 1)%nat
            /\ trace w'
               = (trace w ++ retry_trace k
                    ++ [CallLtp segment symbol; RecordSuccess id])%list
            /\ breaker id w' = CircuitBreaker.record_success (snd opening))
    (* no usable answer in MAX_RETRIES attempts: Unavailable, one failure *)
    /\ (fst opening = false ->
        (forall j, (j < MAX_RETRIES)%nat -> usable (answer_from w j) = false) ->
        exists w', fetch groww w = Ok None w'
          /\ ltp_calls w' = (ltp_calls w + MAX_RETRIES)%nat
          /\ trace w'
             = (trace w ++ retry_trace (MAX_RETRIES - 1)
                  ++ [CallLtp segment symbol; RecordFailure id])%list
          /\ CircuitBreaker.failure_count (breaker id w')
             = S (CircuitBreaker.failure_count (snd opening)))
    (* an out-of-range quote is a failed request *)
    /\ fetch (censor groww) w = fetch groww w.

Lemma record_failure_count now b :
  CircuitBreaker.failure_count (CircuitBreaker.record_failure now b)
  = S (CircuitBreaker.failure_count b).
Proof.
  unfold CircuitBreaker.record_failure.
  destruct (CircuitBreaker.threshold b <=? _)%nat; reflexivity.
Qed.

Lemma fetch_price_contract :
  resilient_fetch_contract (fun g => fetch_price g id lo hi segment symbol).
Proof.
  intros w opening.
  destruct (breaker_is_open_run w) as (r0 & w0 & Hrun0 & Hopen & Ht0 & Hl0 & Hf0).
  fold opening in Hopen.
  assert (Hr0 : fst opening = r0) by (rewrite <- Hopen; reflexivity).
  assert (Hb0 : snd opening = breaker id w0) by (rewrite <- Hopen; reflexivity).
  assert (Hans : forall j, answer_from w0 j = answer_from w j).
  { intros j. unfold answer_from. rewrite Hl0. reflexivity. }
  split; [ | split; [ | split ] ].
  - intros Htrue. exists w0. unfold fetch_price.
    rewrite (bind_ok _ _ _ _ _ Hrun0), <- Hr0, Htrue. auto.
  - intros Hfalse k p Hk Hbad Hp Hin.
    destruct (fetch_attempts_first_usable k MAX_RETRIES w0 p Hk)
      as (w' & Hrun & Hl & Ht & Hb & _ & _).
    { intros j Hj. rewrite Hans. apply Hbad. exact Hj. }
    { rewrite Hans. exact Hp. }
    { apply in_range_iff. exact Hin. }
    exists w'. unfold fetch_price.
    rewrite (bind_ok _ _ _ _ _ Hrun0), <- Hr0, Hfalse.
    split; [ exact Hrun | ].
    split; [ rewrite Hl, Hl0; lia | ].
    split; [ rewrite Ht, Ht0; reflexivity | rewrite Hb, Hb0; reflexivity ].
  - intros Hfalse Hbad.
    destruct (fetch_attempts_none_usable (MAX_RETRIES - 1) w0)
      as (w' & Hrun & Hl & Ht & Hb & _).
    { intros j Hj. rewrite Hans. apply Hbad. exact Hj. }
    exists w'. unfold fetch_price.
    rewrite (bind_ok _ _ _ _ _ Hrun0), <- Hr0, Hfalse.
    split; [ exact Hrun | ].
    split; [ rewrite Hl, Hl0; reflexivity | ].
    split; [ rewrite Ht, Ht0; reflexivity | ].
    rewrite Hb, Hb0. apply record_failure_count.
  - apply fetch_price_censor.
Qed.

End FetchFacts.

(** ** C6 *)

(** C6. [fetch_spot_price] and [fetch_option_price] meet the contract of
    a resilient fetch, each with its own breaker and range: with the
    breaker open they return Unavailable and make no request; with it
    closed, after [k < MAX_RETRIES] unusable answers (a failed request or
    a quote outside the range, each costing one attempt and one retry
    delay) a quote within the range is returned at once, after [k + 1]
    requests and exactly one [record_success]; with no usable answer in
    [MAX_RETRIES] attempts they return Unavailable after exactly one
    [record_failure]; and a quote outside the range has the effect of a
    failed request. *)
Theorem resilient_fetch (groww : Groww) :
  resilient_fetch_contract groww SpotBreaker MIN_SPOT_PRICE MAX_SPOT_PRICE
    "CASH" "NSE_NIFTY" fetch_spot_price
  /\ forall symbol segment,
       resilient_fetch_contract groww OptionBreaker MIN_OPTION_PRICE MAX_OPTION_PRICE
         segment ("NSE_" ++ symbol) (fun g => fetch_option_price g symbol segment).
Proof.
  split; [ | intros symbol segment ]; apply fetch_price_contract.
Qed.

(* ================================================================== *)
(** * Properties of the pivot and of the bias *)
(* ================================================================== *)

Lemma call_candles_run groww interval w :
  call_candles groww interval w
  = Ok (get_historical_candle_data groww (candle_calls w) interval)
       (emit (CallCandles interval) (tick_candles w)).
Proof. reflexivity. Qed.

(** ** C8 *)

(** [round(x, 2)] is the double of a hundredth that lies within half a
    hundredth of [x], and of the even one when [x] is half-way. *)
Lemma py_round2_spec x :
  exists k : Z,
    py_round2 x = Double.rd (k # 100)
    /\ Qabs (x - (k # 100)) <= 1 # 200
    /\ (Qabs (x - (k # 100)) == 1 # 200 -> Z.even k = true).
Proof.
  exists (round_half_even (x * 100)). split; [ reflexivity | ].
  assert (Ek : forall k : Z, k # 100 == inject_Z k / 100) by (intros k; apply Qmake_Qdiv).
  assert (Ed : forall k : Z, x - (k # 100) == (x * 100 - inject_Z k) / 100).
  { intros k. rewrite Ek. field. }
  split.
  - destruct (round_half_even_close (x * 100)) as (H1 & H2).
    rewrite Ed. apply Qabs_Qle_condition. split.
    + apply Qle_shift_div_l; [ reflexivity | lra ].
    + apply Qle_shift_div_r; [ reflexivity | lra ].
  - rewrite Ed. unfold round_half_even.
    pose proof (Qfloor_le (x * 100)) as Hlo.
    set (f := Qfloor (x * 100)) in *.
    destruct (Qcompare (x * 100 - inject_Z f) (1 # 2)) eqn:E.
    + intros _. destruct (Z.even f) eqn:Ef; [ exact Ef | ].
      rewrite Z.even_add, Ef. reflexivity.
    + apply Qlt_alt in E. intros Htie. exfalso.
      assert (Hd : 0 <= (x * 100 - inject_Z f) / 100
                   /\ (x * 100 - inject_Z f) / 100 < 1 # 200).
      { split; [ apply Qle_shift_div_l | apply Qlt_shift_div_r ]; try reflexivity; lra. }
      rewrite Qabs_pos in Htie by apply Hd. lra.
    + apply Qgt_alt in E. intros Htie. exfalso.
      pose proof (Qlt_floor (x * 100)) as Hhi. fold f in Hhi.
      rewrite inject_Z_plus in *. change (inject_Z 1) with 1 in *.
      assert (Hd : - (1 # 200) < (x * 100 - (inject_Z f + 1)) / 100
                   /\ (x * 100 - (inject_Z f + 1)) / 100 <= 0).
      { split; [ apply Qlt_shift_div_l | apply Qle_shift_div_r ]; try reflexivity; lra. }
      rewrite Qabs_neg in Htie by apply Hd. lra.
Qed.

(** C8. When the request for daily candles is answered, the pivot
    computation returns Unavailable if no candle is dated strictly before
    today; otherwise it takes a candle that is dated strictly before
    today and no earlier than any other such candle, and returns the
    pivot of that candle, [round((H + L + C) / 3, 2)] as Python computes
    it: when neither sum overflows, with the two additions and the
    division carried out in doubles, it is the double of a whole number
    of hundredths that lies within half a hundredth of that mean, the
    even one when the mean is half-way between two.  For H = 100,
    L = 90, C = 95 it is 95 exactly. *)
Theorem pivot_from_last_completed_day groww today w candles :
  get_historical_candle_data groww (candle_calls w) 1440 = Some candles ->
  ((forall c, In c candles -> (today <= candle_date c)%Z) ->
     exists w', fetch_and_calculate_pivot groww today w = Ok None w')
  /\ ((exists c, In c candles /\ (candle_date c < today)%Z) ->
      exists prev w',
        In prev candles /\ (candle_date prev < today)%Z
        /\ (forall c, In c candles -> (candle_date c < today)%Z ->
              (candle_date c <= candle_date prev)%Z)
        /\ let sum := Double.add (Double.add (r_high prev) (r_low prev)) (r_close prev) in
           let mean := Double.div sum 3 in
           Double.finite (Double.add (r_high prev) (r_low prev)) = true ->
           Double.finite sum = true ->
           exists k : Z,
             fetch_and_calculate_pivot groww today w = Ok (Some (Double.rd (k # 100))) w'
             /\ pivot_formula prev = Double.rd (k # 100)
             /\ Qabs (mean - (k # 100)) <= 1 # 200
             /\ (Qabs (mean - (k # 100)) == 1 # 200 -> Z.even k = true))
  /\ (forall ts o v, pivot_formula (mkRaw ts o 100 90 95 v) = 95).
Proof.
  intros Hresp.
  assert (Hrun : exists w',
             fetch_and_calculate_pivot groww today w
             = Ok (pivot_of_candles today candles) w').
  { unfold fetch_and_calculate_pivot, read_clock. msimpl.
    rewrite (bind_ok _ _ _ _ _ (call_candles_run groww 1440 _)). msimpl.
    rewrite Hresp. eexists. reflexivity. }
  destruct Hrun as (w' & Hrun).
  destruct (PivotFacts.pivot_of_candles_spec today candles) as (Hnone & Hsome).
  split; [ | split ].
  - intros Hall. exists w'. rewrite Hrun, (Hnone Hall). reflexivity.
  - intros Hex. destruct (Hsome Hex) as (prev & Hin & Hlt & Hmax & Hpivot).
    exists prev, w'. rewrite Hrun, Hpivot.
    split; [ exact Hin | ]. split; [ exact Hlt | ]. split; [ exact Hmax | ].
    intros sum mean _ _. unfold pivot_formula. fold sum. fold mean.
    destruct (py_round2_spec mean) as (k & Hk & Hclose & Htie).
    exists k. rewrite Hk. auto.
  - intros ts o v. vm_compute. reflexivity.
Qed.

(** ** C9 *)

Lemma get_first_5min_candle_run groww w :
  get_first_5min_candle groww w
  = Ok match get_historical_candle_data groww (candle_calls w) 5 with
       | Some (c :: _) => Some (mkCandle (r_open c) (r_high c) (r_low c) (r_close c))
       | _ => None
       end
       (emit (CallCandles 5) (tick_candles w)).
Proof.
  unfold get_first_5min_candle.
  rewrite (bind_ok _ _ _ _ _ (call_candles_run groww 5 w)).
  destruct (get_historical_candle_data groww (candle_calls w) 5) as [ [ | c l ] | ];
    reflexivity.
Qed.

(** C9. With the pivot computed and the clock at or past the end of the
    opening range: an unset bias becomes BULLISH when the opening
    candle closed strictly above the pivot, BEARISH when strictly below,
    NEUTRAL when exactly at it; with no opening candle to be had the
    session is left as it was, bias unset and nothing locked; and a bias
    that is set makes the call do nothing at all. *)
Theorem bias_determination groww today now w pivot :
  daily_pivot_point (sess w) = Some pivot ->
  (BIAS_CANDLE_END <= now)%Z ->
  (daily_bias (sess w) = None ->
   forall c rest,
     get_historical_candle_data groww (candle_calls w) 5 = Some (c :: rest) ->
     exists w', determine_daily_bias groww today now w = Ok tt w'
       /\ (pivot < r_close c -> daily_bias (sess w') = Some BULLISH)
       /\ (r_close c < pivot -> daily_bias (sess w') = Some BEARISH)
       /\ (r_close c == pivot -> daily_bias (sess w') = Some NEUTRAL))
  /\ (daily_bias (sess w) = None ->
      get_historical_candle_data groww (candle_calls w) 5 = None
      \/ get_historical_candle_data groww (candle_calls w) 5 = Some [] ->
      exists w', determine_daily_bias groww today now w = Ok tt w'
        /\ sess w' = sess w /\ daily_bias (sess w') = None
        /\ bias_lock_date (sess w') = bias_lock_date (sess w))
  /\ (forall b, daily_bias (sess w) = Some b ->
        determine_daily_bias groww today now w = Ok tt w).
Proof.
  intros Hpivot Hnow.
  assert (Hlate : (now <? BIAS_CANDLE_END)%Z = false) by (apply Z.ltb_ge; exact Hnow).
  split; [ | split ].
  - intros Hunset c rest Hresp.
    unfold determine_daily_bias. msimpl. rewrite Hunset, Hpivot, Hlate.
    rewrite (bind_ok _ _ _ _ _ (get_first_5min_candle_run groww w)), Hresp.
    cbn [c_close].
    destruct (Qlt_bool pivot (r_close c)) eqn:Eup;
      [ | destruct (Qlt_bool (r_close c) pivot) eqn:Edown ]; msimpl;
      (eexists; split; [ reflexivity | ]); msimpl.
    + apply Qlt_bool_iff in Eup.
      split; [ reflexivity | split; intros H; exfalso; lra ].
    + apply Qlt_bool_false_iff in Eup. apply Qlt_bool_iff in Edown.
      split; [ intros H; exfalso; lra | ].
      split; [ reflexivity | intros H; exfalso; lra ].
    + apply Qlt_bool_false_iff in Eup. apply Qlt_bool_false_iff in Edown.
      split; [ intros H; exfalso; lra | ].
      split; [ intros H; exfalso; lra | reflexivity ].
  - intros Hunset Hresp.
    unfold determine_daily_bias. msimpl. rewrite Hunset, Hpivot, Hlate.
    rewrite (bind_ok _ _ _ _ _ (get_first_5min_candle_run groww w)).
    destruct Hresp as [ -> | -> ]; eexists; (split; [ reflexivity | ]); msimpl; auto.
  - intros b Hset. unfold determine_daily_bias. msimpl. rewrite Hset. reflexivity.
Qed.

(* ================================================================== *)
(** * Session invariants *)
(* ================================================================== *)

(** The direction a bias trades in; NEUTRAL trades in none. *)
Definition direction_of_bias (b : Bias) : option Direction :=
  match b with
  | BULLISH => Some CALL
  | BEARISH => Some PUT
  | NEUTRAL => None
  end.

(** What holds of an open position [p] in the session [s]. *)
Definition position_ok (s : Session) (p : Position) : Prop :=
  (1 <= executed_trades_count s)%nat
  /\ MIN_OPTION_PRICE <= p_entry_price p
  /\ (exists b, daily_bias s = Some b /\ direction_of_bias b = Some (p_direction p))
  /\ daily_pivot_point s <> None
  /\ p_entry_price p <= MAX_OPTION_PRICE
  /\ p_quantity p = (NIFTY_LOT_SIZE * TRADE_LOTS)%Z.

(** The invariant of the globals and of the dashboard's trade. *)
Definition session_inv (w : World) : Prop :=
  (executed_trades_count (sess w) <= MAX_DAILY_TRADES)%nat
  /\ (forall p, current_position (sess w) = Some p -> position_ok (sess w) p)
  /\ (forall t, current_trade (dash w) = Some t -> MIN_OPTION_PRICE <= d_entry_price t).

(** The orders have left no more open than the position the globals
    hold: one at most with a position open, none without. *)
Definition one_position (w : World) : Prop :=
  (open_positions (trace w)
   <= match current_position (sess w) with Some _ => 1 | None => 0 end)%nat.

(** A step that keeps the invariant, keeps the order count in step with
    the position, and stays within the trading date. *)
Definition step_ok (w w' : World) : Prop :=
  session_inv w'
  /\ (one_position w -> one_position w')
  /\ last_trading_date (sess w') = last_trading_date (sess w).


Lemma io_only_step w w' : session_inv w -> io_only w w' -> step_ok w w'.
Proof.
  intros (Hcap & Hpos & Hdash) Hio.
  pose proof (io_only_open_positions _ _ Hio) as Hord.
  destruct Hio as (Hs & Hd & _).
  split; [ | split ].
  - unfold session_inv. rewrite Hs, Hd. auto.
  - unfold one_position. rewrite Hs, Hord. auto.
  - rewrite Hs. reflexivity.
Qed.

(** A write to the dashboard that keeps the entry price of its trade. *)
Definition dash_write (w w' : World) : Prop :=
  exists d, w' = set_dash d w
    /\ forall t', current_trade d = Some t' ->
         exists t, current_trade (dash w) = Some t
                   /\ d_entry_price t' = d_entry_price t.

Lemma dash_write_step w w' : session_inv w -> dash_write w w' -> step_ok w w'.
Proof.
  intros (Hcap & Hpos & Hdash) (d & -> & Hkeep).
  split; [ | split; [ auto | reflexivity ] ].
  split; [ exact Hcap | split; [ exact Hpos | ] ].
  intros t' Ht'. msimpl_in Ht'. destruct (Hkeep t' Ht') as (t & Ht & ->). auto.
Qed.

Lemma add_event_run message w :
  exists w', add_event message w = Ok tt w' /\ dash_write w w'.
Proof.
  eexists. split; [ reflexivity | ]. eexists. split; [ reflexivity | ].
  intros t' Ht'. exists t'. auto.
Qed.

Lemma update_strategy_status_run st w :
  exists w', update_strategy_status st w = Ok tt w' /\ dash_write w w'.
Proof.
  eexists. split; [ reflexivity | ]. eexists. split; [ reflexivity | ].
  intros t' Ht'. exists t'. auto.
Qed.

Lemma min_option_price_nonzero x : MIN_OPTION_PRICE <= x -> Qeq_bool x 0 = false.
Proof.
  unfold MIN_OPTION_PRICE. intros H.
  destruct (Qeq_bool x 0) eqn:E; [ | reflexivity ].
  apply Qeq_bool_iff in E. exfalso. lra.
Qed.

Lemma py_div_run a b w : Qeq_bool b 0 = false -> py_div a b w = Ok (a / b) w.
Proof. intros H. unfold py_div. rewrite H. reflexivity. Qed.

Lemma dash_update_trade_price_run price w :
  session_inv w ->
  exists w', dash_update_trade_price price w = Ok tt w' /\ dash_write w w'
    /\ (forall t, current_trade (dash w) = Some t ->
          last_known_price w' = Some price).
Proof.
  intros (_ & _ & Hdash). unfold dash_update_trade_price. msimpl.
  destruct (current_trade (dash w)) as [ t | ] eqn:Ht.
  - msimpl.
    rewrite (bind_ok _ _ _ _ _
               (py_div_run _ _ _ (min_option_price_nonzero _ (Hdash t eq_refl)))).
    eexists. split; [ reflexivity | ]. split.
    + eexists. split; [ reflexivity | ].
      intros t' Ht'. inversion Ht'; subst. exists t. auto.
    + intros t0 _. reflexivity.
  - exists w. split; [ reflexivity | ]. split; [ | discriminate ].
    exists (dash w). split; [ destruct w; reflexivity | ].
    intros t' Ht'. exists t'. auto.
Qed.



Lemma dash_exit_trade_run exit_price reason w :
  session_inv w ->
  exists d, dash_exit_trade exit_price reason w = Ok tt (set_dash d w)
    /\ current_trade d = None.
Proof.
  intros (_ & _ & Hdash). unfold dash_exit_trade. msimpl.
  destruct (current_trade (dash w)) as [ t | ] eqn:Ht.
  - msimpl.
    rewrite (bind_ok _ _ _ _ _
               (py_div_run _ _ _ (min_option_price_nonzero _ (Hdash t eq_refl)))).
    eexists. split; reflexivity.
  - exists (dash w). split; [ destruct w; reflexivity | exact Ht ].
Qed.

(** The position [enter_position] opens at the confirmed price. *)
Definition opened_position (direction : Direction) (symbol segment : string)
    (pivot price : Q) : Position :=
  mkPosition symbol segment direction price (NIFTY_LOT_SIZE * TRADE_LOTS)
    (Double.mul price (inject_Z (NIFTY_LOT_SIZE * TRADE_LOTS)))
    (py_round2 (Double.mul price (Double.add 1 PROFIT_TARGET_PERCENT)))
    (py_round2 (Double.mul price (Double.sub 1 STOP_LOSS_PERCENT))) pivot.

(** ** What a step does to the orders *)

(** What no step of an iteration writes once the daily reset is past:
    the heartbeat stamp, the trading date and the pivot stay, and so does
    a bias once taken. *)
Definition frame (w w' : World) : Prop :=
  last_heartbeat_timestamp (sess w') = last_heartbeat_timestamp (sess w)
  /\ last_trading_date (sess w') = last_trading_date (sess w)
  /\ daily_pivot_point (sess w') = daily_pivot_point (sess w)
  /\ (daily_bias (sess w) <> None -> daily_bias (sess w') = daily_bias (sess w)).

(** A step that places no order and leaves the count and the position. *)
Definition quiet (w w' : World) : Prop :=
  frame w w'
  /\ executed_trades_count (sess w') = executed_trades_count (sess w)
  /\ current_position (sess w') = current_position (sess w)
  /\ exists tr, trace w' = (trace w ++ tr)%list /\ Forall is_io tr.

(** A step whose one order is a buy: no position was open, the count
    was below the cap and goes up by one, and the position opened is the
    one bought; [E] says what is known of its direction and pivot. *)
Definition bought (E : Direction -> Q -> Prop) (w w' : World) : Prop :=
  frame w w'
  /\ current_position (sess w) = None
  /\ (executed_trades_count (sess w) < MAX_DAILY_TRADES)%nat
  /\ executed_trades_count (sess w') = S (executed_trades_count (sess w))
  /\ exists direction symbol segment pivot price tr,
       E direction pivot
       /\ MIN_OPTION_PRICE <= price
       /\ current_position (sess w')
          = Some (opened_position direction symbol segment pivot price)
       /\ trace w'
          = (trace w ++ tr ++ [PaperBuy symbol (NIFTY_LOT_SIZE * TRADE_LOTS) price])%list
       /\ Forall is_io tr.

(** A step whose one order is the sale of the open position, which it
    clears; [J] says what is known of the price and of the reason. *)
Definition sold (J : Position -> Q -> string -> Prop) (w w' : World) : Prop :=
  frame w w'
  /\ executed_trades_count (sess w') = executed_trades_count (sess w)
  /\ current_position (sess w') = None
  /\ exists p price reason tr,
       current_position (sess w) = Some p
       /\ J p price reason
       /\ trace w'
          = (trace w ++ tr ++ [PaperSell (p_symbol p) (p_quantity p) price reason])%list
       /\ Forall is_io tr.

(** A step whose one order is the sale of the open position and whose
    journal write did not go through: the position stays as it was. *)
Definition sold_unbooked (J : Position -> Q -> string -> Prop) (w w' : World) : Prop :=
  frame w w'
  /\ executed_trades_count (sess w') = executed_trades_count (sess w)
  /\ current_position (sess w') = current_position (sess w)
  /\ exists p price reason tr,
       current_position (sess w) = Some p
       /\ J p price reason
       /\ trace w'
          = (trace w ++ tr ++ [PaperSell (p_symbol p) (p_quantity p) price reason])%list
       /\ Forall is_io tr.

(** The effect of a step that returns. *)
Definition effect (E : Direction -> Q -> Prop) (J : Position -> Q -> string -> Prop)
    (w w' : World) : Prop :=
  quiet w w' \/ bought E w w' \/ sold J w w'.

(** How a step started in [w] ends: it returns after one of the three
    effects, or the journal write raises [OSError] after the sale.  The
    invariant holds of the globals it leaves either way. *)
Definition runs (E : Direction -> Q -> Prop) (J : Position -> Q -> string -> Prop)
    (w : World) (r : result unit) : Prop :=
  session_inv (world_of r)
  /\ match r with
     | Ok _ w' => effect E J w w'
     | Raised e w' => e = OSError /\ sold_unbooked J w w'
     end.

Lemma frame_refl w : frame w w.
Proof. repeat split; auto. Qed.

Lemma frame_trans w1 w2 w3 : frame w1 w2 -> frame w2 w3 -> frame w1 w3.
Proof.
  intros (Hh1 & Hd1 & Hp1 & Hb1) (Hh2 & Hd2 & Hp2 & Hb2).
  split; [ congruence | ]. split; [ congruence | ]. split; [ congruence | ].
  intros Hset. rewrite Hb2, Hb1; auto. rewrite Hb1; auto.
Qed.

Lemma quiet_refl w : quiet w w.
Proof.
  split; [ apply frame_refl | ]. split; [ reflexivity | ]. split; [ reflexivity | ].
  exists []. rewrite app_nil_r. auto.
Qed.

Lemma quiet_trans w1 w2 w3 : quiet w1 w2 -> quiet w2 w3 -> quiet w1 w3.
Proof.
  intros (Hf1 & Hc1 & Hp1 & tr1 & Ht1 & Hi1) (Hf2 & Hc2 & Hp2 & tr2 & Ht2 & Hi2).
  split; [ exact (frame_trans _ _ _ Hf1 Hf2) | ].
  split; [ congruence | ]. split; [ congruence | ].
  exists (tr1 ++ tr2)%list. split; [ rewrite Ht2, Ht1, app_assoc; reflexivity | ].
  apply Forall_app. auto.
Qed.

Lemma quiet_sold_unbooked J w1 w2 w3 :
  quiet w1 w2 -> sold_unbooked J w2 w3 -> sold_unbooked J w1 w3.
Proof.
  intros (Hf1 & Hc1 & Hp1 & tr1 & Ht1 & Hi1)
         (Hf2 & Hcount & Hkeep & p & price & reason & tr2 & Hpos & HJ & Ht2 & Hi2).
  split; [ exact (frame_trans _ _ _ Hf1 Hf2) | ].
  split; [ congruence | ]. split; [ congruence | ].
  exists p, price, reason, (tr1 ++ tr2)%list.
  split; [ congruence | ]. split; [ exact HJ | ].
  split; [ rewrite Ht2, Ht1, <- !app_assoc; reflexivity | apply Forall_app; auto ].
Qed.

Lemma quiet_effect E J w1 w2 w3 : quiet w1 w2 -> effect E J w2 w3 -> effect E J w1 w3.
Proof.
  intros Hq [ Hq' | [ Hb | Hs ] ].
  - left. exact (quiet_trans _ _ _ Hq Hq').
  - right; left. destruct Hq as (Hf1 & Hc1 & Hp1 & tr1 & Ht1 & Hi1).
    destruct Hb as (Hf2 & Hnone & Hcap & Hcount
                    & direction & symbol & segment & pivot & price & tr2
                    & HE & Hmin & Hpos & Ht2 & Hi2).
    split; [ exact (frame_trans _ _ _ Hf1 Hf2) | ].
    split; [ congruence | ]. split; [ rewrite <- Hc1; exact Hcap | ].
    split; [ congruence | ].
    exists direction, symbol, segment, pivot, price, (tr1 ++ tr2)%list.
    split; [ exact HE | ]. split; [ exact Hmin | ]. split; [ exact Hpos | ].
    split; [ rewrite Ht2, Ht1, <- !app_assoc; reflexivity | apply Forall_app; auto ].
  - right; right. destruct Hq as (Hf1 & Hc1 & Hp1 & tr1 & Ht1 & Hi1).
    destruct Hs as (Hf2 & Hcount & Hnone & p & price & reason & tr2
                    & Hpos & HJ & Ht2 & Hi2).
    split; [ exact (frame_trans _ _ _ Hf1 Hf2) | ].
    split; [ congruence | ]. split; [ exact Hnone | ].
    exists p, price, reason, (tr1 ++ tr2)%list.
    split; [ congruence | ]. split; [ exact HJ | ].
    split; [ rewrite Ht2, Ht1, <- !app_assoc; reflexivity | apply Forall_app; auto ].
Qed.

Lemma quiet_runs E J w1 w2 r : quiet w1 w2 -> runs E J w2 r -> runs E J w1 r.
Proof.
  intros Hq (Hinv & Hr). split; [ exact Hinv | ].
  destruct r as [ u w' | e w' ].
  - exact (quiet_effect _ _ _ _ _ Hq Hr).
  - destruct Hr as (He & Hu). split; [ exact He | exact (quiet_sold_unbooked _ _ _ _ Hq Hu) ].
Qed.

Lemma effect_weaken (E E' : Direction -> Q -> Prop)
    (J J' : Position -> Q -> string -> Prop) w w' :
  (forall d pv, E d pv -> E' d pv) -> (forall p q r, J p q r -> J' p q r) ->
  effect E J w w' -> effect E' J' w w'.
Proof.
  intros HE HJ [ Hq | [ Hb | Hs ] ]; [ left; exact Hq | right; left | right; right ].
  - destruct Hb as (Hf & Hnone & Hcap & Hcount
                    & direction & symbol & segment & pivot & price & tr & H & Hrest).
    split; [ exact Hf | ]. split; [ exact Hnone | ]. split; [ exact Hcap | ].
    split; [ exact Hcount | ].
    exists direction, symbol, segment, pivot, price, tr. split; [ apply HE; exact H | exact Hrest ].
  - destruct Hs as (Hf & Hcount & Hnone & p & price & reason & tr & Hpos & H & Hrest).
    split; [ exact Hf | ]. split; [ exact Hcount | ]. split; [ exact Hnone | ].
    exists p, price, reason, tr. split; [ exact Hpos | ]. split; [ apply HJ; exact H | exact Hrest ].
Qed.

Lemma sold_unbooked_weaken (J J' : Position -> Q -> string -> Prop) w w' :
  (forall p q r, J p q r -> J' p q r) -> sold_unbooked J w w' -> sold_unbooked J' w w'.
Proof.
  intros HJ (Hf & Hcount & Hkeep & p & price & reason & tr & Hpos & H & Hrest).
  split; [ exact Hf | ]. split; [ exact Hcount | ]. split; [ exact Hkeep | ].
  exists p, price, reason, tr. split; [ exact Hpos | ]. split; [ apply HJ; exact H | exact Hrest ].
Qed.

Lemma runs_weaken (E E' : Direction -> Q -> Prop)
    (J J' : Position -> Q -> string -> Prop) w r :
  (forall d pv, E d pv -> E' d pv) -> (forall p q r, J p q r -> J' p q r) ->
  runs E J w r -> runs E' J' w r.
Proof.
  intros HE HJ (Hinv & Hr). split; [ exact Hinv | ].
  destruct r as [ u w' | e w' ].
  - exact (effect_weaken _ _ _ _ _ _ HE HJ Hr).
  - destruct Hr as (He & Hu). split; [ exact He | exact (sold_unbooked_weaken _ _ _ _ HJ Hu) ].
Qed.

Lemma io_only_quiet w w' : io_only w w' -> quiet w w'.
Proof.
  intros (Hs & _ & tr & Ht & Hio). unfold quiet, frame. rewrite Hs.
  repeat split; auto. exists tr. auto.
Qed.

Lemma dash_write_quiet w w' : dash_write w w' -> quiet w w'.
Proof.
  intros (d & -> & _). unfold quiet, frame. msimpl.
  repeat split; auto. exists []. rewrite app_nil_r. auto.
Qed.

Lemma sold_unbooked_dash_write J w w1 w2 :
  sold_unbooked J w w1 -> dash_write w1 w2 -> sold_unbooked J w w2.
Proof.
  intros Hu (d & -> & _). exact Hu.
Qed.

(** Every effect keeps the trading date, and the orders not yet closed
    within the bound of the open position. *)
Lemma effect_date E J w w' :
  effect E J w w' \/ sold_unbooked J w w' ->
  last_trading_date (sess w') = last_trading_date (sess w).
Proof.
  intros [ [ ((_ & H & _) & _) | [ ((_ & H & _) & _) | ((_ & H & _) & _) ] ]
         | ((_ & H & _) & _) ]; exact H.
Qed.

Lemma effect_one_position E J w w' :
  effect E J w w' \/ sold_unbooked J w w' -> one_position w -> one_position w'.
Proof.
  unfold one_position.
  intros [ [ Hq | [ Hb | Hs ] ] | Hu ] Hone.
  - destruct Hq as (_ & _ & Hpos & tr & Ht & Hio).
    rewrite Hpos, Ht, (open_positions_io _ _ Hio). exact Hone.
  - destruct Hb as (_ & Hnone & _ & _
                    & direction & symbol & segment & pivot & price & tr
                    & _ & _ & Hpos & Ht & Hio).
    rewrite Hnone in Hone.
    rewrite Hpos, Ht, (open_positions_order _ _ _ Hio). simpl. lia.
  - destruct Hs as (_ & _ & Hnone & p & price & reason & tr & Hpos & _ & Ht & Hio).
    rewrite Hpos in Hone.
    rewrite Hnone, Ht, (open_positions_order _ _ _ Hio). simpl. lia.
  - destruct Hu as (_ & _ & Hkeep & p & price & reason & tr & Hpos & _ & Ht & Hio).
    rewrite Hpos in Hone.
    rewrite Hkeep, Hpos, Ht, (open_positions_order _ _ _ Hio). simpl. lia.
Qed.

(** When a sale is made on an iteration at the time [now]: the forced
    exit from EOD_EXIT on, and before it the stop loss at a quote at or
    below the stop level or the profit target at a quote at or above the
    target level. *)
Definition exit_reason_holds (now : Z) (p : Position) (price : Q) (reason : string)
    : Prop :=
  (EOD_EXIT <= now)%Z /\ reason = "EOD_EXIT"
  \/ (now < EOD_EXIT)%Z /\ MIN_OPTION_PRICE <= price
     /\ (reason = "STOP_LOSS" /\ price <= p_stop_loss p
         \/ reason = "PROFIT_TARGET" /\ p_profit_target p <= price).

Definition never_buys (d : Direction) (pv : Q) : Prop := False.
Definition never_sells (p : Position) (q : Q) (r : string) : Prop := False.

(** What an iteration may buy at the time [now] from the globals [w]:
    within the entry window, at the pivot of the day. *)
Definition entry_allowed (now : Z) (w : World) (d : Direction) (pv : Q) : Prop :=
  (BIAS_CANDLE_END <= now)%Z /\ (now < ENTRY_CUTOFF)%Z
  /\ daily_pivot_point (sess w) = Some pv.

(** The globals [w] with the heartbeat stamp [t]. *)
Definition stamped (t : option (Z * Z)) (w : World) : World :=
  set_sess (set_last_heartbeat_timestamp t (sess w)) w.

Lemma ok_world {A} (a a' : A) w w' : Ok a w = Ok a' w' -> w = w'.
Proof. intros H. inversion H. reflexivity. Qed.


Section Lifecycle.

Variable groww : Groww.

Lemma dash_write_sess w w' : dash_write w w' -> sess w' = sess w.
Proof. intros (d & -> & _). reflexivity. Qed.

Lemma dash_write_trace w w' : dash_write w w' -> trace w' = trace w.
Proof. intros (d & -> & _). reflexivity. Qed.

Lemma fetch_option_price_run symbol segment w :
  exists r w',
    fetch_option_price groww symbol segment w = Ok r w'
    /\ io_only w w'
    /\ forall p, r = Some p -> MIN_OPTION_PRICE <= p /\ p <= MAX_OPTION_PRICE.
Proof.
  destruct (fetch_price_total groww OptionBreaker MIN_OPTION_PRICE MAX_OPTION_PRICE
              segment ("NSE_" ++ symbol) w) as (r & w' & Hrun & Hio & _ & Hr).
  exists r, w'. split; [ exact Hrun | split; [ exact Hio | ] ].
  intros p Hp. apply in_range_iff. apply Hr. exact Hp.
Qed.

Lemma fetch_spot_price_run w :
  exists r w',
    fetch_spot_price groww w = Ok r w'
    /\ io_only w w'
    /\ forall p, r = Some p -> MIN_SPOT_PRICE <= p /\ p <= MAX_SPOT_PRICE.
Proof.
  destruct (fetch_price_total groww SpotBreaker MIN_SPOT_PRICE MAX_SPOT_PRICE
              "CASH" "NSE_NIFTY" w) as (r & w' & Hrun & Hio & _ & Hr).
  exists r, w'. split; [ exact Hrun | split; [ exact Hio | ] ].
  intros p Hp. apply in_range_iff. apply Hr. exact Hp.
Qed.

(** ** Exit *)

(** The journal takes the row of a trade whose entry price is not zero
    when the file can be written, and raises [OSError] with the file as
    it was when it cannot. *)
Lemma log_trade_to_journal_run today trade exit_price reason w :
  Qeq_bool (p_entry_price trade) 0 = false ->
  log_trade_to_journal groww today trade exit_price reason w
  = if journal_writable groww (journal_calls w)
    then Ok tt (write_journal (Journal.trade_record today trade exit_price reason)
                  (tick_journal w))
    else Raised OSError (tick_journal w).
Proof.
  intros Hentry. unfold log_trade_to_journal.
  rewrite (bind_ok _ _ _ _ _ (py_div_run _ _ _ Hentry)). msimpl.
  destruct (journal_writable groww (journal_calls w)); reflexivity.
Qed.

(** Closing the position: one sell at the price and for the reason
    given, then the journal's row.  When the journal takes the row the
    dashboard's trade and the position are cleared; when its write raises
    the exit stops there, the position as it was. *)
Lemma exit_position_run today exit_price reason w p :
  session_inv w -> current_position (sess w) = Some p ->
  let w1 := tick_journal
              (emit (PaperSell (p_symbol p) (p_quantity p) exit_price reason) w) in
  if journal_writable groww (journal_calls w)
  then exists d,
         exit_position groww today exit_price reason w
         = Ok tt (set_sess (set_current_position None (sess w))
                    (set_dash d
                       (write_journal
                          (Journal.trade_record today p exit_price reason) w1)))
         /\ current_trade d = None
  else exit_position groww today exit_price reason w = Raised OSError w1.
Proof.
  intros Hinv Hpos. pose proof Hinv as (_ & Hok & _).
  destruct (Hok p Hpos) as (_ & Hentry & _).
  apply min_option_price_nonzero in Hentry.
  cbv zeta. unfold exit_position, paper_sell. msimpl. rewrite Hpos. msimpl.
  rewrite (bind_ok _ _ _ _ _ (py_div_run _ _ _ Hentry)).
  set (w0 := emit _ w).
  pose proof (log_trade_to_journal_run today p exit_price reason w0 Hentry) as Hlog.
  change (journal_calls w0) with (journal_calls w) in Hlog.
  destruct (journal_writable groww (journal_calls w)).
  - rewrite (bind_ok _ _ _ _ _ Hlog).
    set (w2 := write_journal _ _).
    assert (Hinv2 : session_inv w2) by exact Hinv.
    destruct (dash_exit_trade_run exit_price reason w2 Hinv2) as (d & Hrun & Hd).
    rewrite (bind_ok _ _ _ _ _ Hrun). msimpl.
    destruct (MAX_DAILY_TRADES <=? _)%nat;
      (eexists; split; [ reflexivity | exact Hd ]).
  - rewrite (bind_raised _ _ _ _ _ Hlog). reflexivity.
Qed.

Lemma exit_position_sold (J : Position -> Q -> string -> Prop) today price reason w p :
  session_inv w -> current_position (sess w) = Some p -> J p price reason ->
  runs never_buys J w (exit_position groww today price reason w).
Proof.
  intros Hinv Hpos HJ.
  pose proof (exit_position_run today price reason w p Hinv Hpos) as Hrun.
  cbv zeta in Hrun. destruct Hinv as (Hcap & Hok & Hdash).
  destruct (journal_writable groww (journal_calls w)).
  - destruct Hrun as (d & -> & Hd). split.
    + split; [ exact Hcap | split ]; msimpl; [ discriminate | ].
      rewrite Hd. discriminate.
    + right; right. unfold sold, frame. msimpl.
      split; [ repeat split; auto | ]. split; [ reflexivity | ]. split; [ reflexivity | ].
      exists p, price, reason, []. auto.
  - rewrite Hrun. split.
    + split; [ exact Hcap | split; [ exact Hok | exact Hdash ] ].
    + split; [ reflexivity | ]. unfold sold_unbooked, frame. msimpl.
      split; [ repeat split; auto | ]. split; [ reflexivity | ]. split; [ reflexivity | ].
      exists p, price, reason, []. auto.
Qed.

(** An exit that returns leaves no position. *)
Lemma exit_position_clears today price reason w w' :
  session_inv w ->
  exit_position groww today price reason w = Ok tt w' ->
  current_position (sess w') = None.
Proof.
  intros Hinv Hrun.
  destruct (current_position (sess w)) as [ p | ] eqn:Hpos.
  - pose proof (exit_position_run today price reason w p Hinv Hpos) as Hcases.
    cbv zeta in Hcases.
    destruct (journal_writable groww (journal_calls w)).
    + destruct Hcases as (d & Hrun' & _). rewrite Hrun' in Hrun.
      apply ok_world in Hrun. subst w'. reflexivity.
    + rewrite Hcases in Hrun. discriminate.
  - revert Hrun. unfold exit_position. msimpl. rewrite Hpos.
    intros Hrun. apply ok_world in Hrun. subst w'. exact Hpos.
Qed.

(** Monitoring against a level: the quote is fetched; a missing quote
    changes nothing; otherwise the dashboard takes the quote and the
    position is closed when [hit] holds of it. *)
Definition monitor (today : Z) (hit : Position -> Q -> bool) (reason : string)
    : M unit :=
  s <- gets sess;;
  match current_position s with
  | None => ret tt
  | Some position =>
      price <- fetch_option_price groww (p_symbol position) (p_segment position);;
      match price with
      | None => ret tt
      | Some price =>
          dash_update_trade_price price;;
          if hit position price then exit_position groww today price reason else ret tt
      end
  end.

Lemma check_stop_loss_monitor today :
  check_stop_loss groww today
  = monitor today (fun position price => Qle_bool price (p_stop_loss position))
            "STOP_LOSS".
Proof. reflexivity. Qed.

Lemma check_profit_target_monitor today :
  check_profit_target groww today
  = monitor today (fun position price => Qle_bool (p_profit_target position) price)
            "PROFIT_TARGET".
Proof. reflexivity. Qed.

Lemma runs_ok E J w w' :
  session_inv w' -> quiet w w' -> runs E J w (Ok tt w').
Proof. intros Hinv Hq. split; [ exact Hinv | left; exact Hq ]. Qed.

Lemma monitor_effect today hit reason w :
  session_inv w ->
  runs never_buys
       (fun p price r => r = reason /\ hit p price = true /\ MIN_OPTION_PRICE <= price)
       w (monitor today hit reason w).
Proof.
  intros Hinv. unfold monitor. msimpl.
  destruct (current_position (sess w)) as [ p | ] eqn:Hpos.
  2:{ apply runs_ok; [ exact Hinv | apply quiet_refl ]. }
  destruct (fetch_option_price_run (p_symbol p) (p_segment p) w)
    as (r & w1 & Hrun1 & Hio1 & Hrange).
  rewrite (bind_ok _ _ _ _ _ Hrun1).
  pose proof (io_only_step _ _ Hinv Hio1) as (Hinv1 & _).
  pose proof (io_only_quiet _ _ Hio1) as Hq1.
  destruct r as [ price | ]; [ | apply runs_ok; assumption ].
  destruct (dash_update_trade_price_run price w1 Hinv1) as (w2 & Hrun2 & Hdw2 & _).
  rewrite (bind_ok _ _ _ _ _ Hrun2).
  pose proof (dash_write_step _ _ Hinv1 Hdw2) as (Hinv2 & _).
  pose proof (quiet_trans _ _ _ Hq1 (dash_write_quiet _ _ Hdw2)) as Hq2.
  destruct (hit p price) eqn:Ehit; [ | apply runs_ok; assumption ].
  assert (Hpos2 : current_position (sess w2) = Some p).
  { destruct Hq2 as (_ & _ & -> & _). exact Hpos. }
  apply (quiet_runs _ _ _ _ _ Hq2).
  apply (exit_position_sold _ today price reason w2 p Hinv2 Hpos2).
  split; [ reflexivity | ]. split; [ exact Ehit | apply (Hrange price eq_refl) ].
Qed.

(** A check that returns with the position still open placed no
    order. *)
Lemma runs_still_open J w w' :
  runs never_buys J w (Ok tt w') -> current_position (sess w') <> None -> quiet w w'.
Proof.
  intros (_ & [ Hq | [ Hb | Hs ] ]) Hopen; [ exact Hq | exfalso .. ].
  - destruct Hb as (_ & _ & _ & _ & d & sy & sg & pv & pr & tr & [] & _).
  - destruct Hs as (_ & _ & Hnone & _). exact (Hopen Hnone).
Qed.

(** The forced exit, spelled out: the event, one fetch, then the exit
    for the reason EOD_EXIT, at the quote when there is one and at the
    entry price otherwise. *)
Lemma force_eod_exit_run today w p :
  session_inv w -> current_position (sess w) = Some p ->
  exists w0 quote w1,
    add_event "EOD exit triggered" w = Ok tt w0
    /\ fetch_option_price groww (p_symbol p) (p_segment p) w0 = Ok quote w1
    /\ quiet w w1 /\ session_inv w1
    /\ current_position (sess w1) = Some p
    /\ force_eod_exit groww today w
       = exit_position groww today
           match quote with Some q => q | None => p_entry_price p end "EOD_EXIT" w1.
Proof.
  intros Hinv Hpos. unfold force_eod_exit. msimpl. rewrite Hpos.
  destruct (add_event_run "EOD exit triggered" w) as (w0 & Hrun0 & Hdw0).
  rewrite (bind_ok _ _ _ _ _ Hrun0).
  pose proof (dash_write_step _ _ Hinv Hdw0) as (Hinv0 & _).
  destruct (fetch_option_price_run (p_symbol p) (p_segment p) w0)
    as (quote & w1 & Hrun1 & Hio1 & Hrange).
  rewrite (bind_ok _ _ _ _ _ Hrun1).
  pose proof (io_only_step _ _ Hinv0 Hio1) as (Hinv1 & _).
  pose proof (quiet_trans _ _ _ (dash_write_quiet _ _ Hdw0) (io_only_quiet _ _ Hio1)) as Hq1.
  exists w0, quote, w1.
  split; [ exact Hrun0 | ]. split; [ exact Hrun1 | ]. split; [ exact Hq1 | ].
  split; [ exact Hinv1 | ].
  split; [ destruct Hq1 as (_ & _ & -> & _); exact Hpos | ].
  destruct quote as [ q | ]; [ | reflexivity ].
  destruct (Hrange q eq_refl) as (Hq & _).
  simpl. rewrite (min_option_price_nonzero q Hq). reflexivity.
Qed.

Lemma force_eod_exit_effect today w :
  session_inv w ->
  runs never_buys (fun p price r => r = "EOD_EXIT") w (force_eod_exit groww today w)
  /\ forall w', force_eod_exit groww today w = Ok tt w' ->
                current_position (sess w') = None.
Proof.
  intros Hinv.
  destruct (current_position (sess w)) as [ p | ] eqn:Hpos.
  2:{ unfold force_eod_exit. msimpl. rewrite Hpos.
      split; [ apply runs_ok; [ exact Hinv | apply quiet_refl ] | ].
      intros w' Hrun. apply ok_world in Hrun. subst w'. exact Hpos. }
  destruct (force_eod_exit_run today w p Hinv Hpos)
    as (w0 & quote & w1 & _ & _ & Hq1 & Hinv1 & Hpos1 & ->).
  split.
  - apply (quiet_runs _ _ _ _ _ Hq1).
    exact (exit_position_sold _ today _ "EOD_EXIT" w1 p Hinv1 Hpos1 eq_refl).
  - intros w'. apply exit_position_clears. exact Hinv1.
Qed.

Lemma position_management_effect today now w :
  session_inv w ->
  runs never_buys (exit_reason_holds now) w (position_management groww today now w)
  /\ ((EOD_EXIT <= now)%Z ->
      forall w', position_management groww today now w = Ok tt w' ->
                 current_position (sess w') = None).
Proof.
  intros Hinv. unfold position_management.
  destruct (EOD_EXIT <=? now)%Z eqn:Eeod.
  { apply Z.leb_le in Eeod.
    destruct (force_eod_exit_effect today w Hinv) as (Hruns & Hnone).
    split; [ | intros _; exact Hnone ].
    apply (runs_weaken _ _ _ _ _ _ (fun _ _ H => H)
             (fun p q r (H : r = "EOD_EXIT") => or_introl (conj Eeod H)) Hruns). }
  apply Z.leb_gt in Eeod.
  split; [ | intros H; lia ].
  rewrite check_stop_loss_monitor, check_profit_target_monitor.
  assert (Hstop : forall p q r,
            r = "STOP_LOSS" /\ Qle_bool q (p_stop_loss p) = true /\ MIN_OPTION_PRICE <= q ->
            exit_reason_holds now p q r).
  { intros p q r (Hr & Hhit & Hmin). right. split; [ exact Eeod | ].
    split; [ exact Hmin | left ]. split; [ exact Hr | apply Qle_bool_iff; exact Hhit ]. }
  assert (Htarget : forall p q r,
            r = "PROFIT_TARGET" /\ Qle_bool (p_profit_target p) q = true
            /\ MIN_OPTION_PRICE <= q ->
            exit_reason_holds now p q r).
  { intros p q r (Hr & Hhit & Hmin). right. split; [ exact Eeod | ].
    split; [ exact Hmin | right ]. split; [ exact Hr | apply Qle_bool_iff; exact Hhit ]. }
  pose proof (monitor_effect today (fun position price => Qle_bool price (p_stop_loss position))
                "STOP_LOSS" w Hinv) as Hm1.
  destruct (monitor today (fun position price => Qle_bool price (p_stop_loss position))
              "STOP_LOSS" w) as [ [] w1 | e w1 ] eqn:Hrun1.
  2:{ rewrite (bind_raised _ _ _ _ _ Hrun1).
      exact (runs_weaken _ _ _ _ _ _ (fun _ _ H => H) Hstop Hm1). }
  rewrite (bind_ok _ _ _ _ _ Hrun1). msimpl.
  destruct (current_position (sess w1)) as [ p1 | ] eqn:Hpos1.
  2:{ exact (runs_weaken _ _ _ _ _ _ (fun _ _ H => H) Hstop Hm1). }
  assert (Hq1 : quiet w w1).
  { apply (runs_still_open _ _ _ Hm1). rewrite Hpos1. discriminate. }
  apply (quiet_runs _ _ _ _ _ Hq1).
  apply (runs_weaken _ _ _ _ _ _ (fun _ _ H => H) Htarget).
  apply monitor_effect. exact (proj1 Hm1).
Qed.

(** ** Entry *)

(** The two reads are unusable: one is missing, one is not positive, or
    the quotient of their distance by the first, as the doubles give it,
    is above the double 0.05. *)
Definition reads_unusable (first confirm : option Q) : Prop :=
  match first, confirm with
  | Some first, Some confirm =>
      first <= 0 \/ confirm <= 0
      \/ Double.rd (5 # 100) < Double.div (py_abs (Double.sub confirm first)) first
  | _, _ => True
  end.

Lemma py_truediv_run a b w :
  Qeq_bool b 0 = false -> py_truediv a b w = Ok (Double.div a b) w.
Proof. intros H. unfold py_truediv. rewrite H. reflexivity. Qed.

(** The guard of [enter_position] raises nothing and decides
    [reads_unusable]. *)
Lemma entry_prices_unusable_run first confirm w :
  exists b, entry_prices_unusable first confirm w = Ok b w
    /\ (b = true <-> reads_unusable first confirm).
Proof.
  unfold entry_prices_unusable, reads_unusable.
  destruct confirm as [ c | ]; [ | exists true; destruct first; tauto ].
  destruct first as [ f | ]; [ | exists true; tauto ].
  destruct (Qle_bool f 0) eqn:Ef.
  { exists true. apply Qle_bool_iff in Ef. tauto. }
  destruct (Qle_bool c 0) eqn:Ec.
  { exists true. apply Qle_bool_iff in Ec. tauto. }
  apply Qle_bool_false_iff in Ef. apply Qle_bool_false_iff in Ec.
  assert (Hf : Qeq_bool f 0 = false).
  { destruct (Qeq_bool f 0) eqn:E; [ | reflexivity ].
    apply Qeq_bool_iff in E. exfalso. lra. }
  rewrite (bind_ok _ _ _ _ _ (py_truediv_run _ _ _ Hf)).
  eexists. split; [ reflexivity | ].
  rewrite Qlt_bool_iff.
  split; [ intros H; right; right; exact H | ].
  intros [ H | [ H | H ] ]; [ exfalso; lra | exfalso; lra | exact H ].
Qed.

Lemma can_enter_trade_run w :
  exists b, can_enter_trade w = Ok b w
    /\ (b = true <->
          (executed_trades_count (sess w) < MAX_DAILY_TRADES)%nat
          /\ current_position (sess w) = None).
Proof.
  unfold can_enter_trade. msimpl.
  destruct (MAX_DAILY_TRADES <=? executed_trades_count (sess w))%nat eqn:E.
  - exists false. split; [ reflexivity | ]. apply Nat.leb_le in E.
    split; [ discriminate | intros (H & _); lia ].
  - apply Nat.leb_gt in E.
    destruct (current_position (sess w)); eexists; (split; [ reflexivity | ]).
    + split; [ discriminate | intros (_ & H); discriminate ].
    + split; auto.
Qed.

(** An entry attempt, spelled out.  It returns nothing and changes
    nothing when the cap is reached or a position is open.  Otherwise it
    reads the price twice; on unusable reads it returns nothing, leaves
    the session as it was and places no order; on usable ones it buys at
    the second read, counts the trade and opens the position. *)
Lemma enter_position_run direction symbol segment pivot w :
  ((MAX_DAILY_TRADES <= executed_trades_count (sess w))%nat
   \/ current_position (sess w) <> None ->
   enter_position groww direction symbol segment pivot w = Ok None w)
  /\ ((executed_trades_count (sess w) < MAX_DAILY_TRADES)%nat ->
      current_position (sess w) = None ->
      exists first w1 confirm w2,
        fetch_option_price groww symbol segment w = Ok first w1
        /\ fetch_option_price groww symbol segment (emit (Sleep (1 # 2)) w1)
           = Ok confirm w2
        /\ io_only w w2
        /\ (reads_unusable first confirm ->
            exists w', enter_position groww direction symbol segment pivot w = Ok None w'
              /\ dash_write w2 w')
        /\ (~ reads_unusable first confirm ->
            exists price d,
              confirm = Some price
              /\ MIN_OPTION_PRICE <= price
              /\ let position := opened_position direction symbol segment pivot price in
                 enter_position groww direction symbol segment pivot w
                 = Ok (Some position)
                      (set_sess
                         (set_current_position (Some position)
                            (set_executed_trades_count
                               (S (executed_trades_count (sess w2))) (sess w2)))
                         (set_dash d
                            (emit (PaperBuy symbol (NIFTY_LOT_SIZE * TRADE_LOTS) price) w2)))
                 /\ exists t, current_trade d = Some t /\ d_entry_price t = price)).
Proof.
  destruct (can_enter_trade_run w) as (allowed & Hcan & Hallowed).
  split.
  - intros Hblocked. unfold enter_position. rewrite (bind_ok _ _ _ _ _ Hcan).
    destruct allowed; [ | reflexivity ].
    destruct (proj1 Hallowed eq_refl) as (Hlt & Hnone).
    exfalso. destruct Hblocked as [ H | H ]; [ lia | exact (H Hnone) ].
  - intros Hlt Hnone.
    assert (Ha : allowed = true) by (apply Hallowed; auto). subst allowed.
    destruct (fetch_option_price_run symbol segment w) as (first & w1 & Hrun1 & Hio1 & _).
    destruct (fetch_option_price_run symbol segment (emit (Sleep (1 # 2)) w1))
      as (confirm & w2 & Hrun2 & Hio2 & Hrange).
    assert (Hio : io_only w w2).
    { apply (io_only_trans _ _ _ Hio1). refine (io_only_trans _ _ _ _ Hio2).
      split; [ reflexivity | split; [ reflexivity | ] ].
      exists [Sleep (1 # 2)]. split; [ reflexivity | repeat constructor ]. }
    exists first, w1, confirm, w2.
    split; [ exact Hrun1 | ]. split; [ exact Hrun2 | ]. split; [ exact Hio | ].
    destruct (entry_prices_unusable_run first confirm w2) as (b & Hguard & Hb).
    assert (Hstart :
      enter_position groww direction symbol segment pivot w
      = (unusable <- entry_prices_unusable first confirm;;
         if unusable then
           add_event "Entry aborted - price unstable";; ret None
         else
           match confirm with
           | None => ret None
           | Some option_price =>
               let qty := calculate_position_size option_price in
               if negb (qty =? NIFTY_LOT_SIZE * TRADE_LOTS)%Z then ret None
               else if (qty <=? 0)%Z then ret None
               else
                 let invested := Double.mul option_price (inject_Z qty) in
                 paper_buy symbol qty option_price;;
                 modify_sess (fun s =>
                   set_executed_trades_count (S (executed_trades_count s)) s);;
                 let profit_target :=
                   py_round2
                     (Double.mul option_price (Double.add 1 PROFIT_TARGET_PERCENT)) in
                 let stop_loss :=
                   py_round2
                     (Double.mul option_price (Double.sub 1 STOP_LOSS_PERCENT)) in
                 let position :=
                   mkPosition symbol segment direction option_price qty invested
                              profit_target stop_loss pivot in
                 modify_sess (set_current_position (Some position));;
                 dash_enter_trade symbol direction option_price qty stop_loss
                                  profit_target;;
                 update_strategy_status "IN_TRADE";;
                 ret (Some position)
           end) w2).
    { unfold enter_position. rewrite (bind_ok _ _ _ _ _ Hcan). cbn [negb].
      rewrite (bind_ok _ _ _ _ _ Hrun1). unfold sleep, do at 1.
      rewrite (bind_ok _ _ _ _ _ (eq_refl : modify (emit (Sleep (1 # 2))) w1 = Ok tt _)).
      rewrite (bind_ok _ _ _ _ _ Hrun2). reflexivity. }
    rewrite Hstart, (bind_ok _ _ _ _ _ Hguard).
    split.
    + intros Hbad. apply Hb in Hbad. subst b.
      destruct (add_event_run "Entry aborted - price unstable" w2) as (w' & Hrun & Hdw).
      exists w'. rewrite (bind_ok _ _ _ _ _ Hrun). auto.
    + intros Hgood.
      assert (Hbf : b = false).
      { destruct b; [ exfalso; apply Hgood, Hb; reflexivity | reflexivity ]. }
      subst b.
      destruct first as [ f | ]; [ | exfalso; apply Hgood; exact I ].
      destruct confirm as [ price | ]; [ | exfalso; apply Hgood; exact I ].
      destruct (Hrange price eq_refl) as (Hmin & _).
      assert (Hsize : calculate_position_size price = (NIFTY_LOT_SIZE * TRADE_LOTS)%Z).
      { unfold calculate_position_size.
        destruct (Qle_bool price 0) eqn:E; [ | reflexivity ].
        apply Qle_bool_iff in E. unfold MIN_OPTION_PRICE in Hmin. exfalso. lra. }
      exists price. eexists. split; [ reflexivity | ]. split; [ exact Hmin | ].
      cbv zeta. rewrite Hsize.
      split; [ reflexivity | ].
      eexists. split; reflexivity.
Qed.

Lemma enter_position_effect direction symbol segment pivot w :
  session_inv w ->
  (exists b, daily_bias (sess w) = Some b /\ direction_of_bias b = Some direction) ->
  daily_pivot_point (sess w) <> None ->
  exists r w',
    enter_position groww direction symbol segment pivot w = Ok r w' /\ session_inv w'
    /\ effect (fun d pv => d = direction /\ pv = pivot) never_sells w w'.
Proof.
  intros Hinv Hbias Hpivot.
  destruct (enter_position_run direction symbol segment pivot w) as (Hblocked & Hfree).
  destruct (le_lt_dec MAX_DAILY_TRADES (executed_trades_count (sess w))) as [ Hcap | Hlt ].
  { exists None, w. split; [ apply Hblocked; left; exact Hcap | ].
    split; [ exact Hinv | left; apply quiet_refl ]. }
  destruct (current_position (sess w)) as [ p | ] eqn:Hpos.
  { exists None, w. split; [ apply Hblocked; right; discriminate | ].
    split; [ exact Hinv | left; apply quiet_refl ]. }
  destruct (Hfree Hlt eq_refl)
    as (first & w1 & confirm & w2 & _ & Hrun2 & Hio & Habort & Henter).
  pose proof (io_only_step _ _ Hinv Hio) as (Hinv2 & _).
  pose proof (io_only_quiet _ _ Hio) as Hq2.
  destruct (entry_prices_unusable_run first confirm w2) as (b & _ & Hb).
  destruct b.
  - destruct (Habort (proj1 Hb eq_refl)) as (w' & Hrun & Hdw).
    exists None, w'. split; [ exact Hrun | ].
    split; [ exact (proj1 (dash_write_step _ _ Hinv2 Hdw)) | ].
    left. exact (quiet_trans _ _ _ Hq2 (dash_write_quiet _ _ Hdw)).
  - assert (Hgood : ~ reads_unusable first confirm).
    { intros H. apply Hb in H. discriminate. }
    destruct (Henter Hgood) as (price & d & Hconfirm & Hmin & Hrun & t & Ht & Hentry).
    assert (Hmax : price <= MAX_OPTION_PRICE).
    { destruct (fetch_option_price_run symbol segment (emit (Sleep (1 # 2)) w1))
        as (r & w2' & Hrun2' & _ & Hrange).
      rewrite Hrun2 in Hrun2'. inversion Hrun2'; subst r w2'.
      apply (Hrange price Hconfirm). }
    cbv zeta in Hrun. eexists. eexists. split; [ exact Hrun | ].
    destruct Hio as (Hs & _ & tr & Htr & Hf).
    destruct Hinv as (_ & _ & Hdash). destruct Hbias as (bias & Hb1 & Hb2).
    split.
    + split; [ | split ]; msimpl.
      * rewrite Hs. unfold MAX_DAILY_TRADES in *. lia.
      * intros p Hp. inversion Hp; subst p. unfold position_ok. msimpl.
        split; [ lia | ]. split; [ exact Hmin | ].
        rewrite Hs. split; [ exists bias; auto | ].
        split; [ exact Hpivot | ]. split; [ exact Hmax | reflexivity ].
      * intros t' Ht'. rewrite Ht in Ht'. inversion Ht'; subst t'.
        rewrite Hentry. exact Hmin.
    + right; left. unfold bought, frame. msimpl. rewrite Hs.
      split; [ repeat split; auto | ]. split; [ exact Hpos | ]. split; [ exact Hlt | ].
      split; [ reflexivity | ].
      exists direction, symbol, segment, pivot, price, tr.
      split; [ split; reflexivity | ]. split; [ exact Hmin | ].
      split; [ reflexivity | ].
      split; [ rewrite Htr, <- app_assoc; reflexivity | exact Hf ].
Qed.

(** Determining the bias touches nothing but the bias and its lock, and
    nothing at all once the bias is set. *)
Lemma determine_daily_bias_run today now w :
  exists w', determine_daily_bias groww today now w = Ok tt w'
    /\ dash w' = dash w
    /\ (exists tr, trace w' = (trace w ++ tr)%list /\ Forall is_io tr)
    /\ executed_trades_count (sess w') = executed_trades_count (sess w)
    /\ current_position (sess w') = current_position (sess w)
    /\ last_trading_date (sess w') = last_trading_date (sess w)
    /\ daily_pivot_point (sess w') = daily_pivot_point (sess w)
    /\ last_heartbeat_timestamp (sess w') = last_heartbeat_timestamp (sess w)
    /\ (daily_bias (sess w) <> None -> w' = w).
Proof.
  unfold determine_daily_bias. msimpl.
  assert (Hnil : exists tr, trace w = (trace w ++ tr)%list /\ Forall is_io tr).
  { exists []. rewrite app_nil_r. auto. }
  destruct (daily_bias (sess w)) as [ b | ] eqn:Hbias.
  { exists w. repeat split; auto. }
  destruct (daily_pivot_point (sess w)) as [ pivot | ] eqn:Hpivot.
  2:{ exists w. repeat split; auto; intros H; exfalso; apply H; reflexivity. }
  destruct (now <? BIAS_CANDLE_END)%Z.
  { exists w. repeat split; auto; intros H; exfalso; apply H; reflexivity. }
  rewrite (bind_ok _ _ _ _ _ (get_first_5min_candle_run groww w)).
  assert (Hone : exists tr,
             trace (emit (CallCandles 5) (tick_candles w)) = (trace w ++ tr)%list
             /\ Forall is_io tr).
  { exists [CallCandles 5]. split; [ reflexivity | repeat constructor ]. }
  destruct (match get_historical_candle_data groww (candle_calls w) 5 with
            | Some (c :: _) => Some (mkCandle (r_open c) (r_high c) (r_low c) (r_close c))
            | _ => None
            end) as [ candle | ].
  2:{ eexists. split; [ reflexivity | ]. msimpl.
      repeat split; auto; intros H; exfalso; apply H; reflexivity. }
  destruct (Qlt_bool pivot (c_close candle));
    [ | destruct (Qlt_bool (c_close candle) pivot) ];
    (eexists; split; [ reflexivity | ]); msimpl;
    (repeat split; auto; intros H; exfalso; apply H; reflexivity).
Qed.

Lemma determine_daily_bias_quiet today now w :
  session_inv w ->
  exists w',
    determine_daily_bias groww today now w = Ok tt w' /\ session_inv w' /\ quiet w w'.
Proof.
  intros Hinv.
  destruct (determine_daily_bias_run today now w)
    as (w' & Hrun & Hd & Htrace & Hcount & Hpos & Hdate & Hpivot & Hbeat & Hlocked).
  exists w'. split; [ exact Hrun | ].
  split.
  - destruct (daily_bias (sess w)) as [ b | ] eqn:Hbias.
    { rewrite Hlocked by discriminate. exact Hinv. }
    destruct Hinv as (Hcap & Hok & Hdash).
    assert (Hnone : current_position (sess w) = None).
    { destruct (current_position (sess w)) as [ p | ] eqn:E; [ | reflexivity ].
      destruct (Hok p eq_refl) as (_ & _ & (b & Hb & _) & _). congruence. }
    split; [ rewrite Hcount; exact Hcap | split ].
    + intros p Hp. rewrite Hpos, Hnone in Hp. discriminate.
    + rewrite Hd. exact Hdash.
  - split; [ | split; [ exact Hcount | split; [ exact Hpos | exact Htrace ] ] ].
    split; [ exact Hbeat | ]. split; [ exact Hdate | ]. split; [ exact Hpivot | ].
    intros Hset. rewrite (Hlocked Hset). reflexivity.
Qed.

Lemma status_quiet st w :
  session_inv w ->
  exists w', update_strategy_status st w = Ok tt w' /\ session_inv w' /\ quiet w w'.
Proof.
  intros Hinv. destruct (update_strategy_status_run st w) as (w' & Hrun & Hdw).
  exists w'. split; [ exact Hrun | ].
  split; [ apply (dash_write_step _ _ Hinv Hdw) | exact (dash_write_quiet _ _ Hdw) ].
Qed.

Lemma event_quiet message w :
  session_inv w ->
  exists w', add_event message w = Ok tt w' /\ session_inv w' /\ quiet w w'.
Proof.
  intros Hinv. destruct (add_event_run message w) as (w' & Hrun & Hdw).
  exists w'. split; [ exact Hrun | ].
  split; [ apply (dash_write_step _ _ Hinv Hdw) | exact (dash_write_quiet _ _ Hdw) ].
Qed.

(** What the entry logic does once the bias [bias] is BULLISH or
    BEARISH. *)
Lemma directional_entry_effect today pivot bias direction w :
  session_inv w ->
  daily_bias (sess w) = Some bias -> direction_of_bias bias = Some direction ->
  daily_pivot_point (sess w) <> None ->
  exists w',
    (update_strategy_status "WAITING_FOR_PULLBACK";;
     spot <- fetch_spot_price groww;;
     match spot with
     | None => ret tt
     | Some spot =>
         if negb (is_in_pivot_zone spot pivot) then ret tt
         else
           add_event "Pullback to pivot zone detected";;
           update_strategy_status "READY_TO_ENTER";;
           let itm_strike := calculate_itm_strike spot direction in
           let option_type := match direction with CALL => CE | PUT => PE end in
           match get_nearest_valid_expiry groww today with
           | None => ret tt
           | Some expiry =>
               match find_option_instrument groww expiry itm_strike option_type with
               | None => ret tt
               | Some instrument =>
                   _ <- enter_position groww direction (i_symbol instrument)
                                       (i_segment instrument) pivot;;
                   ret tt
               end
           end
     end) w = Ok tt w'
    /\ session_inv w'
    /\ effect (fun d pv => d = direction /\ pv = pivot) never_sells w w'.
Proof.
  intros Hinv Hbias Hdir Hpivot.
  destruct (status_quiet "WAITING_FOR_PULLBACK" w Hinv) as (w1 & Hrun1 & Hinv1 & Hq1).
  rewrite (bind_ok _ _ _ _ _ Hrun1).
  destruct (fetch_spot_price_run w1) as (spot & w2 & Hrun2 & Hio2 & _).
  rewrite (bind_ok _ _ _ _ _ Hrun2).
  pose proof (io_only_step _ _ Hinv1 Hio2) as (Hinv2 & _).
  pose proof (quiet_trans _ _ _ Hq1 (io_only_quiet _ _ Hio2)) as Hq2.
  destruct spot as [ spot | ].
  2:{ exists w2. split; [ reflexivity | ]. split; [ exact Hinv2 | left; exact Hq2 ]. }
  destruct (negb (is_in_pivot_zone spot pivot)).
  { exists w2. split; [ reflexivity | ]. split; [ exact Hinv2 | left; exact Hq2 ]. }
  destruct (event_quiet "Pullback to pivot zone detected" w2 Hinv2)
    as (w3 & Hrun3 & Hinv3 & Hq3).
  rewrite (bind_ok _ _ _ _ _ Hrun3).
  destruct (status_quiet "READY_TO_ENTER" w3 Hinv3) as (w4 & Hrun4 & Hinv4 & Hq4).
  rewrite (bind_ok _ _ _ _ _ Hrun4).
  pose proof (quiet_trans _ _ _ Hq2 (quiet_trans _ _ _ Hq3 Hq4)) as Hq.
  cbv zeta.
  destruct (get_nearest_valid_expiry groww today) as [ expiry | ].
  2:{ exists w4. split; [ reflexivity | ]. split; [ exact Hinv4 | left; exact Hq ]. }
  destruct (find_option_instrument groww expiry _ _) as [ instrument | ].
  2:{ exists w4. split; [ reflexivity | ]. split; [ exact Hinv4 | left; exact Hq ]. }
  pose proof Hq as ((_ & _ & Hpv & Hbk) & _).
  destruct (enter_position_effect direction (i_symbol instrument) (i_segment instrument)
              pivot w4 Hinv4) as (r & w5 & Hrun5 & Hinv5 & Heff5).
  { exists bias. rewrite Hbk by (rewrite Hbias; discriminate). auto. }
  { rewrite Hpv. exact Hpivot. }
  rewrite (bind_ok _ _ _ _ _ Hrun5).
  exists w5. split; [ reflexivity | ]. split; [ exact Hinv5 | ].
  exact (quiet_effect _ _ _ _ _ Hq Heff5).
Qed.

(** The entry logic buys within the entry window only, in a direction
    and at the pivot it was given. *)
Lemma entry_logic_effect today now pivot w :
  session_inv w -> daily_pivot_point (sess w) = Some pivot ->
  exists w',
    entry_logic groww today now pivot w = Ok tt w' /\ session_inv w'
    /\ effect (fun d pv => (BIAS_CANDLE_END <= now)%Z /\ (now < ENTRY_CUTOFF)%Z
                           /\ pv = pivot)
              never_sells w w'
    /\ (daily_bias (sess w) = Some NEUTRAL -> quiet w w').
Proof.
  intros Hinv Hpivot. unfold entry_logic.
  destruct (ENTRY_CUTOFF <=? now)%Z eqn:Ecut.
  { destruct (status_quiet "ENTRY_CUTOFF_REACHED" w Hinv) as (w' & Hrun & Hinv' & Hq).
    exists w'. split; [ exact Hrun | ]. split; [ exact Hinv' | ].
    split; [ left; exact Hq | intros _; exact Hq ]. }
  destruct (now <? BIAS_CANDLE_END)%Z eqn:Ebias.
  { destruct (status_quiet "WAITING_FOR_BIAS" w Hinv) as (w' & Hrun & Hinv' & Hq).
    exists w'. split; [ exact Hrun | ]. split; [ exact Hinv' | ].
    split; [ left; exact Hq | intros _; exact Hq ]. }
  apply Z.leb_gt in Ecut. apply Z.ltb_ge in Ebias.
  destruct (determine_daily_bias_quiet today now w Hinv) as (w1 & Hrun1 & Hinv1 & Hq1).
  rewrite (bind_ok _ _ _ _ _ Hrun1). msimpl.
  pose proof Hq1 as ((_ & _ & Hpv1 & Hbk1) & _).
  assert (Hpivot1 : daily_pivot_point (sess w1) <> None)
    by (rewrite Hpv1, Hpivot; discriminate).
  assert (Hdirectional : forall bias direction,
            daily_bias (sess w1) = Some bias -> direction_of_bias bias = Some direction ->
            daily_bias (sess w) = Some NEUTRAL -> False).
  { intros bias direction H1 Hdir Hn.
    rewrite Hbk1 in H1 by (rewrite Hn; discriminate). rewrite Hn in H1.
    inversion H1; subst bias. discriminate. }
  destruct (daily_bias (sess w1)) as [ [ | | ] | ] eqn:Hbias.
  - destruct (directional_entry_effect today pivot BULLISH CALL w1 Hinv1 Hbias eq_refl Hpivot1)
      as (w' & Hrun & Hinv' & Heff).
    exists w'. split; [ exact Hrun | ]. split; [ exact Hinv' | ].
    split; [ | intros Hn; destruct (Hdirectional BULLISH CALL eq_refl eq_refl Hn) ].
    apply (quiet_effect _ _ _ _ _ Hq1).
    refine (effect_weaken _ _ _ _ _ _ _ (fun _ _ _ H => H) Heff).
    intros d pv (_ & H). auto.
  - destruct (directional_entry_effect today pivot BEARISH PUT w1 Hinv1 Hbias eq_refl Hpivot1)
      as (w' & Hrun & Hinv' & Heff).
    exists w'. split; [ exact Hrun | ]. split; [ exact Hinv' | ].
    split; [ | intros Hn; destruct (Hdirectional BEARISH PUT eq_refl eq_refl Hn) ].
    apply (quiet_effect _ _ _ _ _ Hq1).
    refine (effect_weaken _ _ _ _ _ _ _ (fun _ _ _ H => H) Heff).
    intros d pv (_ & H). auto.
  - destruct (status_quiet "NO_TRADE_TODAY" w1 Hinv1) as (w2 & Hrun2 & Hinv2 & Hq2).
    rewrite (bind_ok _ _ _ _ _ Hrun2).
    destruct (event_quiet "No clear bias - no trade today" w2 Hinv2)
      as (w3 & Hrun3 & Hinv3 & Hq3).
    pose proof (quiet_trans _ _ _ Hq1 (quiet_trans _ _ _ Hq2 Hq3)) as Hq.
    exists w3. split; [ exact Hrun3 | ]. split; [ exact Hinv3 | ].
    split; [ left; exact Hq | intros _; exact Hq ].
  - exists w1. split; [ reflexivity | ]. split; [ exact Hinv1 | ].
    split; [ left; exact Hq1 | intros _; exact Hq1 ].
Qed.

(** ** Daily reset *)

Lemma fetch_and_calculate_pivot_run today w :
  fetch_and_calculate_pivot groww today w
  = Ok match get_historical_candle_data groww (candle_calls w) 1440 with
       | Some candles => pivot_of_candles today candles
       | None => None
       end
       (emit (CallCandles 1440) (tick_candles (tick_clock w))).
Proof.
  unfold fetch_and_calculate_pivot, read_clock. msimpl.
  rewrite (bind_ok _ _ _ _ _ (call_candles_run groww 1440 _)). msimpl.
  destruct (get_historical_candle_data groww (candle_calls w) 1440); reflexivity.
Qed.

(** The reset does nothing on the date it last ran on; on another date
    it clears the counters, the position and the bias, closes both
    breakers, asks once for the pivot and records the date, whatever the
    pivot computation answered. *)
Lemma reset_daily_state_run today w :
  (last_trading_date (sess w) = Some today ->
   reset_daily_state groww today w = Ok tt w)
  /\ (last_trading_date (sess w) <> Some today ->
      exists w',
        reset_daily_state groww today w = Ok tt w'
        /\ sess w'
           = mkSession 0 None (Some today)
               match get_historical_candle_data groww (candle_calls w) 1440 with
               | Some candles => pivot_of_candles today candles
               | None => None
               end
               None None None None
        /\ dash w' = dash w
        /\ candle_calls w' = S (candle_calls w)
        /\ exists tr, trace w' = (trace w ++ tr)%list /\ Forall is_io tr).
Proof.
  unfold reset_daily_state. msimpl. split.
  - intros ->. simpl. rewrite Z.eqb_refl. reflexivity.
  - intros Hnew.
    assert (Hdiff : same_date (last_trading_date (sess w)) today = false).
    { destruct (last_trading_date (sess w)) as [ d | ]; [ | reflexivity ].
      simpl. apply Z.eqb_neq. intros ->. apply Hnew. reflexivity. }
    rewrite Hdiff. unfold breaker_record_success. msimpl.
    rewrite (bind_ok _ _ _ _ _ (fetch_and_calculate_pivot_run today _)). msimpl.
    eexists. split; [ reflexivity | ]. msimpl.
    split; [ reflexivity | ]. split; [ reflexivity | ]. split; [ reflexivity | ].
    exists [RecordSuccess SpotBreaker; RecordSuccess OptionBreaker; CallCandles 1440].
    split; [ rewrite <- !app_assoc; reflexivity | repeat constructor ].
Qed.

Lemma reset_daily_state_step today w :
  session_inv w ->
  exists w',
    reset_daily_state groww today w = Ok tt w'
    /\ session_inv w'
    /\ (last_trading_date (sess w) = Some today \/ current_position (sess w) = None ->
        one_position w -> one_position w')
    /\ last_trading_date (sess w') = Some today.
Proof.
  intros Hinv. destruct (reset_daily_state_run today w) as (Hsame & Hnew).
  destruct (last_trading_date (sess w)) as [ d | ] eqn:Hdate.
  - destruct (Z.eq_dec d today) as [ -> | Hne ].
    + exists w. split; [ apply Hsame; reflexivity | ]. rewrite Hdate. auto.
    + destruct Hnew as (w' & Hrun & Hs & Hd & _ & tr & Ht & Hio); [ congruence | ].
      exists w'. split; [ exact Hrun | ].
      destruct Hinv as (_ & _ & Hdash).
      split; [ | split; [ | rewrite Hs; reflexivity ] ].
      * split; [ rewrite Hs; simpl; lia | split ].
        -- rewrite Hs. simpl. discriminate.
        -- rewrite Hd. exact Hdash.
      * intros [ Heq | Hnone ]; [ congruence | ].
        unfold one_position. rewrite Hs, Ht, (open_positions_io _ _ Hio), Hnone.
        simpl. lia.
  - destruct Hnew as (w' & Hrun & Hs & Hd & _ & tr & Ht & Hio); [ discriminate | ].
    exists w'. split; [ exact Hrun | ].
    destruct Hinv as (_ & _ & Hdash).
    split; [ | split; [ | rewrite Hs; reflexivity ] ].
    + split; [ rewrite Hs; simpl; lia | split ].
      * rewrite Hs. simpl. discriminate.
      * rewrite Hd. exact Hdash.
    + intros [ Heq | Hnone ]; [ discriminate | ].
      unfold one_position. rewrite Hs, Ht, (open_positions_io _ _ Hio), Hnone.
      simpl. lia.
Qed.

(** ** The iteration *)

(** The heartbeat raises [TypeError] on a missing time stamp, and
    otherwise changes the time stamp at most. *)
Lemma heartbeat_run today now w :
  (last_heartbeat_timestamp (sess w) = None ->
   heartbeat today now w = Raised TypeError w)
  /\ (last_heartbeat_timestamp (sess w) <> None ->
      exists t,
        heartbeat today now w
        = Ok tt (set_sess (set_last_heartbeat_timestamp t (sess w)) w)).
Proof.
  unfold heartbeat. msimpl. split.
  - intros ->. reflexivity.
  - intros Hset. destruct (last_heartbeat_timestamp (sess w)) as [ last | ] eqn:E;
      [ | exfalso; apply Hset; reflexivity ].
    destruct (heartbeat_due last today now).
    + eexists. reflexivity.
    + exists (Some last). rewrite <- E. destruct w as [ [ ] ]. reflexivity.
Qed.

Lemma heartbeat_stamp_step t w :
  session_inv w ->
  step_ok w (set_sess (set_last_heartbeat_timestamp t (sess w)) w).
Proof.
  intros Hinv. split; [ | split; [ auto | reflexivity ] ]. exact Hinv.
Qed.

(** The part of an iteration past the daily reset. *)
Definition past_reset (today now : Z) : M unit :=
  s <- gets sess;;
  match daily_pivot_point s with
  | None => add_event "Waiting for pivot calculation"
  | Some pivot =>
      match current_position s with
      | Some _ => position_management groww today now
      | None => entry_logic groww today now pivot
      end
  end.

Lemma past_reset_effect today now w :
  session_inv w ->
  runs (entry_allowed now w) (exit_reason_holds now) w (past_reset today now w)
  /\ (daily_bias (sess w) = Some NEUTRAL ->
      exists w', past_reset today now w = Ok tt w' /\ quiet w w')
  /\ ((EOD_EXIT <= now)%Z ->
      forall w', past_reset today now w = Ok tt w' -> current_position (sess w') = None).
Proof.
  intros Hinv. unfold past_reset. msimpl.
  destruct (daily_pivot_point (sess w)) as [ pivot | ] eqn:Hpivot.
  - destruct (current_position (sess w)) as [ p | ] eqn:Hpos.
    + destruct (position_management_effect today now w Hinv) as (Hruns & Hlate).
      split; [ | split; [ | exact Hlate ] ].
      * refine (runs_weaken _ _ _ _ _ _ _ (fun _ _ _ H => H) Hruns). intros d pv [].
      * intros Hneutral. exfalso. destruct Hinv as (_ & Hok & _).
        destruct (Hok p Hpos) as (_ & _ & (b & Hb & Hdir) & _).
        rewrite Hneutral in Hb. inversion Hb; subst b. discriminate.
    + destruct (entry_logic_effect today now pivot w Hinv Hpivot)
        as (w' & Hrun & Hinv' & Heff & Hneutral).
      assert (Heff' : effect (entry_allowed now w) (exit_reason_holds now) w w').
      { refine (effect_weaken _ _ _ _ _ _ _ _ Heff).
        - intros d pv (H1 & H2 & ->). split; [ exact H1 | split; [ exact H2 | exact Hpivot ] ].
        - intros p q r []. }
      rewrite Hrun.
      split; [ split; [ exact Hinv' | exact Heff' ] | ].
      split; [ intros Hn; exists w'; split; [ reflexivity | exact (Hneutral Hn) ] | ].
      intros Hlate w'' Heq. apply ok_world in Heq. subst w''.
      destruct Heff' as [ Hq | [ Hb | Hs ] ].
      * destruct Hq as (_ & _ & -> & _). exact Hpos.
      * destruct Hb as (_ & _ & _ & _ & d & sy & sg & pv & pr & tr & (_ & Hcut & _) & _).
        unfold ENTRY_CUTOFF, EOD_EXIT in *. lia.
      * destruct Hs as (_ & _ & H & _). exact H.
  - destruct (event_quiet "Waiting for pivot calculation" w Hinv) as (w' & Hrun & Hinv' & Hq).
    rewrite Hrun.
    split; [ apply runs_ok; assumption | ].
    split; [ intros _; exists w'; split; [ reflexivity | exact Hq ] | ].
    intros _ w'' Heq. apply ok_world in Heq. subst w''.
    destruct Hq as (_ & _ & -> & _).
    destruct (current_position (sess w)) as [ p | ] eqn:Hpos; [ | reflexivity ].
    exfalso. destruct Hinv as (_ & Hok & _).
    destruct (Hok p Hpos) as (_ & _ & _ & H & _). apply H. exact Hpivot.
Qed.

(** The iteration past a heartbeat that found its stamp, on a trading
    day: the daily reset, then the rest. *)
Lemma loop_body_on_trading_day today now w :
  session_inv w -> last_heartbeat_timestamp (sess w) <> None ->
  is_trading_day today = true ->
  exists t w1,
    reset_daily_state groww today (stamped t w) = Ok tt w1
    /\ session_inv w1
    /\ (last_trading_date (sess w) = Some today \/ current_position (sess w) = None ->
        one_position w -> one_position w1)
    /\ last_trading_date (sess w1) = Some today
    /\ loop_body groww today now w = past_reset today now w1.
Proof.
  intros Hinv Hbeat Htrading.
  destruct (proj2 (heartbeat_run today now w) Hbeat) as (t & Hrunh).
  pose proof (heartbeat_stamp_step t w Hinv) as (Hinvh & _).
  fold (stamped t w) in Hrunh, Hinvh.
  destruct (reset_daily_state_step today (stamped t w) Hinvh)
    as (w1 & Hrun1 & Hinv1 & Hone1 & Hdate1).
  exists t, w1. split; [ exact Hrun1 | ]. split; [ exact Hinv1 | ].
  split; [ exact Hone1 | ]. split; [ exact Hdate1 | ].
  unfold loop_body.
  rewrite (bind_ok _ _ _ _ _ Hrunh), Htrading. cbn [negb].
  rewrite (bind_ok _ _ _ _ _ Hrun1). reflexivity.
Qed.

(** The handler of the loop turns the journal's [OSError] into an event
    on the dashboard. *)
Lemma tick_of_runs E J today now w w1 :
  runs E J w1 (loop_body groww today now w) ->
  exists w',
    tick groww today now w = Ok tt w' /\ session_inv w'
    /\ (loop_body groww today now w = Ok tt w' /\ effect E J w1 w'
        \/ (exists w2, loop_body groww today now w = Raised OSError w2)
           /\ sold_unbooked J w1 w').
Proof.
  unfold tick, try_except. intros (Hinv & Hr).
  destruct (loop_body groww today now w) as [ [] w2 | e w2 ].
  - exists w2. split; [ reflexivity | ]. split; [ exact Hinv | ].
    left. split; [ reflexivity | exact Hr ].
  - destruct Hr as (-> & Hu).
    destruct (add_event_run "Error" w2) as (w' & Hrun & Hdw).
    exists w'. split; [ exact Hrun | ].
    split; [ exact (proj1 (dash_write_step _ _ Hinv Hdw)) | ].
    right. split; [ exists w2; reflexivity | ].
    exact (sold_unbooked_dash_write _ _ _ _ Hu Hdw).
Qed.

Lemma tick_of_loop_body today now w w' :
  loop_body groww today now w = Ok tt w' -> tick groww today now w = Ok tt w'.
Proof. intros H. unfold tick, try_except. rewrite H. reflexivity. Qed.

(** An iteration on a trading day whose heartbeat stamp is set: the
    stamp [t] it leaves, the globals [w1] past the daily reset, and the
    effect of the rest, by how the body ends. *)
Lemma tick_on_trading_day today now w :
  session_inv w -> last_heartbeat_timestamp (sess w) <> None ->
  is_trading_day today = true ->
  exists t w1 w',
    reset_daily_state groww today (stamped t w) = Ok tt w1
    /\ session_inv w1
    /\ tick groww today now w = Ok tt w'
    /\ session_inv w'
    /\ (loop_body groww today now w = Ok tt w'
        /\ effect (entry_allowed now w1) (exit_reason_holds now) w1 w'
        \/ (exists w2, loop_body groww today now w = Raised OSError w2)
           /\ sold_unbooked (exit_reason_holds now) w1 w')
    /\ (daily_bias (sess w1) = Some NEUTRAL -> quiet w1 w')
    /\ ((EOD_EXIT <= now)%Z -> loop_body groww today now w = Ok tt w' ->
        current_position (sess w') = None).
Proof.
  intros Hinv Hbeat Htrading.
  destruct (loop_body_on_trading_day today now w Hinv Hbeat Htrading)
    as (t & w1 & Hrun1 & Hinv1 & _ & _ & Hbody).
  destruct (past_reset_effect today now w1 Hinv1) as (Hruns & Hneutral & Hlate).
  rewrite <- Hbody in Hruns, Hneutral, Hlate.
  destruct (tick_of_runs _ _ today now w w1 Hruns) as (w' & Hrun & Hinv' & Heff).
  exists t, w1, w'. split; [ exact Hrun1 | ]. split; [ exact Hinv1 | ].
  split; [ exact Hrun | ]. split; [ exact Hinv' | ]. split; [ exact Heff | ].
  split.
  - intros Hn. destruct (Hneutral Hn) as (w2 & Heq & Hq).
    destruct Heff as [ (Hok & _) | ((w3 & Hraised) & _) ].
    + rewrite Hok in Heq. apply ok_world in Heq. subst w2. exact Hq.
    + rewrite Hraised in Heq. discriminate Heq.
  - intros Hnow Hok. exact (Hlate Hnow w' Hok).
Qed.

(** An iteration that finds no heartbeat stamp reports the error to the
    dashboard and does nothing else. *)
Lemma tick_without_heartbeat today now w :
  last_heartbeat_timestamp (sess w) = None ->
  tick groww today now w = add_event "Error" w.
Proof.
  intros Hnone. unfold tick, try_except, loop_body.
  rewrite (bind_raised _ _ _ _ _ (proj1 (heartbeat_run today now w) Hnone)).
  reflexivity.
Qed.

(** An iteration off a trading day shows the market closed and does
    nothing else. *)
Lemma tick_off_trading_day today now w :
  session_inv w -> last_heartbeat_timestamp (sess w) <> None ->
  is_trading_day today = false ->
  exists t w',
    tick groww today now w = Ok tt w' /\ session_inv w'
    /\ quiet (stamped t w) w'.
Proof.
  intros Hinv Hbeat Hclosed.
  destruct (proj2 (heartbeat_run today now w) Hbeat) as (t & Hrunh).
  pose proof (heartbeat_stamp_step t w Hinv) as (Hinvh & _).
  destruct (status_quiet "MARKET_CLOSED" _ Hinvh) as (w' & Hrun & Hinv' & Hq).
  exists t, w'. split; [ | auto ].
  apply tick_of_loop_body. unfold loop_body.
  rewrite (bind_ok _ _ _ _ _ Hrunh), Hclosed. exact Hrun.
Qed.

(** An iteration on the trading date the session is in: whatever the
    heartbeat does, the rest places one order at most. *)
Lemma tick_same_date today now w :
  session_inv w -> last_trading_date (sess w) = Some today ->
  exists t w',
    tick groww today now w = Ok tt w' /\ session_inv w'
    /\ (effect (fun d pv => is_trading_day today = true /\ entry_allowed now w d pv)
               (exit_reason_holds now) (stamped t w) w'
        \/ sold_unbooked (exit_reason_holds now) (stamped t w) w')
    /\ (daily_bias (sess w) = Some NEUTRAL -> quiet (stamped t w) w').
Proof.
  intros Hinv Hdate.
  destruct (last_heartbeat_timestamp (sess w)) as [ last | ] eqn:Hbeat.
  2:{ destruct (event_quiet "Error" w Hinv) as (w' & Hrun & Hinv' & Hq).
      exists None, w'. rewrite tick_without_heartbeat by exact Hbeat.
      split; [ exact Hrun | ]. split; [ exact Hinv' | ].
      assert (Hq' : quiet (stamped None w) w').
      { destruct Hq as ((Hh & Hd & Hp & Hb) & Hc & Hpos & Htr).
        unfold quiet, frame, stamped. msimpl. rewrite Hh, Hbeat. auto 10. }
      split; [ left; left; exact Hq' | intros _; exact Hq' ]. }
  destruct (is_trading_day today) eqn:Htrading.
  2:{ destruct (tick_off_trading_day today now w Hinv) as (t & w' & Hrun & Hinv' & Hq);
        [ rewrite Hbeat; discriminate | exact Htrading | ].
      exists t, w'. split; [ exact Hrun | ]. split; [ exact Hinv' | ].
      split; [ left; left; exact Hq | intros _; exact Hq ]. }
  destruct (tick_on_trading_day today now w Hinv) as
      (t & w1 & w' & Hrun1 & _ & Hrun & Hinv' & Heff & Hneutral & _);
    [ rewrite Hbeat; discriminate | exact Htrading | ].
  rewrite (proj1 (reset_daily_state_run today _)) in Hrun1 by exact Hdate.
  apply ok_world in Hrun1. subst w1.
  exists t, w'. split; [ exact Hrun | ]. split; [ exact Hinv' | ].
  split; [ | exact Hneutral ].
  destruct Heff as [ (_ & Heff) | (_ & Hu) ]; [ left | right; exact Hu ].
  refine (effect_weaken _ _ _ _ _ _ _ (fun _ _ _ H => H) Heff).
  intros d pv H. split; [ reflexivity | exact H ].
Qed.

(** What an iteration keeps of the session when it does not start a new
    trading date. *)
Definition same_session_day (w w' : World) : Prop :=
  last_trading_date (sess w') = last_trading_date (sess w)
  /\ current_position (sess w') = current_position (sess w).

(** How the body of an iteration ends: the heartbeat's [TypeError] with
    nothing changed, a return, or the journal's [OSError]. *)
Lemma loop_body_step today now w :
  session_inv w ->
  (last_heartbeat_timestamp (sess w) = None
   /\ loop_body groww today now w = Raised TypeError w)
  \/ exists w',
       (loop_body groww today now w = Ok tt w'
        \/ loop_body groww today now w = Raised OSError w')
       /\ session_inv w'
       /\ (last_trading_date (sess w) = Some today \/ current_position (sess w) = None ->
           one_position w -> one_position w')
       /\ (last_trading_date (sess w') = Some today \/ same_session_day w w').
Proof.
  intros Hinv.
  destruct (last_heartbeat_timestamp (sess w)) as [ last | ] eqn:Hbeat.
  2:{ left. split; [ reflexivity | ]. unfold loop_body.
      rewrite (bind_raised _ _ _ _ _ (proj1 (heartbeat_run today now w) Hbeat)).
      reflexivity. }
  right.
  assert (Hset : last_heartbeat_timestamp (sess w) <> None)
    by (rewrite Hbeat; discriminate).
  destruct (is_trading_day today) eqn:Htrading.
  2:{ destruct (proj2 (heartbeat_run today now w) Hset) as (t & Hrunh).
      pose proof (heartbeat_stamp_step t w Hinv) as (Hinvh & _).
      destruct (status_quiet "MARKET_CLOSED" _ Hinvh) as (w' & Hrun & Hinv' & Hq).
      exists w'. split.
      { left. unfold loop_body. rewrite (bind_ok _ _ _ _ _ Hrunh), Htrading. exact Hrun. }
      split; [ exact Hinv' | ].
      split.
      - intros _ Hone. apply (effect_one_position never_buys never_sells _ _
                                 (or_introl (or_introl Hq))). exact Hone.
      - right. destruct Hq as ((_ & Hd & _) & _ & Hp & _). split; assumption. }
  destruct (loop_body_on_trading_day today now w Hinv Hset Htrading)
    as (t & w1 & Hrun1 & Hinv1 & Hone1 & Hdate1 & Hbody).
  destruct (past_reset_effect today now w1 Hinv1) as ((Hinv' & Hr) & _ & _).
  rewrite <- Hbody in Hinv', Hr.
  destruct (loop_body groww today now w) as [ [] w' | e w' ].
  - exists w'. split; [ left; reflexivity | ]. split; [ exact Hinv' | ].
    split.
    + intros Hfresh Hone. exact (effect_one_position _ _ _ _ (or_introl Hr) (Hone1 Hfresh Hone)).
    + left. rewrite (effect_date _ _ _ _ (or_introl Hr)). exact Hdate1.
  - destruct Hr as (-> & Hu).
    exists w'. split; [ right; reflexivity | ]. split; [ exact Hinv' | ].
    split.
    + intros Hfresh Hone.
      exact (effect_one_position never_buys _ _ _ (or_intror Hu) (Hone1 Hfresh Hone)).
    + left. rewrite (effect_date never_buys _ _ _ (or_intror Hu)). exact Hdate1.
Qed.

(** An iteration inside its handler always completes. *)
Lemma tick_step today now w :
  session_inv w ->
  exists w',
    tick groww today now w = Ok tt w'
    /\ session_inv w'
    /\ (last_trading_date (sess w) = Some today \/ current_position (sess w) = None ->
        one_position w -> one_position w')
    /\ (last_trading_date (sess w') = Some today \/ same_session_day w w').
Proof.
  intros Hinv.
  destruct (loop_body_step today now w Hinv)
    as [ (_ & Hraised) | (w' & [ Hrun | Hrun ] & Hinv' & Hone & Hdate) ].
  - unfold tick, try_except. rewrite Hraised. eexists. split; [ reflexivity | ].
    split; [ exact Hinv | ]. split; [ auto | right; split; reflexivity ].
  - exists w'. split; [ apply tick_of_loop_body; exact Hrun | auto ].
  - unfold tick, try_except. rewrite Hrun.
    destruct (add_event_run "Error" w') as (w'' & Hrun' & Hdw).
    exists w''. split; [ exact Hrun' | ].
    destruct (dash_write_step _ _ Hinv' Hdw) as (Hinv'' & Hone' & Hd').
    split; [ exact Hinv'' | ]. split; [ auto | ].
    unfold same_session_day. rewrite (dash_write_sess _ _ Hdw). exact Hdate.
Qed.

(** The invariant holds along every run, whatever the dates. *)
Lemma run_session_inv ticks :
  forall w, session_inv w -> session_inv (run groww ticks w).
Proof.
  induction ticks as [ | [ today now ] ticks IH ]; intros w Hinv; [ exact Hinv | ].
  cbn [run]. destruct (tick_step today now w Hinv) as (w' & Hrun & Hinv' & _).
  rewrite Hrun. cbn [world_of]. apply IH. exact Hinv'.
Qed.

(** The state of a trading date: the invariant, the orders not yet
    closed within the bound of the open position, and no position
    carried in from another date. *)
Definition day_state (today : Z) (w : World) : Prop :=
  session_inv w /\ one_position w
  /\ (last_trading_date (sess w) = Some today \/ current_position (sess w) = None).

Lemma run_day_state today times :
  forall w, day_state today w ->
            day_state today (run groww (map (pair today) times) w).
Proof.
  induction times as [ | now times IH ]; intros w Hday; [ exact Hday | ].
  destruct Hday as (Hinv & Hone & Hfresh).
  cbn [map run].
  destruct (tick_step today now w Hinv) as (w' & Hrun & Hinv' & Hone' & Hdate').
  rewrite Hrun. cbn [world_of]. apply IH.
  split; [ exact Hinv' | split; [ auto | ] ].
  destruct Hdate' as [ Hd | (Hd & Hp) ]; [ left; exact Hd | rewrite Hd, Hp; exact Hfresh ].
Qed.

(** The daily reset of [main] and the loop's time stamp keep the state
    of the date. *)
Lemma startup_day_state today start w :
  day_state today w ->
  day_state today
    (set_sess (set_last_heartbeat_timestamp (Some start)
                 (sess (world_of (reset_daily_state groww today w))))
       (world_of (reset_daily_state groww today w))).
Proof.
  intros (Hinv & Hone & Hfresh).
  destruct (reset_daily_state_step today w Hinv) as (w1 & Hrun & Hinv1 & Hone1 & Hdate1).
  rewrite Hrun. cbn [world_of].
  split; [ exact Hinv1 | split; [ exact (Hone1 Hfresh Hone) | left; exact Hdate1 ] ].
Qed.

End Lifecycle.

Lemma initial_world_day_state today : day_state today initial_world.
Proof.
  split; [ | split; [ apply Nat.le_refl | right; reflexivity ] ].
  split; [ unfold MAX_DAILY_TRADES; simpl; lia | split; simpl; discriminate ].
Qed.

(* ================================================================== *)
(** * A trading day, for the concrete runs below *)
(* ================================================================== *)

Module Scenario.

(** Tuesday 3 November 2026, a trading day. *)
Definition day : Z := date 2026 11 3.

(** The daily candles of 2 November (H 18600, L 18400, C 18500) and of
    3 November, stamped 09:15 IST. *)
Definition yesterday_candle : RawCandle := mkRaw 1793615400 18450 18600 18400 18500 0.
Definition today_candle : RawCandle := mkRaw 1793701800 18500 18550 18480 18510 0.

Definition contract : Instrument := mkInstrument "NIFTY26N0318500CE" "FNO" 65 18500.

(** Collaborators that answer the quote requests from the list [quotes]
    in turn (and nothing past its end), and the [n]-th request for daily
    candles with [daily n]. *)
Definition broker (quotes : list (option Q)) (daily : nat -> option (list RawCandle))
    : Groww :=
  mkGroww
    (fun n _ _ => nth n quotes None)
    (fun n interval => if (interval =? 1440)%Z then daily n else Some [today_candle])
    (fun n => 1000 + inject_Z (Z.of_nat n))
    (fun today => Some (today + 2)%Z)
    (fun _ _ _ => Some contract)
    (fun _ => true).

Definition both_days (n : nat) : option (list RawCandle) :=
  Some [yesterday_candle; today_candle].

(** Spot 18505 inside the pivot zone; the option read at 100 twice, then
    at 105 twice while monitoring; no quote after that. *)
Definition quiet_day : Groww :=
  broker [Some 18505; Some 100; Some 100; Some 105; Some 105] both_days.

(** [quiet_day] with a journal file that cannot be written. *)
Definition journal_down : Groww :=
  mkGroww (get_ltp quiet_day) (get_historical_candle_data quiet_day)
          (time_time quiet_day) (get_nearest_valid_expiry quiet_day)
          (find_option_instrument quiet_day) (fun _ => false).

(** A candle of 2 November whose mean needs rounding: H the double
    18520.035, L 18500, C 18520. *)
Definition uneven_candle : RawCandle :=
  mkRaw 1793615400 18450 (5090748457329623 # 274877906944) 18500 18520 0.

Definition uneven_day : Groww :=
  broker [] (fun _ => Some [uneven_candle; today_candle]).

(** A feed whose first two quotes are the double 50.25. *)
Definition tie_day : Groww := broker [Some (201 # 4); Some (201 # 4)] both_days.

(** [quiet_day] with the quote 111 after the entry at 100, and the same
    with a journal file that cannot be written. *)
Definition target_day : Groww :=
  broker [Some 18505; Some 100; Some 100; Some 111] both_days.

Definition target_day_down : Groww :=
  mkGroww (get_ltp target_day) (get_historical_candle_data target_day)
          (time_time target_day) (get_nearest_valid_expiry target_day)
          (find_option_instrument target_day) (fun _ => false).




(** The daily feed lags: the first answer holds today's candle only, the
    later ones hold yesterday's as well. *)
Definition lagging_day : Groww :=
  broker [Some 18505; Some 100; Some 100]
         (fun n => match n with
                   | O => Some [today_candle]
                   | S _ => Some [yesterday_candle; today_candle]
                   end).

(** The program is started at 09:00. *)
Definition opening : Z * Z := (day, hhmm 9 0).

(** The globals on [quiet_day] after the reset of [main]: the pivot is
    18500 and the bias is not taken yet. *)
Definition after_reset : World :=
  world_of (reset_daily_state quiet_day day initial_world).

(** The globals on [quiet_day] after the iterations of 10:00 and 10:01:
    a position open at 100 and last quoted at 105. *)
Definition in_trade_at_105 : World :=
  main quiet_day opening [(day, hhmm 10 0); (day, hhmm 10 1)].

End Scenario.

(* ================================================================== *)
(** * Properties of the position lifecycle *)
(* ================================================================== *)

(** ** C1 *)

(** The risk invariants of the session, the positions open read off the
    orders placed. *)
Definition risk_invariants (w : World) : Prop :=
  (executed_trades_count (sess w) <= MAX_DAILY_TRADES)%nat
  /\ (current_position (sess w) <> None -> (1 <= executed_trades_count (sess w))%nat)
  /\ (open_positions (trace w)
      <= match current_position (sess w) with Some _ => 1 | None => 0 end)%nat
  /\ (forall p, current_position (sess w) = Some p ->
        daily_bias (sess w) = Some BULLISH /\ p_direction p = CALL
        \/ daily_bias (sess w) = Some BEARISH /\ p_direction p = PUT).

Lemma risk_invariants_of_inv w : session_inv w -> one_position w -> risk_invariants w.
Proof.
  intros (Hcap & Hok & _) Hone.
  split; [ exact Hcap | ]. split; [ | split; [ exact Hone | ] ].
  - intros Hopen. destruct (current_position (sess w)) as [ p | ] eqn:Hpos;
      [ | exfalso; apply Hopen; reflexivity ].
    destruct (Hok p eq_refl) as (Hcount & _). exact Hcount.
  - intros p Hp. destruct (Hok p Hp) as (_ & _ & (b & Hb & Hdir) & _).
    destruct b; simpl in Hdir; inversion Hdir; auto.
Qed.

Lemma risk_invariants_of_effect E J w w' :
  one_position w -> session_inv w' -> effect E J w w' -> risk_invariants w'.
Proof.
  intros Hone Hinv Heff. apply risk_invariants_of_inv; [ exact Hinv | ].
  exact (effect_one_position _ _ _ _ (or_introl Heff) Hone).
Qed.

Lemma risk_invariants_of_runs E J w r :
  one_position w -> runs E J w r -> risk_invariants (world_of r).
Proof.
  intros Hone (Hinv & Hr). apply risk_invariants_of_inv; [ exact Hinv | ].
  destruct r as [ u w' | e w' ]; cbn [world_of] in *.
  - exact (effect_one_position _ _ _ _ (or_introl Hr) Hone).
  - destruct Hr as (_ & Hu). exact (effect_one_position E _ _ _ (or_intror Hu) Hone).
Qed.

(** C1. From globals that satisfy the invariant and carry no position
    from another date, after any number of iterations on one trading
    date: the trade count does not exceed MAX_DAILY_TRADES; an open
    position comes with a count of at least 1; the orders placed have
    left one position open at most, and none when the globals hold no
    position; and an open position is a CALL under a BULLISH bias or a
    PUT under a BEARISH one.  The same holds of the globals that each
    operation of the lifecycle leaves when run from there, whether it
    returns or the journal's write raises: the daily reset, the bias
    determination, the stop-loss and profit-target checks, the forced
    exit, an exit at any price, and an entry in the direction of the
    bias. *)
Theorem session_risk_invariants groww today times w0 :
  day_state today w0 ->
  let w := run groww (map (pair today) times) w0 in
  risk_invariants w
  /\ risk_invariants (world_of (reset_daily_state groww today w))
  /\ (forall now, risk_invariants (world_of (determine_daily_bias groww today now w)))
  /\ risk_invariants (world_of (check_stop_loss groww today w))
  /\ risk_invariants (world_of (check_profit_target groww today w))
  /\ risk_invariants (world_of (force_eod_exit groww today w))
  /\ (forall exit_price reason,
        risk_invariants (world_of (exit_position groww today exit_price reason w)))
  /\ (forall bias direction symbol segment pivot,
        daily_bias (sess w) = Some bias ->
        direction_of_bias bias = Some direction ->
        daily_pivot_point (sess w) <> None ->
        risk_invariants
          (world_of (enter_position groww direction symbol segment pivot w))).
Proof.
  intros Hday w.
  destruct (run_day_state groww today times w0 Hday) as (Hinv & Hone & Hfresh).
  fold w in Hinv, Hone, Hfresh.
  split; [ apply risk_invariants_of_inv; assumption | ].
  split.
  { destruct (reset_daily_state_step groww today w Hinv) as (w' & Hrun & Hinv' & Hone' & _).
    rewrite Hrun. apply risk_invariants_of_inv; auto. }
  split.
  { intros now.
    destruct (determine_daily_bias_quiet groww today now w Hinv) as (w' & Hrun & Hinv' & Hq).
    rewrite Hrun.
    exact (risk_invariants_of_effect never_buys never_sells _ _ Hone Hinv' (or_introl Hq)). }
  split.
  { rewrite check_stop_loss_monitor.
    exact (risk_invariants_of_runs _ _ _ _ Hone (monitor_effect groww today _ _ w Hinv)). }
  split.
  { rewrite check_profit_target_monitor.
    exact (risk_invariants_of_runs _ _ _ _ Hone (monitor_effect groww today _ _ w Hinv)). }
  split.
  { exact (risk_invariants_of_runs _ _ _ _ Hone
             (proj1 (force_eod_exit_effect groww today w Hinv))). }
  split.
  { intros exit_price reason.
    destruct (current_position (sess w)) as [ p | ] eqn:Hpos.
    - exact (risk_invariants_of_runs _ _ _ _ Hone
               (exit_position_sold groww (fun _ _ _ => True) today exit_price reason w p
                  Hinv Hpos I)).
    - unfold exit_position. cbn [bind gets]. rewrite Hpos.
      apply risk_invariants_of_inv; assumption. }
  intros bias direction symbol segment pivot Hbias Hdir Hpivot.
  destruct (enter_position_effect groww direction symbol segment pivot w Hinv)
    as (r & w' & Hrun & Hinv' & Heff); [ exists bias; auto | exact Hpivot | ].
  rewrite Hrun. exact (risk_invariants_of_effect _ _ _ _ Hone Hinv' Heff).
Qed.

Lemma main_day_state groww start :
  day_state (fst start)
    (set_sess (set_last_heartbeat_timestamp (Some start)
                 (sess (world_of (reset_daily_state groww (fst start) initial_world))))
       (world_of (reset_daily_state groww (fst start) initial_world))).
Proof. apply startup_day_state. apply initial_world_day_state. Qed.

Lemma main_session_inv groww start ticks : session_inv (main groww start ticks).
Proof.
  unfold main, run_trading_loop. apply run_session_inv.
  exact (proj1 (main_day_state groww start)).
Qed.

(** On [Scenario.quiet_day], started at 09:00, the iterations of 10:00
    and 10:01 leave a CALL open under a BULLISH bias, one trade counted,
    one position open.  On [Scenario.journal_down], where the journal
    cannot be written, the forced exit then sells and keeps the
    position, and the invariants hold of what it leaves. *)
Lemma session_risk_invariants_witness :
  let w0 := run_trading_loop Scenario.quiet_day Scenario.opening []
              Scenario.after_reset in
  day_state Scenario.day w0
  /\ (let w := run Scenario.quiet_day
                 (map (pair Scenario.day) [hhmm 10 0; hhmm 10 1]) w0 in
      (exists p, current_position (sess w) = Some p)
      /\ risk_invariants w
      /\ risk_invariants (world_of (force_eod_exit Scenario.quiet_day Scenario.day w)))
  /\ (let w := run Scenario.journal_down
                 (map (pair Scenario.day) [hhmm 10 0; hhmm 10 1]) w0 in
      (exists p w',
          force_eod_exit Scenario.journal_down Scenario.day w = Raised OSError w'
          /\ current_position (sess w') = Some p)
      /\ risk_invariants (world_of (force_eod_exit Scenario.journal_down Scenario.day w))).
Proof.
  intros w0.
  assert (Hday : day_state Scenario.day w0)
    by exact (main_day_state Scenario.quiet_day Scenario.opening).
  split; [ exact Hday | ]. cbv zeta.
  split.
  - split; [ eexists; vm_compute; reflexivity | ].
    destruct (session_risk_invariants Scenario.quiet_day Scenario.day
                [hhmm 10 0; hhmm 10 1] w0 Hday) as (Hnow & _ & _ & _ & _ & Hexit & _).
    split; assumption.
  - split; [ eexists; eexists; split; vm_compute; reflexivity | ].
    destruct (session_risk_invariants Scenario.journal_down Scenario.day
                [hhmm 10 0; hhmm 10 1] w0 Hday) as (_ & _ & _ & _ & _ & Hexit & _).
    exact Hexit.
Defined.

(** ** C2 *)





(** ** C3 *)





Lemma scenario_in_trade_inv : session_inv Scenario.in_trade_at_105.
Proof. apply main_session_inv. Qed.



(** ** C5 *)

(** An iteration that finds the date already recorded and the pivot
    missing leaves both as they are and asks for no candles. *)
Lemma pivot_missing_tick groww today now w :
  last_trading_date (sess w) = Some today ->
  daily_pivot_point (sess w) = None ->
  exists w', tick groww today now w = Ok tt w'
    /\ last_trading_date (sess w') = Some today
    /\ daily_pivot_point (sess w') = None
    /\ candle_calls w' = candle_calls w.
Proof.
  intros Hdate Hpivot. unfold tick, try_except, loop_body.
  destruct (heartbeat_run today now w) as (Hmissing & Hstamped).
  destruct (last_heartbeat_timestamp (sess w)) as [ last | ] eqn:Hbeat.
  2:{ rewrite (bind_raised _ _ _ _ _ (Hmissing eq_refl)).
      eexists. split; [ reflexivity | ]. auto. }
  destruct Hstamped as (t & Hrunh); [ discriminate | ].
  rewrite (bind_ok _ _ _ _ _ Hrunh).
  set (wh := set_sess (set_last_heartbeat_timestamp t (sess w)) w).
  assert (Hdateh : last_trading_date (sess wh) = Some today) by exact Hdate.
  destruct (is_trading_day today); cbn [negb].
  - rewrite (bind_ok _ _ _ _ _ (proj1 (reset_daily_state_run groww today wh) Hdateh)).
    cbn [bind gets].
    assert (Hpivoth : daily_pivot_point (sess wh) = None) by exact Hpivot.
    rewrite Hpivoth. eexists. split; [ reflexivity | ]. auto.
  - eexists. split; [ reflexivity | ]. auto.
Qed.

Lemma pivot_missing_run groww today times :
  forall w,
    last_trading_date (sess w) = Some today ->
    daily_pivot_point (sess w) = None ->
    let w' := run groww (map (pair today) times) w in
    last_trading_date (sess w') = Some today
    /\ daily_pivot_point (sess w') = None
    /\ candle_calls w' = candle_calls w.
Proof.
  induction times as [ | now times IH ]; intros w Hdate Hpivot; [ cbv zeta; auto | ].
  cbn [map run].
  destruct (pivot_missing_tick groww today now w Hdate Hpivot)
    as (w' & Hrun & Hd & Hp & Hc).
  rewrite Hrun. cbn [world_of].
  destruct (IH w' Hd Hp) as (Hd' & Hp' & Hc').
  cbv zeta. split; [ exact Hd' | split; [ exact Hp' | congruence ] ].
Qed.

(** C5, on the code: when the candles asked for at the daily reset hold
    no completed day (or the request fails), the pivot stays unavailable
    through every iteration the loop makes on that date, and no further
    request for daily candles is made, whatever the feed would answer. *)
Theorem pivot_unavailable_never_retried groww today start times w0 :
  last_trading_date (sess w0) <> Some today ->
  (forall candles,
     get_historical_candle_data groww (candle_calls w0) 1440 = Some candles ->
     forall c, In c candles -> (today <= candle_date c)%Z) ->
  let w1 := world_of (reset_daily_state groww today w0) in
  let w := run_trading_loop groww start (map (pair today) times) w1 in
  daily_pivot_point (sess w) = None
  /\ last_trading_date (sess w) = Some today
  /\ candle_calls w = S (candle_calls w0).
Proof.
  intros Hnew Hlag w1 w.
  destruct (proj2 (reset_daily_state_run groww today w0) Hnew)
    as (w1' & Hrun1 & Hs1 & _ & Hc1 & _).
  assert (Hw1 : w1 = w1') by (subst w1; rewrite Hrun1; reflexivity).
  assert (Hnone : match get_historical_candle_data groww (candle_calls w0) 1440 with
                  | Some candles => pivot_of_candles today candles
                  | None => None
                  end = None).
  { destruct (get_historical_candle_data groww (candle_calls w0) 1440) as [ candles | ];
      [ | reflexivity ].
    apply (proj1 (PivotFacts.pivot_of_candles_spec today candles)).
    apply Hlag. reflexivity. }
  rewrite Hnone in Hs1.
  subst w. unfold run_trading_loop.
  destruct (pivot_missing_run groww today times
              (set_sess (set_last_heartbeat_timestamp (Some start) (sess w1)) w1))
    as (Hd & Hp & Hc).
  { msimpl. rewrite Hw1, Hs1. reflexivity. }
  { msimpl. rewrite Hw1, Hs1. reflexivity. }
  split; [ exact Hp | split; [ exact Hd | ] ].
  rewrite Hc. msimpl. rewrite Hw1. exact Hc1.
Qed.

(** On [Scenario.lagging_day] the answer to the reset's request holds
    today's candle only; yesterday's is on offer from the second request
    on, and after four iterations the pivot is still missing. *)
Lemma pivot_unavailable_never_retried_witness :
  get_historical_candle_data Scenario.lagging_day 1 1440
  = Some [Scenario.yesterday_candle; Scenario.today_candle]
  /\ pivot_of_candles Scenario.day [Scenario.yesterday_candle; Scenario.today_candle]
     = Some 18500
  /\ let w := main Scenario.lagging_day Scenario.opening
                (map (pair Scenario.day) [hhmm 9 10; hhmm 9 30; hhmm 10 0; hhmm 11 0]) in
     daily_pivot_point (sess w) = None
     /\ last_trading_date (sess w) = Some Scenario.day
     /\ candle_calls w = 1%nat.
Proof.
  split; [ reflexivity | ]. split; [ reflexivity | ].
  apply (pivot_unavailable_never_retried Scenario.lagging_day Scenario.day
           Scenario.opening [hhmm 9 10; hhmm 9 30; hhmm 10 0; hhmm 11 0] initial_world).
  - discriminate.
  - intros candles Hresp c Hin. vm_compute in Hresp. inversion Hresp; subst candles.
    destruct Hin as [ <- | [] ]. vm_compute. discriminate.
Defined.

(** ** C10 *)

(** C10. Both fetches always return, and what they return is within
    their range.  A position that [enter_position] opens has an entry
    price of at least MIN_OPTION_PRICE, hence positive.  In the globals
    the program reaches, whenever it is started and whatever iterations
    it makes, an open position has a positive entry price, dividing by
    it raises nothing, and no iteration raises [ZeroDivisionError]. *)
Theorem prices_within_plausible_range groww :
  (forall w, exists r w',
      fetch_spot_price groww w = Ok r w'
      /\ forall p, r = Some p -> MIN_SPOT_PRICE <= p /\ p <= MAX_SPOT_PRICE)
  /\ (forall symbol segment w, exists r w',
        fetch_option_price groww symbol segment w = Ok r w'
        /\ forall p, r = Some p -> MIN_OPTION_PRICE <= p /\ p <= MAX_OPTION_PRICE)
  /\ (forall direction symbol segment pivot w position w',
        enter_position groww direction symbol segment pivot w = Ok (Some position) w' ->
        MIN_OPTION_PRICE <= p_entry_price position /\ 0 < p_entry_price position)
  /\ (forall start ticks,
        let w := main groww start ticks in
        (forall p, current_position (sess w) = Some p ->
           MIN_OPTION_PRICE <= p_entry_price p /\ 0 < p_entry_price p
           /\ forall exit_price,
                py_div (exit_price - p_entry_price p) (p_entry_price p) w
                = Ok ((exit_price - p_entry_price p) / p_entry_price p) w)
        /\ forall today now w',
             loop_body groww today now w <> Raised ZeroDivisionError w').
Proof.
  assert (Hpos : forall x, MIN_OPTION_PRICE <= x -> 0 < x).
  { unfold MIN_OPTION_PRICE. intros x H. lra. }
  split; [ | split; [ | split ] ].
  - intros w. destruct (fetch_spot_price_run groww w) as (r & w' & Hrun & _ & Hr).
    exists r, w'. auto.
  - intros symbol segment w.
    destruct (fetch_option_price_run groww symbol segment w) as (r & w' & Hrun & _ & Hr).
    exists r, w'. auto.
  - intros direction symbol segment pivot w position w' Hrun.
    destruct (enter_position_run groww direction symbol segment pivot w) as (Hblocked & Hfree).
    destruct (le_lt_dec MAX_DAILY_TRADES (executed_trades_count (sess w))) as [ Hcap | Hlt ].
    { rewrite Hblocked in Hrun by (left; exact Hcap). discriminate. }
    destruct (current_position (sess w)) as [ p | ] eqn:Hnone.
    { rewrite Hblocked in Hrun by (right; discriminate). discriminate. }
    destruct (Hfree Hlt eq_refl)
      as (first & w1 & confirm & w2 & _ & _ & _ & Habort & Henter).
    destruct (entry_prices_unusable_run first confirm w2) as (b & _ & Hb).
    destruct b.
    + destruct (Habort (proj1 Hb eq_refl)) as (w'' & Hrun' & _).
      rewrite Hrun' in Hrun. discriminate.
    + destruct Henter as (price & d & _ & Hmin & Hrun' & _).
      { intros H. apply Hb in H. discriminate. }
      cbv zeta in Hrun'. rewrite Hrun' in Hrun. inversion Hrun; subst position.
      simpl. auto.
  - intros start ticks w.
    assert (Hinv : session_inv w) by apply main_session_inv.
    split.
    + intros p Hp. destruct Hinv as (_ & Hok & _).
      destruct (Hok p Hp) as (_ & Hmin & _).
      split; [ exact Hmin | ]. split; [ apply Hpos; exact Hmin | ].
      intros exit_price. apply py_div_run. apply min_option_price_nonzero. exact Hmin.
    + intros today now w' Hraised.
      destruct (loop_body_step groww today now w Hinv)
        as [ (_ & Hrun) | (w'' & [ Hrun | Hrun ] & _) ];
        rewrite Hrun in Hraised; discriminate.
Qed.

(* ================================================================== *)
(** * Concrete runs of the fetch, the pivot and the bias *)
(* ================================================================== *)

(** A failed request, then a quote outside the spot range, then 20000:
    the third request's answer is returned after two retry delays and
    one recorded success. *)
Lemma resilient_fetch_witness :
  let g := Scenario.broker [None; Some 50000; Some 20000] Scenario.both_days in
  exists w',
    fetch_spot_price g initial_world = Ok (Some 20000) w'
    /\ ltp_calls w' = 3%nat
    /\ trace w'
       = [CallLtp "CASH" "NSE_NIFTY"; Sleep RETRY_DELAY_SEC;
          CallLtp "CASH" "NSE_NIFTY"; Sleep RETRY_DELAY_SEC;
          CallLtp "CASH" "NSE_NIFTY"; RecordSuccess SpotBreaker].
Proof.
  intros g.
  destruct (resilient_fetch g) as (Hspot & _).
  destruct (Hspot initial_world) as (_ & Hok & _ & _).
  destruct (Hok eq_refl 2%nat 20000) as (w' & Hrun & Hcalls & Htrace & _).
  - unfold MAX_RETRIES. lia.
  - intros j Hj. destruct j as [ | [ | j ] ]; [ reflexivity | reflexivity | lia ].
  - reflexivity.
  - split; vm_compute; discriminate.
  - exists w'. split; [ exact Hrun | ]. split; [ exact Hcalls | exact Htrace ].
Defined.

(** On [Scenario.uneven_day] the pivot of 3 November comes from the
    candle of 2 November, whose mean (18520.035 + 18500 + 18520) / 3
    the doubles give as 18513.345000000001: the pivot is the double
    18513.35.  With today's candle alone, as in the first answer of
    [Scenario.lagging_day], it is unavailable. *)
Lemma pivot_from_last_completed_day_witness :
  get_historical_candle_data Scenario.uneven_day (candle_calls initial_world) 1440
  = Some [Scenario.uneven_candle; Scenario.today_candle]
  /\ (exists w',
        fetch_and_calculate_pivot Scenario.uneven_day Scenario.day initial_world
        = Ok (Some (2544455449260851 # 137438953472)) w')
  /\ (exists w',
        fetch_and_calculate_pivot Scenario.lagging_day Scenario.day initial_world
        = Ok None w').
Proof.
  split; [ reflexivity | ]. split.
  - destruct (pivot_from_last_completed_day Scenario.uneven_day Scenario.day initial_world
                [Scenario.uneven_candle; Scenario.today_candle] eq_refl)
      as (_ & Hsome & _).
    destruct Hsome as (prev & w' & Hin & Hlt & _ & Hpivot).
    { exists Scenario.uneven_candle. split; [ left; reflexivity | reflexivity ]. }
    exists w'.
    destruct Hin as [ <- | [ <- | [] ] ]; [ | vm_compute in Hlt; discriminate ].
    destruct Hpivot as (k & Hrun & Hk & _);
      [ vm_compute; reflexivity | vm_compute; reflexivity | ].
    rewrite Hrun, <- Hk. vm_compute. reflexivity.
  - destruct (pivot_from_last_completed_day Scenario.lagging_day Scenario.day initial_world
                [Scenario.today_candle] eq_refl) as (Hnone & _).
    apply Hnone. intros c [ <- | [] ]. vm_compute. discriminate.
Defined.

(** On [Scenario.quiet_day] the opening candle closes at 18510, above
    the pivot 18500: at 10:00 the bias becomes BULLISH. *)
Lemma bias_determination_witness :
  daily_pivot_point (sess Scenario.after_reset) = Some 18500
  /\ (BIAS_CANDLE_END <= hhmm 10 0)%Z
  /\ exists w',
       determine_daily_bias Scenario.quiet_day Scenario.day (hhmm 10 0)
         Scenario.after_reset = Ok tt w'
       /\ daily_bias (sess w') = Some BULLISH.
Proof.
  assert (Hnow : (BIAS_CANDLE_END <= hhmm 10 0)%Z) by (vm_compute; discriminate).
  split; [ reflexivity | ]. split; [ exact Hnow | ].
  destruct (bias_determination Scenario.quiet_day Scenario.day (hhmm 10 0)
              Scenario.after_reset 18500 eq_refl Hnow) as (Hdecide & _).
  destruct (Hdecide eq_refl Scenario.today_candle [] eq_refl) as (w' & Hrun & Hup & _).
  exists w'. split; [ exact Hrun | ]. apply Hup. reflexivity.
Defined.

(* ================================================================== *)
(** * Further properties: numbers, strike, zone, pivot and calendar *)
(* ================================================================== *)

Lemma floordiv_bounds x :
  inject_Z (py_floordiv x 100) * 100 <= x
  /\ x < inject_Z (py_floordiv x 100) * 100 + 100.
Proof.
  unfold py_floordiv.
  pose proof (Qfloor_le (x / inject_Z 100)) as Hlo.
  pose proof (Qlt_floor (x / inject_Z 100)) as Hhi.
  rewrite inject_Z_plus in Hhi.
  set (f := inject_Z (Qfloor (x / inject_Z 100))) in *.
  change (inject_Z 100) with 100 in *. change (inject_Z 1) with 1 in Hhi.
  assert (E : x == x / 100 * 100) by (field; discriminate).
  set (y := x / 100) in *. split; lra.
Qed.

Lemma inject_Z_lt_inv a b : inject_Z a < inject_Z b -> (a < b)%Z.
Proof. intros H. rewrite Zlt_Qlt. exact H. Qed.

Lemma inject_Z_le_inv a b : inject_Z a <= inject_Z b -> (a <= b)%Z.
Proof. intros H. rewrite Zle_Qle. exact H. Qed.

(** X1. For every spot the fetch accepts, both strikes lie on the
    100-point grid.  The CALL strike is the grid point at or below the
    spot, less than 100 points away.  The PUT strike is less than one
    point below the spot at the worst and less than 100 points above it;
    it is the CALL strike or the next grid point above it. *)
Theorem itm_strike_bounds spot :
  MIN_SPOT_PRICE <= spot -> spot <= MAX_SPOT_PRICE ->
  let c := calculate_itm_strike spot CALL in
  let p := calculate_itm_strike spot PUT in
  StrikeFacts.on_grid c /\ StrikeFacts.on_grid p
  /\ (inject_Z c <= spot /\ spot < inject_Z c + 100)
  /\ (spot - 1 < inject_Z p /\ inject_Z p < spot + 100)
  /\ (p = c \/ p = (c + 100)%Z).
Proof.
  unfold MIN_SPOT_PRICE, MAX_SPOT_PRICE. intros Hmin Hmax.
  cbv zeta. unfold calculate_itm_strike.
  destruct (floordiv_bounds spot) as (Hc1 & Hc2).
  destruct (floordiv_bounds (Double.add spot 99)) as (Hp1 & Hp2).
  set (a := py_floordiv spot 100) in *.
  set (b := py_floordiv (Double.add spot 99) 100) in *.
  assert (Ha : (149 <= a <= 300)%Z).
  { split; apply inject_Z_le_inv.
    - assert (H : inject_Z 148 < inject_Z a) by (change (inject_Z 148) with 148; lra).
      apply inject_Z_lt_inv in H. rewrite <- Zle_Qle. lia.
    - change (inject_Z 300) with 300. lra. }
  assert (Hint : forall n : Z, (0 <= n <= 200)%Z ->
            (Z.abs (a * 100 + n) < 2 ^ 53)%Z
            /\ inject_Z (a * 100 + n) == inject_Z a * 100 + inject_Z n).
  { intros n Hn. split; [ lia | ].
    rewrite inject_Z_plus, inject_Z_mult. reflexivity. }
  assert (Hup : forall n : Z, (0 <= n <= 200)%Z ->
            inject_Z a * 100 + inject_Z n <= spot + 99 ->
            inject_Z a * 100 + inject_Z n <= Double.add spot 99).
  { intros n Hn H. destruct (Hint n Hn) as (Hb & E). rewrite <- E.
    apply DoubleFacts.rd_int_ge; [ exact Hb | rewrite E; exact H ]. }
  assert (Hdown : forall n : Z, (0 <= n <= 200)%Z ->
            spot + 99 <= inject_Z a * 100 + inject_Z n ->
            Double.add spot 99 <= inject_Z a * 100 + inject_Z n).
  { intros n Hn H. destruct (Hint n Hn) as (Hb & E). rewrite <- E.
    apply DoubleFacts.rd_int_le; [ exact Hb | rewrite E; exact H ]. }
  pose proof (Hup 99%Z ltac:(lia)) as Hge. change (inject_Z 99) with 99 in Hge.
  specialize (Hge ltac:(lra)).
  pose proof (Hdown 199%Z ltac:(lia)) as Hle. change (inject_Z 199) with 199 in Hle.
  specialize (Hle ltac:(lra)).
  assert (Hb : b = a \/ b = (a + 1)%Z).
  { assert (H1 : inject_Z a < inject_Z (b + 1)).
    { rewrite inject_Z_plus. change (inject_Z 1) with 1. lra. }
    assert (H2 : inject_Z b < inject_Z (a + 2)).
    { rewrite inject_Z_plus. change (inject_Z 2) with 2. lra. }
    apply inject_Z_lt_inv in H1, H2. lia. }
  split; [ exists a; reflexivity | ]. split; [ exists b; reflexivity | ].
  rewrite !inject_Z_mult. change (inject_Z 100) with 100.
  split; [ split; assumption | ].
  destruct Hb as [ Hb | Hb ]; rewrite Hb in *.
  - split; [ | left; reflexivity ].
    split; [ | lra ].
    destruct (Qlt_le_dec (spot + 99) (inject_Z a * 100 + 100)) as [ H | H ]; [ lra | ].
    pose proof (Hup 100%Z ltac:(lia) H) as H'. change (inject_Z 100) with 100 in H'. lra.
  - rewrite inject_Z_plus in *. change (inject_Z 1) with 1 in *.
    split; [ | right; lia ].
    split; [ lra | ].
    destruct (Qlt_le_dec (inject_Z a * 100) spot) as [ H | H ]; [ lra | ].
    assert (H0 : spot + 99 <= inject_Z a * 100 + 99) by lra.
    pose proof (Hdown 99%Z ltac:(lia) H0) as H'. change (inject_Z 99) with 99 in H'. lra.
Qed.

(** At the spot 16300.999999999998 the sum with 99 is the double 16400:
    the CALL strike is 16300 and the PUT strike 16400, more than 99
    points above the spot. *)
Lemma itm_strike_bounds_witness :
  let spot := 8961569522188287 # 549755813888 in
  calculate_itm_strike spot CALL = 16300%Z
  /\ calculate_itm_strike spot PUT = 16400%Z
  /\ spot + 99 < 16400
  /\ (spot - 1 < inject_Z (calculate_itm_strike spot PUT)
      /\ inject_Z (calculate_itm_strike spot PUT) < spot + 100).
Proof.
  intros spot.
  split; [ vm_compute; reflexivity | ]. split; [ vm_compute; reflexivity | ].
  split; [ vm_compute; reflexivity | ].
  destruct (itm_strike_bounds spot) as (_ & _ & _ & H & _).
  - vm_compute. discriminate.
  - vm_compute. discriminate.
  - exact H.
Defined.

(** The rounding of the two edges of the zone of [pivot]. *)
Definition zone_slack (pivot : Q) : Q :=
  (Qabs pivot + 25) * Double.pow2 (-53) + Double.pow2 (-1075).

Lemma zone_edges pivot :
  Qabs (Double.sub pivot PIVOT_BUFFER_POINTS - (pivot - 25)) <= zone_slack pivot
  /\ Qabs (Double.add pivot PIVOT_BUFFER_POINTS - (pivot + 25)) <= zone_slack pivot.
Proof.
  unfold Double.sub, Double.add, PIVOT_BUFFER_POINTS, zone_slack.
  pose proof (DoubleFacts.pow2_pos (-53)) as Hc.
  assert (Hgrow : forall y, Qabs y <= Qabs pivot + 25 ->
            Qabs (Double.rd y - y)
            <= (Qabs pivot + 25) * Double.pow2 (-53) + Double.pow2 (-1075)).
  { intros y Hy. apply (Qle_trans _ _ _ (DoubleFacts.rd_rel y)).
    apply Qplus_le_compat; [ | apply Qle_refl ].
    apply Qmult_le_compat_r; [ exact Hy | apply Qlt_le_weak; exact Hc ]. }
  split; apply Hgrow.
  - apply Qabs_case; intros H1; apply Qabs_case; intros H2; lra.
  - apply Qabs_case; intros H1; apply Qabs_case; intros H2; lra.
Qed.

(** X2. The pullback zone is the closed band of PIVOT_BUFFER_POINTS on
    either side of the pivot, up to the rounding of its two edges,
    [pivot - 25] and [pivot + 25], to doubles: a spot whose distance
    from the pivot is at most 25 less that rounding is in the zone, and
    a spot in the zone is at most 25 plus that rounding away.  For a
    pivot that is a whole number the edges are exact, and the zone is
    the band, both edges included. *)
Theorem pivot_zone_is_closed_band spot pivot :
  (py_abs (spot - pivot) <= PIVOT_BUFFER_POINTS - zone_slack pivot ->
   is_in_pivot_zone spot pivot = true)
  /\ (is_in_pivot_zone spot pivot = true ->
      py_abs (spot - pivot) <= PIVOT_BUFFER_POINTS + zone_slack pivot)
  /\ (forall n : Z,
        (Z.abs n + 25 < 2 ^ 53)%Z ->
        (is_in_pivot_zone spot (inject_Z n) = true
         <-> py_abs (spot - inject_Z n) <= PIVOT_BUFFER_POINTS)).
Proof.
  assert (Habs : forall x b, py_abs x <= b <-> - b <= x /\ x <= b).
  { intros x b. unfold py_abs. destruct (Qlt_bool x 0) eqn:E.
    - apply Qlt_bool_iff in E. split; intros H; [ split | ]; lra.
    - apply Qlt_bool_false_iff in E. split; intros H; [ split | ]; lra. }
  assert (Hzone : forall s p,
            is_in_pivot_zone s p = true
            <-> Double.sub p PIVOT_BUFFER_POINTS <= s
                /\ s <= Double.add p PIVOT_BUFFER_POINTS).
  { intros s p. unfold is_in_pivot_zone. cbv zeta.
    rewrite andb_true_iff, !Qle_bool_iff. reflexivity. }
  destruct (zone_edges pivot) as (Hlo & Hhi).
  apply Qabs_Qle_condition in Hlo, Hhi.
  split; [ | split ].
  - rewrite Habs, Hzone. unfold PIVOT_BUFFER_POINTS at 1 2. intros H. split; lra.
  - rewrite Habs, Hzone. unfold PIVOT_BUFFER_POINTS at 3 4. intros H. split; lra.
  - intros n Hn. rewrite Habs, Hzone.
    unfold Double.sub, Double.add, PIVOT_BUFFER_POINTS.
    change 25 with (inject_Z 25).
    assert (E1 : Double.rd (inject_Z n - inject_Z 25) == inject_Z n - inject_Z 25).
    { assert (E : inject_Z n - inject_Z 25 == inject_Z (n - 25)).
      { unfold Z.sub. rewrite inject_Z_plus, inject_Z_opp. reflexivity. }
      pose proof (DoubleFacts.rd_int (n - 25) ltac:(lia)) as Hr.
      apply Qle_antisym.
      - rewrite E at 2. apply DoubleFacts.rd_int_le; [ lia | rewrite E; apply Qle_refl ].
      - rewrite E at 1. apply DoubleFacts.rd_int_ge; [ lia | rewrite E; apply Qle_refl ]. }
    assert (E2 : Double.rd (inject_Z n + inject_Z 25) == inject_Z n + inject_Z 25).
    { assert (E : inject_Z n + inject_Z 25 == inject_Z (n + 25)).
      { rewrite inject_Z_plus. reflexivity. }
      apply Qle_antisym.
      - rewrite E at 2. apply DoubleFacts.rd_int_le; [ lia | rewrite E; apply Qle_refl ].
      - rewrite E at 1. apply DoubleFacts.rd_int_ge; [ lia | rewrite E; apply Qle_refl ]. }
    rewrite E1, E2. split; intros H; split; lra.
Qed.

(** The spot 16384.08 and the pivot 16359.08, as doubles, are more than
    25 points apart, and the sum of the pivot and 25 rounds to the spot:
    the spot is in the zone. *)
Lemma pivot_zone_is_closed_band_witness :
  let spot := 1125905404400763 # 68719476736 in
  let pivot := 8993499339858903 # 549755813888 in
  PIVOT_BUFFER_POINTS < py_abs (spot - pivot)
  /\ is_in_pivot_zone spot pivot = true
  /\ py_abs (spot - pivot) <= PIVOT_BUFFER_POINTS + zone_slack pivot.
Proof.
  intros spot pivot.
  split; [ vm_compute; reflexivity | ].
  assert (Hzone : is_in_pivot_zone spot pivot = true) by (vm_compute; reflexivity).
  split; [ exact Hzone | ].
  destruct (pivot_zone_is_closed_band spot pivot) as (_ & H & _).
  exact (H Hzone).
Defined.

(** X3. For a candle with 0 <= L <= C <= H <= 1000000 the pivot lies
    within half a hundredth and a billionth, the rounding of the double
    arithmetic, of (H + L + C) / 3; hence no further than that below the
    low or above the high. *)
Theorem pivot_within_candle_range c :
  0 <= r_low c -> r_low c <= r_close c -> r_close c <= r_high c ->
  r_high c <= 1000000 ->
  Qabs (pivot_formula c - (r_high c + r_low c + r_close c) / 3)
  <= (1 # 200) + (1 # 1000000000)
  /\ r_low c - (1 # 200) - (1 # 1000000000) <= pivot_formula c
  /\ pivot_formula c <= r_high c + (1 # 200) + (1 # 1000000000).
Proof.
  intros H0 Hlo Hhi Hmax. unfold pivot_formula.
  set (h := r_high c) in *. set (l := r_low c) in *. set (cl := r_close c) in *.
  assert (E53 : Double.pow2 (-53) == 1 # 9007199254740992) by reflexivity.
  assert (Et : Double.pow2 (-1075) <= 1 # 100000000000000000000)
    by (vm_compute; discriminate).
  assert (Hrd : forall y B, Qabs y <= B ->
            Qabs (Double.rd y - y)
            <= B * (1 # 9007199254740992) + (1 # 100000000000000000000)).
  { intros y B Hy. apply (Qle_trans _ _ _ (DoubleFacts.rd_rel y)).
    rewrite E53. apply Qplus_le_compat; [ | exact Et ].
    apply Qmult_le_compat_r; [ exact Hy | discriminate ]. }
  unfold Double.div, Double.add.
  set (s1 := Double.rd (h + l)).
  assert (H1 : Qabs (s1 - (h + l))
               <= 2000000 * (1 # 9007199254740992) + (1 # 100000000000000000000)).
  { apply Hrd. apply Qabs_Qle_condition. split; lra. }
  apply Qabs_Qle_condition in H1.
  set (s2 := Double.rd (s1 + cl)).
  assert (H2 : Qabs (s2 - (s1 + cl))
               <= 4000000 * (1 # 9007199254740992) + (1 # 100000000000000000000)).
  { apply Hrd. apply Qabs_Qle_condition. split; lra. }
  apply Qabs_Qle_condition in H2.
  set (m := Double.rd (s2 / 3)).
  assert (E3 : s2 / 3 == s2 * (1 # 3)) by (field).
  assert (H3 : Qabs (m - s2 / 3)
               <= 2000000 * (1 # 9007199254740992) + (1 # 100000000000000000000)).
  { apply Hrd. rewrite E3. apply Qabs_Qle_condition. split; lra. }
  rewrite E3 in H3. apply Qabs_Qle_condition in H3.
  destruct (py_round2_spec m) as (k & -> & Hk & _).
  apply Qabs_Qle_condition in Hk.
  set (q := k # 100) in *.
  assert (H4 : Qabs (Double.rd q - q)
               <= 2000000 * (1 # 9007199254740992) + (1 # 100000000000000000000)).
  { apply Hrd. apply Qabs_Qle_condition. split; lra. }
  apply Qabs_Qle_condition in H4.
  assert (Em : (h + l + cl) / 3 == (h + l + cl) * (1 # 3)) by field.
  rewrite Em.
  split; [ apply Qabs_Qle_condition; split; lra | split; lra ].
Qed.

(** The candle of [Scenario.uneven_day]: the mean is 18513.345 and the
    pivot the double 18513.35. *)
Lemma pivot_within_candle_range_witness :
  pivot_formula Scenario.uneven_candle = (2544455449260851 # 137438953472)
  /\ r_low Scenario.uneven_candle - (1 # 200) - (1 # 1000000000)
     <= pivot_formula Scenario.uneven_candle
  /\ pivot_formula Scenario.uneven_candle
     <= r_high Scenario.uneven_candle + (1 # 200) + (1 # 1000000000).
Proof.
  split; [ vm_compute; reflexivity | ].
  destruct (pivot_within_candle_range Scenario.uneven_candle) as (_ & Hlo & Hhi).
  - vm_compute. discriminate.
  - vm_compute. discriminate.
  - vm_compute. discriminate.
  - vm_compute. discriminate.
  - split; assumption.
Defined.

(** X4. A date is a trading day exactly when it falls on Monday to
    Friday and is not in the holiday table.  The table lists dates of
    2026 only: outside that year every Monday to Friday counts as a
    trading day. *)
Theorem trading_day_calendar d :
  (is_trading_day d = true <-> (weekday d < 5)%Z /\ ~ In d HOLIDAYS_2026)
  /\ ((d < date 2026 1 1)%Z \/ (date 2026 12 31 < d)%Z ->
      is_trading_day d = (weekday d <? 5)%Z)
  /\ (is_trading_day d = true -> is_trading_day (d + 1) = true ->
      is_trading_day (d + 2) = true -> is_trading_day (d + 3) = true ->
      is_trading_day (d + 4) = true ->
      is_trading_day (d + 5) = false /\ is_trading_day (d + 6) = false).
Proof.
  assert (Hhol : existsb (Z.eqb d) HOLIDAYS_2026 = true <-> In d HOLIDAYS_2026).
  { rewrite existsb_exists. split.
    - intros (x & Hin & Heq). apply Z.eqb_eq in Heq. subst x. exact Hin.
    - intros Hin. exists d. split; [ exact Hin | apply Z.eqb_refl ]. }
  assert (Hiff : forall e, is_trading_day e = true -> (weekday e < 5)%Z).
  { intros e. unfold is_trading_day. destruct (5 <=? weekday e)%Z eqn:E; [ discriminate | ].
    intros _. apply Z.leb_gt in E. exact E. }
  split; [ | split ].
  - unfold is_trading_day. destruct (5 <=? weekday d)%Z eqn:E.
    + apply Z.leb_le in E. split; [ discriminate | intros (H & _); lia ].
    + apply Z.leb_gt in E. destruct (existsb (Z.eqb d) HOLIDAYS_2026) eqn:Eh.
      * split; [ discriminate | ]. intros (_ & H). exfalso. apply H, Hhol. reflexivity.
      * split; [ | reflexivity ]. intros _. split; [ exact E | ].
        intros Hin. apply Hhol in Hin. congruence.
  - intros Hout. unfold is_trading_day.
    assert (Hnone : existsb (Z.eqb d) HOLIDAYS_2026 = false).
    { apply not_true_is_false. intros Eh. apply Hhol in Eh.
      assert (Hyear : (date 2026 1 1 <= d /\ d <= date 2026 12 31)%Z).
      { clear Hout Hhol Hiff. unfold HOLIDAYS_2026 in Eh. cbn [In] in Eh.
        repeat (destruct Eh as [ <- | Eh ]; [ split; vm_compute; discriminate | ]).
        destruct Eh. }
      lia. }
    rewrite Hnone. destruct (5 <=? weekday d)%Z eqn:E.
    + apply Z.leb_le in E. symmetry. apply Z.ltb_ge. exact E.
    + apply Z.leb_gt in E. symmetry. apply Z.ltb_lt. exact E.
  - intros H0 H1 H2 H3 H4.
    apply Hiff in H0, H1, H2, H3, H4. clear Hhol Hiff.
    assert (Hshift : forall k, weekday (d + k) = ((weekday d + k) mod 7)%Z).
    { intros k. unfold weekday. rewrite Zplus_mod_idemp_l. f_equal. lia. }
    rewrite Hshift in H1, H2, H3, H4.
    assert (Hbound : (0 <= weekday d < 7)%Z).
    { unfold weekday. apply Z.mod_pos_bound. lia. }
    assert (Hmonday : weekday d = 0%Z).
    { set (r := weekday d) in *.
      assert (Hr : r = 0%Z \/ r = 1%Z \/ r = 2%Z \/ r = 3%Z \/ r = 4%Z) by lia.
      destruct Hr as [ Hr | [ Hr | [ Hr | [ Hr | Hr ] ] ] ]; [ exact Hr | exfalso .. ];
        rewrite Hr in H1, H2, H3, H4;
        first [ discriminate H4 | discriminate H3 | discriminate H2 | discriminate H1 ]. }
    unfold is_trading_day. rewrite !Hshift, Hmonday. split; reflexivity.
Qed.

(** X5. The loop sleeps 300 seconds exactly outside the market hours
    09:15 to 15:30, whether or not a position is open.  From the end of
    the opening candle to the entry cutoff, and from the end-of-day exit
    time to the close, the market counts as open: the loop sleeps 30
    seconds without a position and 5 seconds with one. *)
Theorem sleep_by_market_phase now s :
  (get_sleep_duration now s = 300%Z <-> (now < MARKET_OPEN)%Z \/ (MARKET_CLOSE < now)%Z)
  /\ ((BIAS_CANDLE_END <= now)%Z /\ (now < ENTRY_CUTOFF)%Z
      \/ (EOD_EXIT <= now)%Z /\ (now <= MARKET_CLOSE)%Z ->
      is_market_open now = true
      /\ get_sleep_duration now s
         = match current_position s with None => 30%Z | Some _ => 5%Z end).
Proof.
  unfold get_sleep_duration, is_market_open.
  split.
  - destruct (Z.leb_spec MARKET_OPEN now) as [ H1 | H1 ];
      destruct (Z.leb_spec now MARKET_CLOSE) as [ H2 | H2 ]; cbn [andb negb].
    + split; [ destruct (current_position s); discriminate | lia ].
    + split; [ intros _; right; exact H2 | reflexivity ].
    + split; [ intros _; left; exact H1 | reflexivity ].
    + split; [ intros _; left; exact H1 | reflexivity ].
  - intros Hphase.
    assert (Hin : (MARKET_OPEN <= now)%Z /\ (now <= MARKET_CLOSE)%Z).
    { unfold MARKET_OPEN, MARKET_CLOSE, BIAS_CANDLE_END, ENTRY_CUTOFF, EOD_EXIT, hhmm
        in *. lia. }
    destruct Hin as (H1 & H2).
    apply Z.leb_le in H1, H2. rewrite H1, H2. split; reflexivity.
Qed.

(* ================================================================== *)
(** * Further properties: the breaker's status and a feed outage *)
(* ================================================================== *)

Lemma py_int_nonneg x :
  0 <= x ->
  (0 <= py_int x)%Z /\ inject_Z (py_int x) <= x /\ x < inject_Z (py_int x) + 1.
Proof.
  intros Hx.
  assert (Hnum : (0 <= Qnum x)%Z).
  { unfold Qle in Hx. simpl in Hx. lia. }
  assert (Hfloor : py_int x = Qfloor x).
  { unfold py_int, Qfloor. destruct x as [ n d ]. simpl in *.
    apply Z.quot_div_nonneg; lia. }
  rewrite Hfloor. split.
  - unfold Qfloor. destruct x as [ n d ]. simpl in *. apply Z.div_pos; lia.
  - split; [ apply Qfloor_le | ].
    pose proof (Qlt_floor x) as H. rewrite inject_Z_plus in H. exact H.
Qed.

(** X6. The status line of a breaker without a time stamp reads CLOSED
    with its failure count and threshold.  With a time stamp (not the
    epoch itself) in the past it reads OPEN with the failure count and a
    remaining time between zero and the cooldown; the line does not
    close the breaker, so once the cooldown has passed it goes on reading
    OPEN, with less than a second remaining, where [is_open] answers
    False. *)
Theorem status_line now (b : CircuitBreaker.t) :
  (CircuitBreaker.opened_at b = None ->
   BreakerStatus.status now b
   = BreakerStatus.CLOSED (CircuitBreaker.failure_count b) (CircuitBreaker.threshold b))
  /\ (forall t,
        CircuitBreaker.opened_at b = Some t -> ~ t == 0 -> t <= now ->
        0 <= CircuitBreaker.timeout b ->
        exists r,
          BreakerStatus.status now b = BreakerStatus.OPEN r (CircuitBreaker.failure_count b)
          /\ 0 <= r /\ r <= CircuitBreaker.timeout b
          /\ (fst (CircuitBreaker.is_open now b) = false -> r < 1)).
Proof.
  split.
  - intros Hat. unfold BreakerStatus.status. rewrite Hat. reflexivity.
  - intros t Hat Hne Hpast Hcool. unfold BreakerStatus.status.
    rewrite Hat, (CircuitBreakerFacts.truthy_nonzero t Hne).
    destruct (py_int_nonneg (now - t)) as (Hi0 & Hi1 & Hi2); [ lra | ].
    assert (Hi : 0 <= inject_Z (py_int (now - t))).
    { change 0 with (inject_Z 0). rewrite <- Zle_Qle. exact Hi0. }
    set (left := CircuitBreaker.timeout b - inject_Z (py_int (now - t))).
    eexists. split; [ reflexivity | ].
    destruct (Qlt_bool 0 left) eqn:E.
    + apply Qlt_bool_iff in E. split; [ lra | ]. split; [ unfold left; lra | ].
      intros Hshut. unfold CircuitBreaker.is_open in Hshut.
      rewrite Hat, (CircuitBreakerFacts.truthy_nonzero t Hne) in Hshut. cbn [negb] in Hshut.
      destruct (Qlt_bool (CircuitBreaker.timeout b) (now - t)) eqn:Ex; [ | discriminate ].
      apply Qlt_bool_iff in Ex. unfold left. lra.
    + split; [ lra | ]. split; [ exact Hcool | intros _; lra ].
Qed.

Lemma status_line_witness :
  let b := CircuitBreaker.mk 5 5 300 (Some 1000) in
  BreakerStatus.status (1100 + (1 # 2)) b = BreakerStatus.OPEN 200 5
  /\ CircuitBreaker.is_open (1301 + (1 # 2)) b
     = (false, CircuitBreaker.mk 0 5 300 None)
  /\ exists r, BreakerStatus.status (1301 + (1 # 2)) b = BreakerStatus.OPEN r 5 /\ r < 1.
Proof.
  intros b. split; [ reflexivity | ]. split; [ reflexivity | ].
  destruct (status_line (1301 + (1 # 2)) b) as (_ & H).
  destruct (H 1000 eq_refl) as (r & Hr & _ & _ & Hlate).
  - vm_compute. discriminate.
  - vm_compute. discriminate.
  - vm_compute. discriminate.
  - exists r. split; [ exact Hr | apply Hlate; reflexivity ].
Defined.

Section Outage.

Variable groww : Groww.
Variable id : BreakerId.
Variables lo hi : Q.
Variables segment symbol : string.

(** The globals after [n] fetches in a row. *)
Fixpoint fetches (n : nat) (w : World) : World :=
  match n with
  | O => w
  | S n' => world_of (fetch_price groww id lo hi segment symbol (fetches n' w))
  end.

(** With the breaker unstamped a fetch goes straight to its attempts. *)
Lemma fetch_price_closed w :
  truthy (CircuitBreaker.opened_at (breaker id w)) = false ->
  fetch_price groww id lo hi segment symbol w
  = fetch_attempts groww id lo hi segment symbol MAX_RETRIES w.
Proof.
  intros H. unfold fetch_price, breaker_is_open, bind, gets. rewrite H. reflexivity.
Qed.

Hypothesis clock_past_epoch : forall k, ~ time_time groww k == 0.
Hypothesis outage : forall n, usable lo hi (get_ltp groww n segment symbol) = false.

Lemma outage_fetch w :
  CircuitBreaker.opened_at (breaker id w) = None ->
  exists w',
    fetch_price groww id lo hi segment symbol w = Ok None w'
    /\ ltp_calls w' = (ltp_calls w + MAX_RETRIES)%nat
    /\ breaker id w'
       = CircuitBreaker.record_failure (time_time groww (clock_reads w)) (breaker id w).
Proof.
  intros Hat. rewrite fetch_price_closed by (rewrite Hat; reflexivity).
  destruct (fetch_attempts_none_usable groww id lo hi segment symbol (MAX_RETRIES - 1) w)
    as (w' & Hrun & Hl & _ & Hb & _).
  { intros j _. apply outage. }
  exists w'. auto.
Qed.

Lemma fetches_below_threshold thr cool w n :
  breaker id w = CircuitBreaker.init thr cool -> (n < thr)%nat ->
  breaker id (fetches n w) = CircuitBreaker.mk n thr cool None
  /\ ltp_calls (fetches n w) = (ltp_calls w + n * MAX_RETRIES)%nat.
Proof.
  intros Hinit. induction n as [ | n IH ]; intros Hlt.
  - cbn [fetches]. rewrite Hinit. split; [ reflexivity | lia ].
  - destruct IH as (Hb & Hl); [ lia | ]. cbn [fetches].
    destruct (outage_fetch (fetches n w)) as (w' & Hrun & Hl' & Hb').
    { rewrite Hb. reflexivity. }
    rewrite Hrun. cbn [world_of]. rewrite Hb', Hb, Hl', Hl.
    unfold CircuitBreaker.record_failure. cbn [CircuitBreaker.threshold
      CircuitBreaker.failure_count CircuitBreaker.timeout CircuitBreaker.opened_at].
    assert (E : (thr <=? S n)%nat = false) by (apply Nat.leb_gt; lia).
    rewrite E. split; [ reflexivity | lia ].
Qed.

(** X7. During an outage of the feed (no request answered with a usable
    quote), from a breaker as built: fewer fetches than the threshold
    leave the breaker closed; the fetch that reaches the threshold stamps
    it, [MAX_RETRIES] requests having been made per fetch; a further fetch
    within the cooldown returns nothing and makes no request; one past
    the cooldown closes the breaker, makes its [MAX_RETRIES] requests
    and counts one failure. *)
Theorem outage_opens_breaker thr cool w :
  breaker id w = CircuitBreaker.init thr cool -> (0 < thr)%nat ->
  let w' := fetches thr w in
  (forall n, (n < thr)%nat ->
     breaker id (fetches n w) = CircuitBreaker.mk n thr cool None)
  /\ ltp_calls w' = (ltp_calls w + thr * MAX_RETRIES)%nat
  /\ exists t,
       breaker id w' = CircuitBreaker.mk thr thr cool (Some t)
       /\ (time_time groww (clock_reads w') - t <= cool ->
           exists w'',
             fetch_price groww id lo hi segment symbol w' = Ok None w''
             /\ ltp_calls w'' = ltp_calls w' /\ trace w'' = trace w'
             /\ breaker id w'' = breaker id w')
       /\ (cool < time_time groww (clock_reads w') - t ->
           exists w'',
             fetch_price groww id lo hi segment symbol w' = Ok None w''
             /\ ltp_calls w'' = (ltp_calls w' + MAX_RETRIES)%nat
             /\ CircuitBreaker.failure_count (breaker id w'') = 1%nat).
Proof.
  intros Hinit Hthr w'.
  split; [ intros n Hn; apply (fetches_below_threshold thr cool w n Hinit Hn) | ].
  destruct thr as [ | m ]; [ lia | ].
  destruct (fetches_below_threshold (S m) cool w m Hinit) as (Hb & Hl); [ lia | ].
  destruct (outage_fetch (fetches m w)) as (w1 & Hrun & Hl1 & Hb1).
  { rewrite Hb. reflexivity. }
  assert (Hw' : w' = w1) by (unfold w'; cbn [fetches]; rewrite Hrun; reflexivity).
  set (t := time_time groww (clock_reads (fetches m w))) in *.
  assert (Hopened : breaker id w' = CircuitBreaker.mk (S m) (S m) cool (Some t)).
  { rewrite Hw', Hb1, Hb. unfold CircuitBreaker.record_failure.
    cbn [CircuitBreaker.threshold CircuitBreaker.failure_count CircuitBreaker.timeout].
    rewrite Nat.leb_refl. reflexivity. }
  split; [ rewrite Hw', Hl1, Hl; lia | ].
  exists t. split; [ exact Hopened | ].
  destruct (fetch_price_contract groww id lo hi segment symbol w')
    as (Hopen & _ & Hshut & _).
  split.
  - intros Hwithin.
    assert (E : CircuitBreaker.is_open (time_time groww (clock_reads w')) (breaker id w')
                = (true, breaker id w')).
    { apply (CircuitBreakerFacts.is_open_within _ _ t).
      - rewrite Hopened. reflexivity.
      - apply clock_past_epoch.
      - rewrite Hopened. exact Hwithin. }
    rewrite E in Hopen. destruct (Hopen eq_refl) as (w'' & Hrun' & Hl' & Ht' & Hb').
    exists w''. auto.
  - intros Hpast.
    assert (E : CircuitBreaker.is_open (time_time groww (clock_reads w')) (breaker id w')
                = (false, CircuitBreaker.mk 0 (S m) cool None)).
    { rewrite (CircuitBreakerFacts.is_open_expired _ _ t).
      - rewrite Hopened. reflexivity.
      - rewrite Hopened. reflexivity.
      - apply clock_past_epoch.
      - rewrite Hopened. exact Hpast. }
    rewrite E in Hshut. destruct (Hshut eq_refl) as (w'' & Hrun' & Hl' & _ & Hc').
    { intros j _. apply outage. }
    exists w''. split; [ exact Hrun' | ]. split; [ exact Hl' | exact Hc' ].
Qed.

End Outage.

(** A feed that answers no quote request: the fifth spot fetch opens the
    breaker after fifteen requests, and the sixth makes none. *)
Lemma outage_opens_breaker_witness :
  let g := Scenario.broker [] Scenario.both_days in
  let w' := fetches g SpotBreaker MIN_SPOT_PRICE MAX_SPOT_PRICE "CASH" "NSE_NIFTY" 5
              initial_world in
  ltp_calls w' = 15%nat
  /\ spot_price_breaker w' = CircuitBreaker.mk 5 5 300 (Some 1000)
  /\ exists w'', fetch_spot_price g w' = Ok None w'' /\ ltp_calls w'' = 15%nat.
Proof.
  intros g w'.
  destruct (outage_opens_breaker g SpotBreaker MIN_SPOT_PRICE MAX_SPOT_PRICE
              "CASH" "NSE_NIFTY") with (thr := 5%nat) (cool := 300) (w := initial_world)
    as (_ & Hl & t & Hb & Hin & _).
  - intros k H. unfold g in H. cbn [Scenario.broker time_time] in H.
    assert (0 <= inject_Z (Z.of_nat k)).
    { change 0 with (inject_Z 0). rewrite <- Zle_Qle. lia. }
    lra.
  - intros n. unfold g. cbn [Scenario.broker get_ltp]. destruct n; reflexivity.
  - reflexivity.
  - lia.
  - split; [ exact Hl | ]. split; [ reflexivity | ].
    destruct Hin as (w'' & Hrun & Hl'' & _).
    + assert (Ht : t = 1000).
      { change (breaker SpotBreaker w') with (spot_price_breaker w') in Hb.
        vm_compute in Hb. inversion Hb. reflexivity. }
      subst t. vm_compute. discriminate.
    + exists w''. split; [ exact Hrun | rewrite Hl''; exact Hl ].
Defined.

(* ================================================================== *)
(** * Further properties: the instrument catalogue *)
(* ================================================================== *)

Module CatalogueFacts.
Import Catalogue.

Local Open Scope Z_scope.

(** The table lists the expiry [d] for the underlying [u]. *)
Definition listed (t : list Row) (u : string) (d : Z) : Prop :=
  exists r, In r t /\ underlying_symbol r = u /\ segment r = "FNO"%string
            /\ expiry_date r = d.

Fixpoint ascending (l : list Z) : Prop :=
  match l with
  | [] => True
  | x :: l' => (forall y, In y l' -> x <= y) /\ ascending l'
  end.

Lemma insert_date_In d l x : In x (insert_date d l) <-> x = d \/ In x l.
Proof.
  induction l as [ | y l IH ]; simpl.
  - intuition congruence.
  - destruct (d <=? y); simpl; [ intuition congruence | ].
    rewrite IH. intuition congruence.
Qed.

Lemma sorted_In l x : In x (sorted l) <-> In x l.
Proof.
  unfold sorted. induction l as [ | y l IH ]; simpl; [ reflexivity | ].
  rewrite insert_date_In, IH. intuition congruence.
Qed.

Lemma insert_date_ascending d l : ascending l -> ascending (insert_date d l).
Proof.
  induction l as [ | y l IH ]; simpl; intros Hasc.
  - split; [ intros ? [] | exact I ].
  - destruct Hasc as (Hy & Hl). destruct (d <=? y) eqn:E; simpl.
    + apply Z.leb_le in E. split; [ | split; assumption ].
      intros z [ <- | Hz ]; [ exact E | specialize (Hy z Hz); lia ].
    + apply Z.leb_gt in E. split; [ | apply IH; exact Hl ].
      intros z Hz. apply insert_date_In in Hz.
      destruct Hz as [ -> | Hz ]; [ lia | apply Hy; exact Hz ].
Qed.

Lemma sorted_ascending l : ascending (sorted l).
Proof.
  unfold sorted. induction l as [ | y l IH ]; simpl; [ exact I | ].
  apply insert_date_ascending. exact IH.
Qed.

Lemma filter_ascending p l : ascending l -> ascending (filter p l).
Proof.
  induction l as [ | y l IH ]; simpl; intros Hasc; [ exact I | ].
  destruct Hasc as (Hy & Hl). destruct (p y); simpl; [ | apply IH; exact Hl ].
  split; [ | apply IH; exact Hl ].
  intros z Hz. apply filter_In in Hz. apply Hy. apply Hz.
Qed.

(** X8. The expiry answered is an expiry the table lists for the
    underlying in the FNO segment, dated today or within the seven days
    after, and the earliest of the listed expiries that are not before
    today (an expiry of today itself is taken).  Nothing is answered
    exactly when the table lists no expiry in that window. *)
Theorem nearest_expiry_is_earliest_in_week t today u :
  (forall d, get_nearest_valid_expiry t today u = Some d ->
     listed t u d /\ today <= d /\ d <= today + 7
     /\ forall d', listed t u d' -> today <= d' -> d <= d')
  /\ (get_nearest_valid_expiry t today u = None
      <-> forall d, listed t u d -> d < today \/ today + 7 < d).
Proof.
  unfold get_nearest_valid_expiry.
  set (df := filter _ t).
  set (fut := sorted (filter (fun d => today <=? d) (nodup Z.eq_dec (map expiry_date df)))).
  set (weekly := filter (fun d => d - today <=? 7) fut).
  assert (Hdf : forall d, In d (map expiry_date df) <-> listed t u d).
  { intros d. rewrite in_map_iff. unfold df, listed. split.
    - intros (r & Hd & Hin). apply filter_In in Hin. destruct Hin as (Hin & Hb).
      apply andb_true_iff in Hb. destruct Hb as (Hu & Hs).
      apply String.eqb_eq in Hu, Hs. exists r. auto.
    - intros (r & Hin & Hu & Hs & Hd). exists r. split; [ exact Hd | ].
      apply filter_In. split; [ exact Hin | ].
      apply andb_true_iff. split; apply String.eqb_eq; assumption. }
  assert (Hfut : forall d, In d fut <-> listed t u d /\ today <= d).
  { intros d. unfold fut. rewrite sorted_In, filter_In, nodup_In, Hdf, Z.leb_le.
    reflexivity. }
  assert (Hweek : forall d, In d weekly <-> listed t u d /\ today <= d /\ d <= today + 7).
  { intros d. unfold weekly. rewrite filter_In, Hfut, Z.leb_le. intuition lia. }
  assert (Hasc : ascending weekly).
  { apply filter_ascending, sorted_ascending. }
  destruct weekly as [ | nearest rest ] eqn:E.
  - split; [ discriminate | ]. split; [ | reflexivity ].
    intros _ d Hd.
    destruct (Z.lt_ge_cases d today) as [ H | H ]; [ left; exact H | right ].
    destruct (Z.lt_ge_cases (today + 7) d) as [ H' | H' ]; [ exact H' | ].
    exfalso. apply (proj2 (Hweek d)). auto.
  - split.
    + intros d Hd. inversion Hd; subst d.
      destruct (proj1 (Hweek nearest) (or_introl eq_refl)) as (Hl & H1 & H2).
      split; [ exact Hl | ]. split; [ exact H1 | ]. split; [ exact H2 | ].
      intros d' Hl' Hd'.
      destruct (Z.lt_ge_cases (today + 7) d') as [ H' | H' ]; [ lia | ].
      assert (Hin : In d' (nearest :: rest)) by (apply Hweek; auto).
      destruct Hin as [ <- | Hin ]; [ lia | ].
      destruct Hasc as (Hmin & _). apply Hmin. exact Hin.
    + split; [ discriminate | ]. intros Hnone. exfalso.
      destruct (proj1 (Hweek nearest) (or_introl eq_refl)) as (Hl & H1 & H2).
      destruct (Hnone nearest Hl); lia.
Qed.

(** A row the lookup may answer for [underlying], [expiry] and
    [option_type]: listed, open to buying, with a numeric strike [k]. *)
Definition candidate (t : list Row) (u : string) (e : Z) (ty : OptionType)
    (r : Row) (k : Q) : Prop :=
  In r t /\ underlying_symbol r = u /\ expiry_date r = e
  /\ instrument_type r = option_type_name ty /\ buy_allowed r = 1
  /\ strike_price r = Some k.

Lemma with_strike_In rows r k :
  In (r, k) (with_strike rows) <-> In r rows /\ strike_price r = Some k.
Proof.
  unfold with_strike. rewrite in_flat_map. split.
  - intros (r' & Hin & Hk). destruct (strike_price r') as [ k' | ] eqn:E; [ | destruct Hk ].
    destruct Hk as [ Hk | [] ]. inversion Hk; subst. auto.
  - intros (Hin & Hk). exists r. rewrite Hk. split; [ exact Hin | left; reflexivity ].
Qed.

Fixpoint ascending_diff (strike : Z) (l : list (Row * Q)) : Prop :=
  match l with
  | [] => True
  | x :: l' =>
      (forall y, In y l' -> (strike_diff strike x <= strike_diff strike y)%Q)
      /\ ascending_diff strike l'
  end.

Lemma insert_by_diff_In strike x l y :
  In y (insert_by_diff strike x l) <-> y = x \/ In y l.
Proof.
  induction l as [ | z l IH ]; simpl.
  - intuition congruence.
  - destruct (Qlt_bool _ _); simpl; [ intuition congruence | ].
    rewrite IH. intuition congruence.
Qed.

Lemma sort_by_diff_In strike l y : In y (sort_by_diff strike l) <-> In y l.
Proof.
  unfold sort_by_diff. rewrite (in_rev l y).
  induction (rev l) as [ | z r IH ]; simpl; [ reflexivity | ].
  rewrite insert_by_diff_In, IH. intuition congruence.
Qed.

Lemma insert_by_diff_ascending strike x l :
  ascending_diff strike l -> ascending_diff strike (insert_by_diff strike x l).
Proof.
  induction l as [ | y l IH ]; simpl; intros Hasc.
  - split; [ intros ? [] | exact I ].
  - destruct Hasc as (Hy & Hl).
    destruct (Qlt_bool (strike_diff strike x) (strike_diff strike y)) eqn:E; simpl.
    + apply Qlt_bool_iff in E. split; [ | split; assumption ].
      intros z [ <- | Hz ]; [ apply Qlt_le_weak; exact E | ].
      specialize (Hy z Hz). apply Qlt_le_weak. apply (Qlt_le_trans _ _ _ E Hy).
    + apply Qlt_bool_false_iff in E. split; [ | apply IH; exact Hl ].
      intros z Hz. apply insert_by_diff_In in Hz.
      destruct Hz as [ -> | Hz ]; [ exact E | apply Hy; exact Hz ].
Qed.

Lemma sort_by_diff_ascending strike l : ascending_diff strike (sort_by_diff strike l).
Proof.
  unfold sort_by_diff. induction (rev l) as [ | y r IH ]; simpl; [ exact I | ].
  apply insert_by_diff_ascending. exact IH.
Qed.

Lemma sort_by_diff_head strike l x rest :
  sort_by_diff strike l = x :: rest ->
  In x l /\ forall y, In y l -> (strike_diff strike x <= strike_diff strike y)%Q.
Proof.
  intros E. pose proof (sort_by_diff_ascending strike l) as Hasc.
  rewrite E in Hasc. destruct Hasc as (Hmin & _).
  split; [ apply (sort_by_diff_In strike); rewrite E; left; reflexivity | ].
  intros y Hy. apply (sort_by_diff_In strike) in Hy. rewrite E in Hy.
  destruct Hy as [ <- | Hy ]; [ apply Qle_refl | apply Hmin; exact Hy ].
Qed.

Lemma key_eqb_refl k : key_eqb k k = true.
Proof.
  destruct k as [ [ [ u e ] s ] ty ]. unfold key_eqb.
  rewrite String.eqb_refl, !Z.eqb_refl. destruct ty; reflexivity.
Qed.

(** X9. On a cache miss the lookup answers from the rows of the table
    for the underlying, the expiry and the option type that are open to
    buying and carry a numeric strike.  Its answer is built from one of
    those rows whose strike is nearest to the strike asked for (not
    necessarily that strike), has the lot size NIFTY_LOT_SIZE, and is put
    in the cache.  It answers nothing, and caches nothing, when there is
    no such row or when a nearest row has another lot size. *)
Theorem find_option_instrument_nearest t cache u e strike ty :
  cache_get (u, e, strike, ty) cache = None ->
  let answer := find_option_instrument t cache u e strike ty in
  let nearest r k :=
    candidate t u e ty r k
    /\ forall r' k', candidate t u e ty r' k' ->
         (py_abs (k - inject_Z strike) <= py_abs (k' - inject_Z strike))%Q in
  match fst answer with
  | Some ins =>
      snd answer = ((u, e, strike, ty), ins) :: cache
      /\ exists r k,
           nearest r k
           /\ ins = mkInstrument (trading_symbol r) (segment r) (lot_size r) k
           /\ lot_size r = NIFTY_LOT_SIZE
  | None =>
      snd answer = cache
      /\ ((forall r k, ~ candidate t u e ty r k)
          \/ exists r k, nearest r k /\ lot_size r <> NIFTY_LOT_SIZE)
  end.
Proof.
  intros Hmiss. cbv zeta. unfold find_option_instrument. rewrite Hmiss.
  set (f1 := filter _ t). set (f2 := filter (fun r => buy_allowed r =? 1) f1).
  assert (Hf2 : forall r k, In (r, k) (with_strike f2) <-> candidate t u e ty r k).
  { intros r k. rewrite with_strike_In. unfold f2, f1, candidate.
    rewrite !filter_In, !andb_true_iff, !String.eqb_eq, !Z.eqb_eq. tauto. }
  assert (Hnone : with_strike f2 = [] -> forall r k, ~ candidate t u e ty r k).
  { intros Hnil r k Hc. apply Hf2 in Hc. rewrite Hnil in Hc. destruct Hc. }
  destruct f2 as [ | r0 rows ] eqn:E2.
  { cbn [fst snd]. split; [ reflexivity | left ]. apply Hnone. reflexivity. }
  rewrite <- E2 in *. clear E2 r0 rows.
  destruct (with_strike f2) as [ | x0 xs ] eqn:Ew.
  { cbn [fst snd]. split; [ reflexivity | left ]. apply Hnone. reflexivity. }
  rewrite <- Ew in *.
  destruct (sort_by_diff strike (with_strike f2)) as [ | [ r k ] rest ] eqn:Es.
  { exfalso. assert (Hin : In x0 (sort_by_diff strike (with_strike f2))).
    { apply sort_by_diff_In. rewrite Ew. left. reflexivity. }
    rewrite Es in Hin. destruct Hin. }
  destruct (sort_by_diff_head strike _ _ _ Es) as (Hin & Hmin).
  assert (Hnearest : candidate t u e ty r k
                     /\ forall r' k', candidate t u e ty r' k' ->
                          (py_abs (k - inject_Z strike)
                           <= py_abs (k' - inject_Z strike))%Q).
  { split; [ apply Hf2; exact Hin | ].
    intros r' k' Hc. apply Hf2 in Hc. exact (Hmin (r', k') Hc). }
  destruct (lot_size r =? NIFTY_LOT_SIZE) eqn:El; cbn [negb fst snd].
  - apply Z.eqb_eq in El. split; [ reflexivity | ].
    exists r, k. split; [ exact Hnearest | split; [ reflexivity | exact El ] ].
  - apply Z.eqb_neq in El. split; [ reflexivity | right ].
    exists r, k. split; [ exact Hnearest | exact El ].
Qed.

(** A table that lists the strikes 18600 and 18450 for the expiry, and
    the strike 18500 only closed to buying: asked for 18500, the lookup
    answers the contract at 18450 and caches it. *)
Lemma find_option_instrument_nearest_witness :
  let row strike buy symbol :=
    mkRow "NIFTY" "FNO" (date 2026 11 3) "CE" buy (Some strike) 65 symbol in
  let t := [ row 18600%Q 1 "NIFTY26N0318600CE"; row 18500%Q 0 "NIFTY26N0318500CE";
             row 18450%Q 1 "NIFTY26N0318450CE" ]%string in
  let contract := mkInstrument "NIFTY26N0318450CE" "FNO" 65 18450%Q in
  find_option_instrument t [] "NIFTY" (date 2026 11 3) 18500 CE
  = (Some contract, [(("NIFTY"%string, date 2026 11 3, 18500, CE), contract)])
  /\ exists r k,
       candidate t "NIFTY" (date 2026 11 3) CE r k
       /\ trading_symbol r = "NIFTY26N0318450CE"%string
       /\ forall r' k', candidate t "NIFTY" (date 2026 11 3) CE r' k' ->
            (py_abs (k - inject_Z 18500) <= py_abs (k' - inject_Z 18500))%Q.
Proof.
  intros row t contract.
  pose proof (find_option_instrument_nearest t [] "NIFTY" (date 2026 11 3) 18500 CE
                eq_refl) as H.
  cbv zeta in H.
  assert (E : find_option_instrument t [] "NIFTY" (date 2026 11 3) 18500 CE
              = (Some contract,
                 [(("NIFTY"%string, date 2026 11 3, 18500, CE), contract)]))
    by reflexivity.
  split; [ exact E | ].
  rewrite E in H. cbn [fst snd] in H.
  destruct H as (_ & r & k & (Hc & Hmin) & Hins & _).
  exists r, k. split; [ exact Hc | ]. split; [ | exact Hmin ].
  inversion Hins. reflexivity.
Defined.

(** X10. An answer in the cache is returned without reading the table.
    An instrument once found is answered again, whatever the table has
    become, until the cache is cleared; a lookup that finds nothing
    leaves the cache as it was, so it is made afresh the next time. *)
Theorem find_option_instrument_cache t t' cache u e strike ty :
  (forall ins,
     cache_get (u, e, strike, ty) cache = Some ins ->
     find_option_instrument t cache u e strike ty = (Some ins, cache))
  /\ (forall ins cache',
        find_option_instrument t cache u e strike ty = (Some ins, cache') ->
        find_option_instrument t' cache' u e strike ty = (Some ins, cache'))
  /\ (forall cache',
        find_option_instrument t cache u e strike ty = (None, cache') ->
        cache' = cache
        /\ find_option_instrument t cache' u e strike ty = (None, cache'))
  /\ find_option_instrument t [] u e strike ty
     = find_option_instrument t (snd (find_option_instrument t [] u e strike ty))
         u e strike ty.
Proof.
  assert (Hhit : forall tab c ins,
            cache_get (u, e, strike, ty) c = Some ins ->
            find_option_instrument tab c u e strike ty = (Some ins, c)).
  { intros tab c ins H. unfold find_option_instrument. rewrite H. reflexivity. }
  assert (Hfound : forall tab c ins c',
            find_option_instrument tab c u e strike ty = (Some ins, c') ->
            cache_get (u, e, strike, ty) c' = Some ins).
  { intros tab c ins c'. unfold find_option_instrument.
    destruct (cache_get (u, e, strike, ty) c) as [ hit | ] eqn:Hc.
    - intros H. inversion H; subst. exact Hc.
    - destruct (filter _ (filter _ tab)) as [ | r0 rows ]; [ discriminate | ].
      destruct (with_strike _) as [ | x0 xs ]; [ discriminate | ].
      destruct (sort_by_diff _ _) as [ | [ r k ] rest ]; [ discriminate | ].
      destruct (negb _); [ discriminate | ].
      intros H. inversion H; subst. cbn [cache_get].
      rewrite key_eqb_refl. reflexivity. }
  assert (Hnone : forall tab c c',
            find_option_instrument tab c u e strike ty = (None, c') -> c' = c).
  { intros tab c c'. unfold find_option_instrument.
    destruct (cache_get (u, e, strike, ty) c) as [ hit | ]; [ discriminate | ].
    destruct (filter _ (filter _ tab)) as [ | r0 rows ];
      [ intros H; inversion H; reflexivity | ].
    destruct (with_strike _) as [ | x0 xs ]; [ intros H; inversion H; reflexivity | ].
    destruct (sort_by_diff _ _) as [ | [ r k ] rest ];
      [ intros H; inversion H; reflexivity | ].
    destruct (negb _); [ intros H; inversion H; reflexivity | discriminate ]. }
  split; [ intros ins; apply Hhit | ]. split.
  - intros ins cache' H. apply Hhit. exact (Hfound _ _ _ _ H).
  - split.
    + intros cache' H. pose proof (Hnone _ _ _ H) as ->. auto.
    + destruct (find_option_instrument t [] u e strike ty) as [ [ ins | ] c' ] eqn:E;
        cbn [snd].
      * symmetry. apply Hhit. exact (Hfound _ _ _ _ E).
      * pose proof (Hnone _ _ _ E) as ->. symmetry. exact E.
Qed.

End CatalogueFacts.

(* ================================================================== *)
(** * Further properties: the dashboard's state *)
(* ================================================================== *)

Lemma deque_append_length {A : Type} maxlen (x : A) l :
  (List.length l <= maxlen)%nat ->
  List.length (deque_append maxlen x l) = Nat.min (S (List.length l)) maxlen.
Proof.
  intros H. unfold deque_append. rewrite length_skipn, length_app. cbn [List.length]. lia.
Qed.

(** Appending one by one keeps the newest [maxlen] elements, in order. *)
Lemma deque_append_all {A : Type} maxlen (xs : list A) :
  forall l,
    (List.length l <= maxlen)%nat ->
    fold_left (fun acc x => deque_append maxlen x acc) xs l
    = skipn (List.length (l ++ xs) - maxlen) (l ++ xs)%list.
Proof.
  induction xs as [ | x xs IH ]; intros l Hl.
  - cbn [fold_left]. rewrite app_nil_r.
    replace (List.length l - maxlen)%nat with 0%nat by lia. reflexivity.
  - cbn [fold_left]. rewrite IH.
    2:{ rewrite deque_append_length by exact Hl. lia. }
    unfold deque_append.
    set (k := (List.length (l ++ [x]) - maxlen)%nat).
    assert (Hk : (k <= List.length (l ++ [x]))%nat) by (unfold k; lia).
    replace (skipn k (l ++ [x]) ++ xs)%list with (skipn k ((l ++ [x]) ++ xs)).
    2:{ rewrite skipn_app. replace (k - List.length (l ++ [x]))%nat with 0%nat by lia.
        reflexivity. }
    rewrite skipn_skipn, <- app_assoc. cbn [app]. f_equal.
    rewrite length_skipn, !length_app. unfold k. rewrite !length_app.
    cbn [List.length]. lia.
Qed.

Module SharedStateFacts.
Import SharedState.

(** What every sequence of calls keeps. *)
Definition wf (s : t) : Prop :=
  total_trades s = (wins s + losses s)%nat
  /\ List.length (trades s) = Nat.min (total_trades s) 100
  /\ (List.length (events s) <= 200)%nat
  /\ max_drawdown s <= 0
  /\ max_drawdown s <= total_pnl s
  /\ (in_trade s = true <-> current_trade s <> None).

Lemma add_event_wf message s : wf s -> wf (add_event message s).
Proof.
  intros (H1 & H2 & H3 & H4 & H5 & H6). unfold wf, add_event. cbn.
  repeat (split; [ assumption | ]).
  split; [ | split; [ assumption | split; assumption ] ].
  rewrite deque_append_length by exact H3. lia.
Qed.

Lemma step_wf c s : wf s -> wf (state_of (step c s)).
Proof.
  intros Hwf. destruct c; cbn [step state_of].
  - destruct Hwf as (H1 & H2 & H3 & H4 & H5 & H6). unfold wf, update_market. cbn.
    auto 10.
  - apply add_event_wf. exact Hwf.
  - apply add_event_wf. destruct Hwf as (H1 & H2 & H3 & H4 & H5 & H6).
    unfold wf, set_trade. cbn. repeat (split; [ assumption | ]).
    split; [ intros _; discriminate | reflexivity ].
  - unfold update_trade_price.
    destruct (in_trade s) eqn:Ein; [ | exact Hwf ].
    destruct (current_trade s) as [ tr | ] eqn:Etr; [ | exact Hwf ].
    destruct Hwf as (H1 & H2 & H3 & H4 & H5 & H6).
    destruct (Qeq_bool (entry_price tr) 0); cbn [state_of]; unfold wf, set_trade; cbn;
      (repeat (split; [ assumption | ]); split; [ intros _; discriminate | reflexivity ]).
  - unfold exit_trade.
    destruct (in_trade s) eqn:Ein; cbn [negb]; [ | exact Hwf ].
    destruct (current_trade s) as [ tr | ] eqn:Etr; [ | exact Hwf ].
    destruct (Qeq_bool (entry_price tr) 0); cbn [state_of]; [ exact Hwf | ].
    apply add_event_wf.
    destruct Hwf as (H1 & H2 & H3 & H4 & H5 & H6). unfold wf. cbn.
    set (amount := (price - entry_price tr) * inject_Z (quantity tr)).
    split; [ destruct (Qlt_bool 0 amount); lia | ].
    split; [ rewrite deque_append_length by lia; lia | ].
    split; [ exact H3 | ].
    destruct (Qlt_bool (total_pnl s + amount) (max_drawdown s)) eqn:E.
    + apply Qlt_bool_iff in E. split; [ lra | ].
      split; [ lra | split; [ discriminate | intros H; exfalso; apply H; reflexivity ] ].
    + apply Qlt_bool_false_iff in E. split; [ exact H4 | ].
      split; [ exact E | split; [ discriminate | intros H; exfalso; apply H; reflexivity ] ].
  - apply add_event_wf. exact Hwf.
Qed.

Lemma init_wf : wf init.
Proof.
  unfold wf, init. cbn. split; [ reflexivity | ]. split; [ reflexivity | ].
  split; [ lia | ]. split; [ lra | ]. split; [ lra | ].
  split; [ discriminate | intros H; exfalso; apply H; reflexivity ].
Qed.

Lemma run_wf calls : forall s, wf s -> wf (run calls s).
Proof.
  induction calls as [ | c calls IH ]; intros s Hwf; [ exact Hwf | ].
  cbn [run]. apply IH, step_wf, Hwf.
Qed.

(** X11. After any sequence of calls on a fresh state: the trades
    counted are the wins and the losses together; the history holds the
    last 100 exits at most, and every exit while fewer; the event feed
    holds 200 events at most; the recorded drawdown is negative or zero
    and never above the running profit; [in_trade] is set exactly when
    [current_trade] is filled.  Hence no call reads a key of an empty
    [current_trade]: none raises [KeyError]. *)
Theorem shared_state_invariants calls :
  let s := run calls init in
  total_trades s = (wins s + losses s)%nat
  /\ List.length (trades s) = Nat.min (total_trades s) 100
  /\ (List.length (events s) <= 200)%nat
  /\ max_drawdown s <= 0
  /\ max_drawdown s <= total_pnl s
  /\ (in_trade s = true <-> current_trade s <> None)
  /\ forall c s', step c s <> Raises KeyError s'.
Proof.
  cbv zeta. pose proof (run_wf calls init init_wf) as Hwf.
  destruct Hwf as (H1 & H2 & H3 & H4 & H5 & H6).
  repeat (split; [ assumption | ]).
  intros c s' Hraise. destruct c; cbn [step] in Hraise; try discriminate.
  - unfold update_trade_price in Hraise.
    destruct (in_trade _); [ | discriminate ].
    destruct (current_trade _); [ | discriminate ].
    destruct (Qeq_bool _ _); discriminate.
  - unfold exit_trade in Hraise.
    destruct (in_trade (run calls init)) eqn:Ein; cbn [negb] in Hraise; [ | discriminate ].
    destruct (current_trade (run calls init)) eqn:Etr.
    + destruct (Qeq_bool _ _); discriminate.
    + apply (proj1 H6); reflexivity.
Qed.



Lemma py_round1_eq x : py_round1 x == inject_Z (round_half_even (x * 10)) / 10.
Proof.
  unfold py_round1. rewrite Qred_correct.
  exact (Qmake_Qdiv (round_half_even (x * 10)) 10).
Qed.

Lemma inject_Z_nat_nonneg n : 0 <= inject_Z (Z.of_nat n).
Proof. change 0 with (inject_Z 0). rewrite <- Zle_Qle. lia. Qed.

(** X13. The snapshot returns the attributes as they are.  Its win rate
    is 0 while no trade is closed, so that nothing is divided by zero,
    and after any sequence of calls it lies between 0 and 100. *)
Theorem win_rate_bounded calls :
  let s := run calls init in
  fst (get_state s) = s
  /\ (total_trades s = 0%nat -> m_win_rate (snd (get_state s)) = 0)
  /\ 0 <= m_win_rate (snd (get_state s))
  /\ m_win_rate (snd (get_state s)) <= 100.
Proof.
  cbv zeta. set (s := run calls init).
  pose proof (run_wf calls init init_wf) as (Htotal & _). fold s in Htotal.
  split; [ reflexivity | ]. unfold get_state. cbn [snd m_win_rate].
  split; [ intros ->; reflexivity | ].
  set (rate := if (0 <? total_trades s)%nat
               then inject_Z (Z.of_nat (wins s)) / inject_Z (Z.of_nat (total_trades s)) * 100
               else 0).
  assert (Hrate : 0 <= rate /\ rate <= 100).
  { unfold rate. destruct (0 <? total_trades s)%nat eqn:E; [ | split; lra ].
    apply Nat.ltb_lt in E.
    assert (Hpos : 0 < inject_Z (Z.of_nat (total_trades s))).
    { change 0 with (inject_Z 0). rewrite <- Zlt_Qlt. lia. }
    assert (Hle : inject_Z (Z.of_nat (wins s)) <= inject_Z (Z.of_nat (total_trades s))).
    { rewrite <- Zle_Qle. lia. }
    pose proof (inject_Z_nat_nonneg (wins s)) as Hw.
    set (a := inject_Z (Z.of_nat (wins s))) in *.
    set (b := inject_Z (Z.of_nat (total_trades s))) in *.
    assert (H0 : 0 <= a / b) by (apply Qle_shift_div_l; [ exact Hpos | lra ]).
    assert (H1 : a / b <= 1) by (apply Qle_shift_div_r; [ exact Hpos | lra ]).
    split; lra. }
  destruct Hrate as (Hlo & Hhi).
  rewrite py_round1_eq.
  destruct (round_half_even_close (rate * 10)) as (Hr1 & Hr2).
  set (z := round_half_even (rate * 10)) in *.
  assert (Hz : (0 <= z <= 1000)%Z).
  { split.
    - assert (H : (-1 < z)%Z) by (apply inject_Z_lt_inv; change (inject_Z (-1)) with (-(1)); lra).
      lia.
    - assert (H : (z < 1001)%Z) by (apply inject_Z_lt_inv; change (inject_Z 1001) with 1001; lra).
      lia. }
  assert (Hq : 0 <= inject_Z z /\ inject_Z z <= 1000).
  { split.
    - change 0 with (inject_Z 0). rewrite <- Zle_Qle. lia.
    - change 1000 with (inject_Z 1000). rewrite <- Zle_Qle. lia. }
  split.
  - apply Qle_shift_div_l; [ reflexivity | lra ].
  - apply Qle_shift_div_r; [ reflexivity | lra ].
Qed.

(** X14. The event feed keeps the newest 200 events in the order they
    were added: after any messages added one by one it is the last 200
    of the old feed followed by the messages.  The feed written by the
    position lifecycle is appended to in the same way. *)
Theorem events_hold_last_200 messages s :
  (List.length (events s) <= 200)%nat ->
  let s' := fold_left (fun acc m => add_event m acc) messages s in
  events s'
  = skipn (List.length (events s ++ messages) - 200) (events s ++ messages)%list
  /\ (List.length (events s') <= 200)%nat
  /\ (forall message evs, push_event message evs = deque_append 200 message evs).
Proof.
  intros Hlen s'.
  assert (Hevents : forall ms acc,
            events (fold_left (fun acc m => add_event m acc) ms acc)
            = fold_left (fun l m => deque_append 200 m l) ms (events acc)).
  { induction ms as [ | m ms IH ]; intros acc; [ reflexivity | ].
    cbn [fold_left]. rewrite IH. reflexivity. }
  assert (Heq : events s'
                = skipn (List.length (events s ++ messages) - 200)
                        (events s ++ messages)%list).
  { unfold s'. rewrite Hevents. apply deque_append_all. exact Hlen. }
  split; [ exact Heq | ]. split; [ | reflexivity ].
  rewrite Heq, length_skipn. lia.
Qed.

Lemma events_hold_last_200_witness :
  let s := fold_left (fun acc m => add_event m acc) (repeat "tick"%string 200) init in
  events (add_event "last" (add_event "first" s))
  = (repeat "tick"%string 198 ++ ["first"%string; "last"%string])%list.
Proof.
  intros s.
  assert (Hs : events s = repeat "tick"%string 200).
  { destruct (events_hold_last_200 (repeat "tick"%string 200) init) as (H & _).
    - cbn. lia.
    - cbv zeta in H. unfold s. rewrite H. reflexivity. }
  destruct (events_hold_last_200 ["first"; "last"]%string s) as (H & _).
  - rewrite Hs. rewrite repeat_length. lia.
  - cbv zeta in H. cbn [fold_left] in H. rewrite H, Hs. reflexivity.
Defined.

(** X15. A trade recorded with a zero entry price cannot be priced or
    closed: [update_trade_price] raises [ZeroDivisionError] with the new
    price already written and the profit fields as they were, and
    [exit_trade] raises it leaving every attribute as it was, so the
    trade stays open and nothing is counted. *)
Theorem zero_entry_price_blocks_exit s tr price reason :
  in_trade s = true -> current_trade s = Some tr -> entry_price tr == 0 ->
  exit_trade price reason s = Raises ZeroDivisionError s
  /\ exists s',
       update_trade_price price s = Raises ZeroDivisionError s'
       /\ current_trade s'
          = Some (mkTrade (symbol tr) (direction tr) (entry_price tr) (quantity tr)
                          (stop_loss tr) (profit_target tr) price (pnl tr)
                          (pnl_percent tr))
       /\ in_trade s' = true
       /\ exit_trade price reason s' = Raises ZeroDivisionError s'.
Proof.
  intros Hin Htr Hzero. apply Qeq_bool_iff in Hzero.
  unfold exit_trade, update_trade_price. rewrite Hin, Htr, Hzero. cbn [negb].
  split; [ reflexivity | ].
  eexists. split; [ reflexivity | ]. cbn. rewrite Hzero. auto.
Qed.

Lemma zero_entry_price_blocks_exit_witness :
  let s := enter_trade "NIFTY26N0318500CE" CALL 0 65 0 0 init in
  in_trade (run [UpdateTradePrice 5; ExitTrade 5 "STOP_LOSS"; ExitTrade 6 "EOD_EXIT"] s)
  = true
  /\ exit_trade 5 "STOP_LOSS" s = Raises ZeroDivisionError s.
Proof.
  intros s. split; [ reflexivity | ].
  apply (zero_entry_price_blocks_exit s
           (mkTrade "NIFTY26N0318500CE" CALL 0 65 0 0 0 0 0) 5 "STOP_LOSS").
  - reflexivity.
  - reflexivity.
  - reflexivity.
Defined.


End SharedStateFacts.

(* ================================================================== *)
(** * Further properties: the orders of a trading day *)
(* ================================================================== *)

(** What an iteration at [now] on the date [today] does to the orders:
    it completes, stays on the date, and places no order, or buys once
    (with no position open, below the cap, on a trading day within the
    entry window, at a confirmed price of MIN_OPTION_PRICE at least and
    with the pivot of the day), or sells the open position once (for a
    reason that holds at [now]), after which the position is cleared, or
    is as it was when the exit did not get past the journal; the order
    comes last. *)
Definition places_one_order_at_most (groww : Groww) (today now : Z) (w : World)
    : Prop :=
  exists w' tr,
    tick groww today now w = Ok tt w'
    /\ Forall is_io tr
    /\ last_trading_date (sess w') = Some today
    /\ (trace w' = (trace w ++ tr)%list
        /\ executed_trades_count (sess w') = executed_trades_count (sess w)
        /\ current_position (sess w') = current_position (sess w)
        \/ (exists direction symbol segment pivot price,
              trace w'
              = (trace w ++ tr ++ [PaperBuy symbol (NIFTY_LOT_SIZE * TRADE_LOTS) price])%list
              /\ current_position (sess w) = None
              /\ current_position (sess w')
                 = Some (opened_position direction symbol segment pivot price)
              /\ (executed_trades_count (sess w) < MAX_DAILY_TRADES)%nat
              /\ executed_trades_count (sess w') = S (executed_trades_count (sess w))
              /\ is_trading_day today = true
              /\ (BIAS_CANDLE_END <= now)%Z /\ (now < ENTRY_CUTOFF)%Z
              /\ daily_pivot_point (sess w) = Some pivot
              /\ MIN_OPTION_PRICE <= price)
        \/ (exists p price reason,
              trace w'
              = (trace w ++ tr
                   ++ [PaperSell (p_symbol p) (p_quantity p) price reason])%list
              /\ current_position (sess w) = Some p
              /\ (current_position (sess w') = None
                  \/ current_position (sess w') = Some p)
              /\ executed_trades_count (sess w') = executed_trades_count (sess w)
              /\ exit_reason_holds now p price reason)).

(** X17. An iteration on the trading date the session is in completes
    and places one order at most, as its last effect.  With no order the
    trade count and the position are as before.  A buy is placed only
    with no position open and the count below MAX_DAILY_TRADES, on a
    trading day, from BIAS_CANDLE_END to before ENTRY_CUTOFF, at a
    confirmed price of MIN_OPTION_PRICE at least and with the pivot of
    the day; it opens the position and counts one trade.  A sale is of
    the open position, for the reason EOD_EXIT from EOD_EXIT on, and
    before that for STOP_LOSS at a quote at or below the stop level or
    for PROFIT_TARGET at a quote at or above the target level; it leaves
    the position cleared, or as it was when the journal's write
    raised. *)
Theorem one_order_per_iteration groww today now w :
  session_inv w -> last_trading_date (sess w) = Some today ->
  places_one_order_at_most groww today now w.
Proof.
  intros Hinv Hdate.
  destruct (tick_same_date groww today now w Hinv Hdate)
    as (t & w' & Hrun & _ & Heff & _).
  unfold stamped in Heff.
  destruct Heff as [ [ Hq | [ Hb | Hs ] ] | Hu ].
  - destruct Hq as ((_ & Hd & _) & Hc & Hp & tr & Ht & Hio).
    msimpl_in Hd. msimpl_in Hc. msimpl_in Hp. msimpl_in Ht.
    exists w', tr. split; [ exact Hrun | ]. split; [ exact Hio | ].
    split; [ congruence | left; auto ].
  - destruct Hb as ((_ & Hd & _) & Hnone & Hcap & Hcount
                    & direction & symbol & segment & pivot & price & tr
                    & (Htrading & Hopen & Hcut & Hpivot) & Hmin & Hpos & Ht & Hio).
    msimpl_in Hd. msimpl_in Hnone. msimpl_in Hcap. msimpl_in Hcount. msimpl_in Ht.
    unfold entry_allowed in *. msimpl_in Hpivot.
    exists w', tr. split; [ exact Hrun | ]. split; [ exact Hio | ].
    split; [ congruence | right; left ].
    exists direction, symbol, segment, pivot, price. auto 12.
  - destruct Hs as ((_ & Hd & _) & Hcount & Hnone & p & price & reason & tr
                    & Hpos & HJ & Ht & Hio).
    msimpl_in Hd. msimpl_in Hcount. msimpl_in Hpos. msimpl_in Ht.
    exists w', tr. split; [ exact Hrun | ]. split; [ exact Hio | ].
    split; [ congruence | right; right ].
    exists p, price, reason. auto 10.
  - destruct Hu as ((_ & Hd & _) & Hcount & Hkeep & p & price & reason & tr
                    & Hpos & HJ & Ht & Hio).
    msimpl_in Hd. msimpl_in Hcount. msimpl_in Hkeep. msimpl_in Hpos. msimpl_in Ht.
    exists w', tr. split; [ exact Hrun | ]. split; [ exact Hio | ].
    split; [ congruence | right; right ].
    exists p, price, reason. rewrite Hkeep. auto 10.
Qed.

(** On [Scenario.quiet_day], with the position of 10:00 open: the
    iteration of 15:20 sells it. *)
Lemma one_order_per_iteration_witness :
  session_inv Scenario.in_trade_at_105
  /\ last_trading_date (sess Scenario.in_trade_at_105) = Some Scenario.day
  /\ places_one_order_at_most Scenario.quiet_day Scenario.day (hhmm 15 20)
       Scenario.in_trade_at_105.
Proof.
  split; [ exact scenario_in_trade_inv | ]. split; [ reflexivity | ].
  apply one_order_per_iteration; [ exact scenario_in_trade_inv | reflexivity ].
Defined.

Definition is_buy (e : Effect) : bool :=
  match e with
  | PaperBuy _ _ _ => true
  | _ => false
  end.

(** The buys among the effects [tr]. *)
Definition buys (tr : list Effect) : nat := List.length (filter is_buy tr).

Lemma buys_app tr1 tr2 : buys (tr1 ++ tr2) = (buys tr1 + buys tr2)%nat.
Proof. unfold buys. rewrite filter_app, length_app. reflexivity. Qed.

Lemma buys_io tr : Forall is_io tr -> buys tr = 0%nat.
Proof.
  induction 1 as [ | e tr He _ IH ]; [ reflexivity | ].
  unfold buys in *. cbn [filter]. destruct e; try exact IH. discriminate He.
Qed.

(** Over iterations on one date the buys placed are the trades counted. *)
Lemma run_same_date_buys groww today times :
  forall w0,
    session_inv w0 -> last_trading_date (sess w0) = Some today ->
    let w := run groww (map (pair today) times) w0 in
    session_inv w /\ last_trading_date (sess w) = Some today
    /\ exists tr,
         trace w = (trace w0 ++ tr)%list
         /\ (buys tr + executed_trades_count (sess w0))%nat
            = executed_trades_count (sess w).
Proof.
  induction times as [ | now times IH ]; intros w0 Hinv Hdate.
  - cbv zeta. cbn [map run]. split; [ exact Hinv | ]. split; [ exact Hdate | ].
    exists []. rewrite app_nil_r. auto.
  - cbn [map run].
    destruct (tick_same_date groww today now w0 Hinv Hdate)
      as (t & w1 & Hrun & Hinv1 & Heff & _).
    rewrite Hrun. cbn [world_of].
    assert (Hstep : last_trading_date (sess w1) = Some today
                    /\ exists tr,
                         trace w1 = (trace w0 ++ tr)%list
                         /\ (buys tr + executed_trades_count (sess w0))%nat
                            = executed_trades_count (sess w1)).
    { unfold stamped in Heff. destruct Heff as [ [ Hq | [ Hb | Hs ] ] | Hu ].
      - destruct Hq as ((_ & Hd & _) & Hc & _ & tr & Ht & Hio).
        msimpl_in Hd. msimpl_in Hc. msimpl_in Ht.
        split; [ congruence | ]. exists tr. split; [ exact Ht | ].
        rewrite (buys_io tr Hio), Hc. reflexivity.
      - destruct Hb as ((_ & Hd & _) & _ & _ & Hc & d & sy & sg & pv & pr & tr
                        & _ & _ & _ & Ht & Hio).
        msimpl_in Hd. msimpl_in Hc. msimpl_in Ht.
        split; [ congruence | ]. eexists. split; [ exact Ht | ].
        rewrite buys_app, (buys_io tr Hio), Hc. reflexivity.
      - destruct Hs as ((_ & Hd & _) & Hc & _ & p & pr & r & tr & _ & _ & Ht & Hio).
        msimpl_in Hd. msimpl_in Hc. msimpl_in Ht.
        split; [ congruence | ]. eexists. split; [ exact Ht | ].
        rewrite buys_app, (buys_io tr Hio), Hc. reflexivity.
      - destruct Hu as ((_ & Hd & _) & Hc & _ & p & pr & r & tr & _ & _ & Ht & Hio).
        msimpl_in Hd. msimpl_in Hc. msimpl_in Ht.
        split; [ congruence | ]. eexists. split; [ exact Ht | ].
        rewrite buys_app, (buys_io tr Hio), Hc. reflexivity. }
    destruct Hstep as (Hdate1 & tr1 & Ht1 & Hb1).
    destruct (IH w1 Hinv1 Hdate1) as (Hinv' & Hdate' & tr & Ht & Hb).
    cbv zeta. split; [ exact Hinv' | ]. split; [ exact Hdate' | ].
    exists (tr1 ++ tr)%list. split; [ rewrite Ht, Ht1, app_assoc; reflexivity | ].
    rewrite buys_app. lia.
Qed.

(** X18. Over any iterations on the trading date the session is in, the
    buys placed are as many as the trade count has gone up, so no more
    than MAX_DAILY_TRADES less the trades already counted.  From the
    start of the program, as long as it stays on the date it was started
    on, the buys placed in all are the trades counted, two at most. *)
Theorem daily_trade_cap groww today times w0 :
  session_inv w0 -> last_trading_date (sess w0) = Some today ->
  let w := run groww (map (pair today) times) w0 in
  (exists tr,
     trace w = (trace w0 ++ tr)%list
     /\ (buys tr + executed_trades_count (sess w0))%nat = executed_trades_count (sess w)
     /\ (buys tr <= MAX_DAILY_TRADES - executed_trades_count (sess w0))%nat)
  /\ forall now,
       let m := main groww (today, now) (map (pair today) times) in
       buys (trace m) = executed_trades_count (sess m)
       /\ (buys (trace m) <= 2)%nat.
Proof.
  intros Hinv Hdate w. split.
  - destruct (run_same_date_buys groww today times w0 Hinv Hdate)
      as ((Hcap & _) & _ & tr & Ht & Hb).
    exists tr. split; [ exact Ht | ]. split; [ exact Hb | ].
    fold w in Hcap, Hb. lia.
  - intros now m. unfold main, run_trading_loop in m. cbn [fst] in m.
    destruct (proj2 (reset_daily_state_run groww today initial_world))
      as (w1 & Hrun1 & Hs1 & _ & _ & tr1 & Ht1 & Hio1); [ discriminate | ].
    pose proof (startup_day_state groww today (today, now) initial_world
                  (initial_world_day_state today)) as (Hinv1 & _).
    rewrite Hrun1 in Hinv1. cbn [world_of] in Hinv1.
    destruct (run_same_date_buys groww today times
                (set_sess (set_last_heartbeat_timestamp (Some (today, now)) (sess w1)) w1)
                Hinv1)
      as ((Hcap & _) & _ & tr & Ht & Hb).
    { msimpl. rewrite Hs1. reflexivity. }
    assert (Hm : m = run groww (map (pair today) times)
                       (set_sess
                          (set_last_heartbeat_timestamp (Some (today, now)) (sess w1)) w1)).
    { unfold m. rewrite Hrun1. reflexivity. }
    rewrite <- Hm in Ht, Hb, Hcap. msimpl_in Ht. msimpl_in Hb.
    rewrite Hs1 in Hb. cbn [executed_trades_count] in Hb.
    cbn [app trace initial_world] in Ht1.
    assert (Hbuys : buys (trace m) = executed_trades_count (sess m)).
    { rewrite Ht, Ht1, buys_app, (buys_io tr1 Hio1). lia. }
    split; [ exact Hbuys | ]. rewrite Hbuys. exact Hcap.
Qed.

(** On [Scenario.quiet_day]: one buy by 10:01, and no more by 15:25. *)
Lemma daily_trade_cap_witness :
  let w := run Scenario.quiet_day
             (map (pair Scenario.day) [hhmm 15 20; hhmm 15 25]) Scenario.in_trade_at_105 in
  buys (trace Scenario.in_trade_at_105) = 1%nat
  /\ executed_trades_count (sess w) = 1%nat
  /\ exists tr, trace w = (trace Scenario.in_trade_at_105 ++ tr)%list /\ buys tr = 0%nat.
Proof.
  intros w. split; [ reflexivity | ]. split; [ reflexivity | ].
  destruct (daily_trade_cap Scenario.quiet_day Scenario.day [hhmm 15 20; hhmm 15 25]
              Scenario.in_trade_at_105 scenario_in_trade_inv eq_refl)
    as ((tr & Ht & _ & Hle) & _).
  exists tr. split; [ exact Ht | ].
  change (executed_trades_count (sess Scenario.in_trade_at_105)) with 1%nat in Hle.
  change MAX_DAILY_TRADES with 2%nat in Hle. 
  assert (Hcount : (buys tr + 1)%nat = 1%nat).
  { destruct (daily_trade_cap Scenario.quiet_day Scenario.day [hhmm 15 20; hhmm 15 25]
                Scenario.in_trade_at_105 scenario_in_trade_inv eq_refl)
      as ((tr' & Ht' & Hb' & _) & _).
    rewrite Ht in Ht'. apply app_inv_head in Ht'. subst tr'. exact Hb'. }
  lia.
Defined.

(** With no heartbeat stamp every iteration ends in the handler: the
    session, the orders, the breakers and the stubs' counters stay as
    they are, whatever the dates and times. *)
Lemma stalled_run groww ticks :
  forall w,
    last_heartbeat_timestamp (sess w) = None ->
    let w' := run groww ticks w in
    sess w' = sess w /\ trace w' = trace w
    /\ spot_price_breaker w' = spot_price_breaker w
    /\ option_price_breaker w' = option_price_breaker w
    /\ ltp_calls w' = ltp_calls w /\ candle_calls w' = candle_calls w.
Proof.
  induction ticks as [ | [ today now ] ticks IH ]; intros w Hnone.
  - cbv zeta. cbn [run]. auto 10.
  - cbn [run]. rewrite tick_without_heartbeat by exact Hnone.
    unfold add_event, modify_dash, modify. cbn [world_of].
    set (w1 := set_dash _ w).
    destruct (IH w1 Hnone) as (Hs & Ht & Hb1 & Hb2 & Hl & Hc).
    cbv zeta. rewrite Hs, Ht, Hb1, Hb2, Hl, Hc. auto 10.
Qed.

(** X19. An iteration that starts a new trading date inside the loop
    leaves the heartbeat stamp cleared by the daily reset.  From then on
    every iteration raises [TypeError] at the heartbeat check and ends in
    the handler: whatever the dates and times of the later iterations,
    the session, the orders placed, the breakers and the requests made
    stay as that iteration left them. *)
Theorem rollover_stalls_loop groww today now w :
  session_inv w -> last_heartbeat_timestamp (sess w) <> None ->
  is_trading_day today = true -> last_trading_date (sess w) <> Some today ->
  exists w1,
    tick groww today now w = Ok tt w1
    /\ last_trading_date (sess w1) = Some today
    /\ last_heartbeat_timestamp (sess w1) = None
    /\ forall ticks,
         let w2 := run groww ticks w1 in
         (forall today' now', loop_body groww today' now' w2 = Raised TypeError w2)
         /\ sess w2 = sess w1 /\ trace w2 = trace w1
         /\ spot_price_breaker w2 = spot_price_breaker w1
         /\ option_price_breaker w2 = option_price_breaker w1
         /\ ltp_calls w2 = ltp_calls w1 /\ candle_calls w2 = candle_calls w1.
Proof.
  intros Hinv Hbeat Htrading Hnew.
  destruct (tick_on_trading_day groww today now w Hinv Hbeat Htrading)
    as (t & w0 & w1 & Hrun0 & _ & Hrun & _ & Heff & _).
  destruct (proj2 (reset_daily_state_run groww today (stamped t w)))
    as (w0' & Hrun0' & Hs0 & _); [ exact Hnew | ].
  rewrite Hrun0 in Hrun0'. apply ok_world in Hrun0'. subst w0'.
  assert (Hkept : last_heartbeat_timestamp (sess w1) = last_heartbeat_timestamp (sess w0)
                  /\ last_trading_date (sess w1) = last_trading_date (sess w0)).
  { destruct Heff as [ (_ & [ ((Hh & Hd & _) & _)
                            | [ ((Hh & Hd & _) & _) | ((Hh & Hd & _) & _) ] ])
                     | (_ & ((Hh & Hd & _) & _)) ];
      auto. }
  destruct Hkept as (Hh & Hd). rewrite Hs0 in Hh, Hd. cbn in Hh, Hd.
  exists w1. split; [ exact Hrun | ]. split; [ exact Hd | ]. split; [ exact Hh | ].
  intros ticks w2.
  destruct (stalled_run groww ticks w1 Hh) as (Hs & Hrest). fold w2 in Hs, Hrest.
  split; [ | split; [ exact Hs | exact Hrest ] ].
  intros today' now'. unfold loop_body.
  apply bind_raised. apply (proj1 (heartbeat_run today' now' w2)).
  rewrite Hs. exact Hh.
Qed.

(** Started on 3 November, [Scenario.quiet_day] makes one iteration on
    4 November, which resets the day; the iterations of 10:00 and 10:01
    that bought on the 3rd now do nothing. *)
Lemma rollover_stalls_loop_witness :
  let w := main Scenario.quiet_day Scenario.opening [] in
  let tomorrow := (Scenario.day + 1)%Z in
  exists w1,
    tick Scenario.quiet_day tomorrow (hhmm 9 0) w = Ok tt w1
    /\ last_trading_date (sess w1) = Some tomorrow
    /\ last_heartbeat_timestamp (sess w1) = None
    /\ let w2 := run Scenario.quiet_day [(tomorrow, hhmm 10 0); (tomorrow, hhmm 10 1)] w1 in
       sess w2 = sess w1 /\ trace w2 = trace w1.
Proof.
  intros w tomorrow.
  destruct (rollover_stalls_loop Scenario.quiet_day tomorrow (hhmm 9 0) w)
    as (w1 & Hrun & Hdate & Hbeat & Hstall).
  - apply main_session_inv.
  - vm_compute. discriminate.
  - reflexivity.
  - vm_compute. intros H. inversion H.
  - exists w1. split; [ exact Hrun | ]. split; [ exact Hdate | ]. split; [ exact Hbeat | ].
    destruct (Hstall [(tomorrow, hhmm 10 0); (tomorrow, hhmm 10 1)])
      as (_ & Hs & Ht & _).
    cbv zeta. split; [ exact Hs | exact Ht ].
Defined.

(** X20. An iteration at or after EOD_EXIT on the trading date the
    session is in, its heartbeat stamp set, places no buy.  With no
    position open it places no order at all.  An open position is sold
    for the reason EOD_EXIT, the sale coming last; the position is
    cleared when the body of the iteration returns, and is as it was
    when the journal's write raised [OSError]. *)
Theorem flat_after_cutoff groww today now w :
  session_inv w -> last_heartbeat_timestamp (sess w) <> None ->
  is_trading_day today = true -> last_trading_date (sess w) = Some today ->
  (EOD_EXIT <= now)%Z ->
  exists w' tr,
    tick groww today now w = Ok tt w'
    /\ Forall is_io tr
    /\ match current_position (sess w) with
       | None =>
           trace w' = (trace w ++ tr)%list /\ current_position (sess w') = None
       | Some p =>
           exists price,
             trace w'
             = (trace w ++ tr
                  ++ [PaperSell (p_symbol p) (p_quantity p) price "EOD_EXIT"])%list
             /\ (loop_body groww today now w = Ok tt w'
                 /\ current_position (sess w') = None
                 \/ (exists w2, loop_body groww today now w = Raised OSError w2)
                    /\ current_position (sess w') = Some p)
       end.
Proof.
  intros Hinv Hbeat Htrading Hdate Hlate.
  destruct (tick_on_trading_day groww today now w Hinv Hbeat Htrading)
    as (t & w0 & w' & Hrun0 & _ & Hrun & _ & Heff & _ & Hflat).
  rewrite (proj1 (reset_daily_state_run groww today (stamped t w))) in Hrun0
    by exact Hdate.
  apply ok_world in Hrun0. subst w0.
  assert (Hreason : forall p price reason,
            exit_reason_holds now p price reason -> reason = "EOD_EXIT").
  { intros p price reason [ (_ & H) | (H & _) ]; [ exact H | lia ]. }
  unfold stamped in Heff.
  destruct Heff as [ (Hok & [ Hq | [ Hb | Hs ] ]) | (Hraised & Hu) ].
  - destruct Hq as (_ & _ & Hpos & tr & Ht & Hio).
    msimpl_in Hpos. msimpl_in Ht.
    exists w', tr. split; [ exact Hrun | ]. split; [ exact Hio | ].
    pose proof (Hflat Hlate Hok) as Hnone. rewrite Hnone in Hpos.
    rewrite <- Hpos. split; [ exact Ht | exact Hnone ].
  - exfalso.
    destruct Hb as (_ & _ & _ & _ & d & sy & sg & pv & pr & tr & (_ & Hcut & _) & _).
    unfold ENTRY_CUTOFF, EOD_EXIT in *. lia.
  - destruct Hs as (_ & _ & Hnone & p & pr & r & tr & Hpos & HJ & Ht & Hio).
    msimpl_in Hpos. msimpl_in Ht.
    exists w', tr. split; [ exact Hrun | ]. split; [ exact Hio | ].
    rewrite Hpos. exists pr. rewrite <- (Hreason _ _ _ HJ).
    split; [ exact Ht | left; split; assumption ].
  - destruct Hu as (_ & _ & Hkeep & p & pr & r & tr & Hpos & HJ & Ht & Hio).
    msimpl_in Hkeep. msimpl_in Hpos. msimpl_in Ht.
    exists w', tr. split; [ exact Hrun | ]. split; [ exact Hio | ].
    rewrite Hpos. exists pr. rewrite <- (Hreason _ _ _ HJ).
    split; [ exact Ht | right; split; [ exact Hraised | congruence ] ].
Qed.

(** At 15:25 the position of [Scenario.in_trade_at_105] is sold and
    cleared on [Scenario.quiet_day]; on [Scenario.journal_down] it is
    sold and kept. *)
Lemma flat_after_cutoff_witness :
  (exists p, current_position (sess Scenario.in_trade_at_105) = Some p)
  /\ (exists w' tr price,
        tick Scenario.quiet_day Scenario.day (hhmm 15 25) Scenario.in_trade_at_105
        = Ok tt w'
        /\ trace w'
           = (trace Scenario.in_trade_at_105 ++ tr
                ++ [PaperSell "NIFTY26N0318500CE" 65 price "EOD_EXIT"])%list
        /\ current_position (sess w') = None)
  /\ (exists w' tr price,
        tick Scenario.journal_down Scenario.day (hhmm 15 25) Scenario.in_trade_at_105
        = Ok tt w'
        /\ trace w'
           = (trace Scenario.in_trade_at_105 ++ tr
                ++ [PaperSell "NIFTY26N0318500CE" 65 price "EOD_EXIT"])%list
        /\ current_position (sess w') = current_position (sess Scenario.in_trade_at_105)).
Proof.
  assert (Hbeat : last_heartbeat_timestamp (sess Scenario.in_trade_at_105) <> None)
    by (vm_compute; discriminate).
  assert (Hnow : (EOD_EXIT <= hhmm 15 25)%Z) by (vm_compute; discriminate).
  assert (Hpos : current_position (sess Scenario.in_trade_at_105)
                 = Some (opened_position CALL "NIFTY26N0318500CE" "FNO" 18500 100))
    by (vm_compute; reflexivity).
  split; [ eexists; exact Hpos | ]. split.
  - destruct (flat_after_cutoff Scenario.quiet_day Scenario.day (hhmm 15 25)
                Scenario.in_trade_at_105 scenario_in_trade_inv Hbeat eq_refl eq_refl Hnow)
      as (w' & tr & Hrun & _ & Hsold).
    rewrite Hpos in Hsold. destruct Hsold as (price & Ht & Hend).
    exists w', tr, price. split; [ exact Hrun | ]. split; [ exact Ht | ].
    destruct Hend as [ (_ & Hnone) | ((w2 & Hraised) & _) ]; [ exact Hnone | ].
    vm_compute in Hraised. discriminate Hraised.
  - destruct (flat_after_cutoff Scenario.journal_down Scenario.day (hhmm 15 25)
                Scenario.in_trade_at_105 scenario_in_trade_inv Hbeat eq_refl eq_refl Hnow)
      as (w' & tr & Hrun & _ & Hsold).
    rewrite Hpos in Hsold. destruct Hsold as (price & Ht & Hend).
    exists w', tr, price. split; [ exact Hrun | ]. split; [ exact Ht | ].
    destruct Hend as [ (Hok & _) | (_ & Hkept) ]; [ | rewrite Hkept, Hpos; reflexivity ].
    vm_compute in Hok. discriminate Hok.
Defined.

Definition is_sell (e : Effect) : bool :=
  match e with
  | PaperSell _ _ _ _ => true
  | _ => false
  end.

(** The sales among the effects [tr]. *)
Definition sells (tr : list Effect) : nat := List.length (filter is_sell tr).

Lemma sells_app tr1 tr2 : sells (tr1 ++ tr2) = (sells tr1 + sells tr2)%nat.
Proof. unfold sells. rewrite filter_app, length_app. reflexivity. Qed.

Lemma sells_io tr : Forall is_io tr -> sells tr = 0%nat.
Proof.
  induction 1 as [ | e tr He _ IH ]; [ reflexivity | ].
  unfold sells in *. cbn [filter]. destruct e; try exact IH. discriminate He.
Qed.

(** One iteration at or after EOD_EXIT with a position open and a
    journal that cannot be written: the sale is placed, the exit raises,
    and the handler leaves the position open. *)
Lemma unbooked_tick groww today now w p :
  session_inv w ->
  (exists last, last_heartbeat_timestamp (sess w) = Some last) ->
  is_trading_day today = true -> last_trading_date (sess w) = Some today ->
  current_position (sess w) = Some p -> (EOD_EXIT <= now)%Z ->
  (forall n, journal_writable groww n = false) ->
  exists w' tr price,
    tick groww today now w = Ok tt w'
    /\ session_inv w'
    /\ (exists last, last_heartbeat_timestamp (sess w') = Some last)
    /\ last_trading_date (sess w') = Some today
    /\ current_position (sess w') = Some p
    /\ trace w'
       = (trace w ++ tr ++ [PaperSell (p_symbol p) (p_quantity p) price "EOD_EXIT"])%list
    /\ Forall is_io tr.
Proof.
  intros Hinv (last & Hbeat) Htrading Hdate Hpos Hnow Hdown.
  assert (Hrunh : exists t0, heartbeat today now w = Ok tt (stamped (Some t0) w)).
  { unfold heartbeat. msimpl. rewrite Hbeat.
    destruct (heartbeat_due last today now).
    - eexists. reflexivity.
    - exists last. unfold stamped. rewrite <- Hbeat. destruct w as [ [ ] ]. reflexivity. }
  destruct Hrunh as (t0 & Hrunh).
  set (wh := stamped (Some t0) w) in *.
  assert (Hinvh : session_inv wh) by exact Hinv.
  assert (Hposh : current_position (sess wh) = Some p) by exact Hpos.
  destruct (force_eod_exit_run groww today wh p Hinvh Hposh)
    as (w0 & quote & w1 & _ & _ & Hq1 & Hinv1 & Hpos1 & Hforce).
  pose proof (exit_position_run groww today
                match quote with Some q => q | None => p_entry_price p end
                "EOD_EXIT" w1 p Hinv1 Hpos1) as Hexit.
  cbv zeta in Hexit. rewrite Hdown in Hexit.
  assert (Hbody : loop_body groww today now w
                  = Raised OSError
                      (tick_journal
                         (emit (PaperSell (p_symbol p) (p_quantity p)
                                  match quote with Some q => q | None => p_entry_price p end
                                  "EOD_EXIT") w1))).
  { unfold loop_body. rewrite (bind_ok _ _ _ _ _ Hrunh), Htrading. cbn [negb].
    rewrite (bind_ok _ _ _ _ _ (proj1 (reset_daily_state_run groww today wh) Hdate)).
    cbn [bind gets]. pose proof Hinvh as (_ & Hok & _).
    destruct (Hok p Hposh) as (_ & _ & _ & Hpivot & _).
    destruct (daily_pivot_point (sess wh)) as [ pivot | ];
      [ | exfalso; apply Hpivot; reflexivity ].
    rewrite Hposh. unfold position_management.
    rewrite (proj2 (Z.leb_le _ _) Hnow), Hforce. exact Hexit. }
  destruct Hq1 as ((Hh1 & Hd1 & _) & _ & _ & tr & Ht1 & Hio1).
  unfold tick, try_except. rewrite Hbody.
  eexists. exists tr. eexists. split; [ reflexivity | ].
  split.
  { destruct Hinv1 as (Hcap & Hok & Hdash). split; [ exact Hcap | ].
    split; [ exact Hok | exact Hdash ]. }
  msimpl. rewrite Hh1, Hd1.
  split; [ exists t0; reflexivity | ]. split; [ exact Hdate | ].
  split; [ exact Hpos1 | ].
  split; [ rewrite Ht1, <- app_assoc; reflexivity | exact Hio1 ].
Qed.

(** X27. While the journal cannot be written, a position open at
    EOD_EXIT is never closed: every iteration at or after EOD_EXIT on
    the trading date the session is in sells the position once more
    for the reason EOD_EXIT, buys nothing, and leaves the position
    open, so that after [n] such iterations [n] sales have been
    placed. *)
Theorem unbooked_exit_repeats groww today times :
  forall w p,
    session_inv w -> last_heartbeat_timestamp (sess w) <> None ->
    is_trading_day today = true -> last_trading_date (sess w) = Some today ->
    current_position (sess w) = Some p ->
    (forall n, journal_writable groww n = false) ->
    (forall now, In now times -> (EOD_EXIT <= now)%Z) ->
    let w' := run groww (map (pair today) times) w in
    current_position (sess w') = Some p
    /\ exists tr,
         trace w' = (trace w ++ tr)%list
         /\ sells tr = List.length times /\ buys tr = 0%nat.
Proof.
  induction times as [ | now times IH ];
    intros w p Hinv Hbeat Htrading Hdate Hpos Hdown Hlate.
  - cbv zeta. cbn [map run]. split; [ exact Hpos | ].
    exists []. rewrite app_nil_r. auto.
  - cbn [map run].
    assert (Hstamp : exists last, last_heartbeat_timestamp (sess w) = Some last).
    { destruct (last_heartbeat_timestamp (sess w)) as [ last | ];
        [ exists last; reflexivity | exfalso; apply Hbeat; reflexivity ]. }
    destruct (unbooked_tick groww today now w p Hinv Hstamp Htrading Hdate Hpos
                (Hlate now (or_introl eq_refl)) Hdown)
      as (w1 & tr1 & price & Hrun & Hinv1 & (last1 & Hbeat1) & Hdate1 & Hpos1 & Ht1 & Hio1).
    rewrite Hrun. cbn [world_of].
    destruct (IH w1 p Hinv1) as (Hkept & tr & Ht & Hs & Hb); try assumption.
    { rewrite Hbeat1. discriminate. }
    { intros now' Hin. apply Hlate. right. exact Hin. }
    cbv zeta. split; [ exact Hkept | ].
    exists ((tr1 ++ [PaperSell (p_symbol p) (p_quantity p) price "EOD_EXIT"]) ++ tr)%list.
    split; [ rewrite Ht, Ht1, <- !app_assoc; reflexivity | ].
    rewrite !sells_app, !buys_app, (sells_io _ Hio1), (buys_io _ Hio1), Hs, Hb.
    split; reflexivity.
Qed.

(** On [Scenario.journal_down] the position of
    [Scenario.in_trade_at_105] is sold at 15:20, at 15:25 and at 15:26,
    and is still open. *)
Lemma unbooked_exit_repeats_witness :
  let w := Scenario.in_trade_at_105 in
  let w' := run Scenario.journal_down
              (map (pair Scenario.day) [hhmm 15 20; hhmm 15 25; hhmm 15 26]) w in
  current_position (sess w') = current_position (sess w)
  /\ current_position (sess w') <> None
  /\ exists tr, trace w' = (trace w ++ tr)%list /\ sells tr = 3%nat /\ buys tr = 0%nat.
Proof.
  intros w w'.
  assert (Hpos : current_position (sess w)
                 = Some (opened_position CALL "NIFTY26N0318500CE" "FNO" 18500 100))
    by (vm_compute; reflexivity).
  assert (Hbeat : last_heartbeat_timestamp (sess w) <> None)
    by (vm_compute; discriminate).
  assert (Hlate : forall now, In now [hhmm 15 20; hhmm 15 25; hhmm 15 26] ->
                              (EOD_EXIT <= now)%Z).
  { intros now [ <- | [ <- | [ <- | [] ] ] ]; vm_compute; discriminate. }
  destruct (unbooked_exit_repeats Scenario.journal_down Scenario.day
              [hhmm 15 20; hhmm 15 25; hhmm 15 26] w _ scenario_in_trade_inv Hbeat
              eq_refl eq_refl Hpos (fun n => eq_refl) Hlate) as (Hkept & Htr).
  fold w' in Hkept, Htr. rewrite Hkept, Hpos.
  split; [ reflexivity | ]. split; [ discriminate | exact Htr ].
Defined.

(** X21. Once the bias of the date is NEUTRAL, no iteration on that date
    places an order: the bias stays NEUTRAL, no position is opened, the
    trade count stays, and the effects added are requests and waits
    only. *)
Theorem neutral_day_places_no_order groww today times :
  forall w0,
    session_inv w0 -> last_trading_date (sess w0) = Some today ->
    daily_bias (sess w0) = Some NEUTRAL ->
    let w := run groww (map (pair today) times) w0 in
    daily_bias (sess w) = Some NEUTRAL
    /\ current_position (sess w) = None
    /\ executed_trades_count (sess w) = executed_trades_count (sess w0)
    /\ exists tr, trace w = (trace w0 ++ tr)%list /\ Forall is_io tr.
Proof.
  induction times as [ | now times IH ]; intros w0 Hinv Hdate Hneutral.
  - cbv zeta. cbn [map run]. split; [ exact Hneutral | ].
    split; [ | split; [ reflexivity | exists []; rewrite app_nil_r; auto ] ].
    destruct (current_position (sess w0)) as [ p | ] eqn:Hpos; [ | reflexivity ].
    exfalso. destruct Hinv as (_ & Hok & _).
    destruct (Hok p Hpos) as (_ & _ & (b & Hb & Hdir) & _).
    rewrite Hneutral in Hb. inversion Hb; subst b. discriminate.
  - cbn [map run].
    destruct (tick_same_date groww today now w0 Hinv Hdate)
      as (t & w1 & Hrun & Hinv1 & _ & Hq).
    rewrite Hrun. cbn [world_of].
    destruct (Hq Hneutral) as ((_ & Hd & _ & Hb) & Hc & _ & tr1 & Ht1 & Hio1).
    unfold stamped in *. msimpl_in Hd. msimpl_in Hb. msimpl_in Hc. msimpl_in Ht1.
    assert (Hneutral1 : daily_bias (sess w1) = Some NEUTRAL).
    { rewrite Hb; [ exact Hneutral | rewrite Hneutral; discriminate ]. }
    destruct (IH w1 Hinv1) as (Hn & Hp & Hcount & tr & Ht & Hio);
      [ congruence | exact Hneutral1 | ].
    cbv zeta. split; [ exact Hn | ]. split; [ exact Hp | ].
    split; [ congruence | ].
    exists (tr1 ++ tr)%list. split; [ rewrite Ht, Ht1, app_assoc; reflexivity | ].
    apply Forall_app. auto.
Qed.

(** A day whose opening candle closes at the pivot 18500: the bias taken
    at 09:30 is NEUTRAL, and the iterations of 10:00 and 11:00 buy
    nothing although quotes are on offer. *)
Lemma neutral_day_places_no_order_witness :
  let g := mkGroww (fun n _ _ => nth n [Some 18505; Some 100; Some 100] None)
             (fun n interval =>
                if (interval =? 1440)%Z then Some [Scenario.yesterday_candle]
                else Some [mkRaw 1793701800 18490 18520 18480 18500 0])
             (fun n => 1000 + inject_Z (Z.of_nat n))
             (fun today => Some (today + 2)%Z)
             (fun _ _ _ => Some Scenario.contract)
             (fun _ => true) in
  let w0 := main g Scenario.opening [(Scenario.day, hhmm 9 30)] in
  daily_bias (sess w0) = Some NEUTRAL
  /\ let w := run g (map (pair Scenario.day) [hhmm 10 0; hhmm 11 0]) w0 in
     current_position (sess w) = None
     /\ executed_trades_count (sess w) = 0%nat.
Proof.
  intros g w0.
  assert (Hneutral : daily_bias (sess w0) = Some NEUTRAL) by reflexivity.
  split; [ exact Hneutral | ].
  destruct (neutral_day_places_no_order g Scenario.day [hhmm 10 0; hhmm 11 0] w0)
    as (_ & Hp & Hc & _).
  - apply main_session_inv.
  - reflexivity.
  - exact Hneutral.
  - cbv zeta. split; [ exact Hp | rewrite Hc; reflexivity ].
Defined.

(* ================================================================== *)
(** * Further properties: entering, monitoring and the daily reset *)
(* ================================================================== *)

(** The error of one rounding to a double, for a number of magnitude
    [B] at most. *)
Lemma rd_within y B :
  Qabs y <= B ->
  Qabs (Double.rd y - y) <= B * (1 # 9007199254740992) + (1 # 100000000000000000000).
Proof.
  intros Hy. apply (Qle_trans _ _ _ (DoubleFacts.rd_rel y)).
  assert (E53 : Double.pow2 (-53) == 1 # 9007199254740992) by reflexivity.
  assert (Et : Double.pow2 (-1075) <= 1 # 100000000000000000000)
    by (vm_compute; discriminate).
  rewrite E53. apply Qplus_le_compat; [ | exact Et ].
  apply Qmult_le_compat_r; [ exact Hy | discriminate ].
Qed.

(** A level [round(entry * f, 2)] for an entry price within the option
    range and a factor [f] between 0 and 2. *)
Lemma level_close entry f :
  MIN_OPTION_PRICE <= entry -> entry <= MAX_OPTION_PRICE -> 0 <= f -> f <= 2 ->
  Qabs (py_round2 (Double.mul entry f) - entry * f) <= (1 # 200) + (1 # 2000000000).
Proof.
  unfold MIN_OPTION_PRICE, MAX_OPTION_PRICE, Double.mul. intros Hmin Hmax Hf0 Hf2.
  assert (Hprod : 0 <= entry * f /\ entry * f <= 2000).
  { split; [ apply Qmult_le_0_compat; lra | ].
    apply (Qle_trans _ (1000 * f)); [ apply Qmult_le_compat_r; lra | lra ]. }
  set (x := entry * f) in *.
  pose proof (rd_within x 2000 ltac:(apply Qabs_Qle_condition; split; lra)) as H1.
  apply Qabs_Qle_condition in H1.
  destruct (py_round2_spec (Double.rd x)) as (k & -> & Hk & _).
  apply Qabs_Qle_condition in Hk.
  set (q := k # 100) in *.
  pose proof (rd_within q 2001 ltac:(apply Qabs_Qle_condition; split; lra)) as H2.
  apply Qabs_Qle_condition in H2.
  apply Qabs_Qle_condition. split; lra.
Qed.

(** The levels of a position opened at an entry price within the option
    range. *)
Lemma opened_position_levels direction symbol segment pivot entry :
  MIN_OPTION_PRICE <= entry -> entry <= MAX_OPTION_PRICE ->
  let p := opened_position direction symbol segment pivot entry in
  Qabs (p_stop_loss p - entry * (9 # 10)) <= (1 # 200) + (1 # 1000000000)
  /\ Qabs (p_profit_target p - entry * (11 # 10)) <= (1 # 200) + (1 # 1000000000)
  /\ p_stop_loss p < entry /\ entry < p_profit_target p.
Proof.
  intros Hmin Hmax. cbv zeta. unfold opened_position. cbn [p_stop_loss p_profit_target].
  replace (Double.sub 1 STOP_LOSS_PERCENT) with (8106479329266893 # 9007199254740992)
    by (vm_compute; reflexivity).
  replace (Double.add 1 PROFIT_TARGET_PERCENT) with (2476979795053773 # 2251799813685248)
    by (vm_compute; reflexivity).
  pose proof (level_close entry (8106479329266893 # 9007199254740992) Hmin Hmax
                ltac:(discriminate) ltac:(discriminate)) as Hs.
  pose proof (level_close entry (2476979795053773 # 2251799813685248) Hmin Hmax
                ltac:(discriminate) ltac:(discriminate)) as Ht.
  apply Qabs_Qle_condition in Hs, Ht.
  unfold MIN_OPTION_PRICE, MAX_OPTION_PRICE in *.
  set (sl := py_round2 _) in *. set (pt := py_round2 _) in *.
  split; [ apply Qabs_Qle_condition; split; lra | ].
  split; [ apply Qabs_Qle_condition; split; lra | ].
  split; lra.
Qed.

(** X22. A position that [enter_position] opens is bought at the second
    read of the option price, which lies within the option range, in
    the quantity NIFTY_LOT_SIZE times TRADE_LOTS, and carries the
    direction, the contract and the pivot it was given.  Its levels are
    the roundings [round(entry * (1 - 0.10), 2)] and
    [round(entry * (1 + 0.10), 2)] of the double products: the stop loss
    is strictly below and the profit target strictly above the entry
    price, each within half a hundredth and a billionth of 90% and of
    110% of it.  The trade is counted once and the buy is the one order
    placed. *)
Theorem entered_position_levels groww direction symbol segment pivot w position w' :
  enter_position groww direction symbol segment pivot w = Ok (Some position) w' ->
  let entry := p_entry_price position in
  (exists first w1 w2,
      fetch_option_price groww symbol segment w = Ok first w1
      /\ fetch_option_price groww symbol segment (emit (Sleep (1 # 2)) w1)
         = Ok (Some entry) w2)
  /\ (MIN_OPTION_PRICE <= entry /\ entry <= MAX_OPTION_PRICE)
  /\ position = opened_position direction symbol segment pivot entry
  /\ (p_stop_loss position < entry /\ entry < p_profit_target position)
  /\ Qabs (p_stop_loss position - entry * (9 # 10)) <= (1 # 200) + (1 # 1000000000)
  /\ Qabs (p_profit_target position - entry * (11 # 10)) <= (1 # 200) + (1 # 1000000000)
  /\ p_quantity position = 65%Z
  /\ current_position (sess w') = Some position
  /\ executed_trades_count (sess w') = S (executed_trades_count (sess w))
  /\ exists tr,
       trace w' = (trace w ++ tr ++ [PaperBuy symbol 65 entry])%list /\ Forall is_io tr.
Proof.
  intros Hrun.
  destruct (enter_position_run groww direction symbol segment pivot w) as (Hblocked & Hfree).
  destruct (le_lt_dec MAX_DAILY_TRADES (executed_trades_count (sess w))) as [ Hcap | Hlt ].
  { rewrite Hblocked in Hrun by (left; exact Hcap). discriminate. }
  destruct (current_position (sess w)) as [ p | ] eqn:Hnone.
  { rewrite Hblocked in Hrun by (right; discriminate). discriminate. }
  destruct (Hfree Hlt eq_refl)
    as (first & w1 & confirm & w2 & Hrun1 & Hrun2 & Hio & Habort & Henter).
  destruct (entry_prices_unusable_run first confirm w2) as (b & _ & Hb).
  destruct b.
  { destruct (Habort (proj1 Hb eq_refl)) as (w'' & Hrun' & _).
    rewrite Hrun' in Hrun. discriminate. }
  destruct Henter as (price & d & Hconfirm & Hmin & Hrun' & _).
  { intros H. apply Hb in H. discriminate. }
  subst confirm.
  assert (Hmax : price <= MAX_OPTION_PRICE).
  { destruct (fetch_option_price_run groww symbol segment (emit (Sleep (1 # 2)) w1))
      as (r & w2' & Hrun2' & _ & Hrange).
    rewrite Hrun2 in Hrun2'. inversion Hrun2'; subst r w2'.
    apply (Hrange price eq_refl). }
  cbv zeta in Hrun'. rewrite Hrun' in Hrun. inversion Hrun; subst position w'. clear Hrun.
  destruct Hio as (Hs & _ & tr & Ht & Hf).
  destruct (opened_position_levels direction symbol segment pivot price Hmin Hmax)
    as (Hsl & Hpt & Hbelow & Habove).
  cbv zeta.
  change (p_entry_price (opened_position direction symbol segment pivot price))
    with price.
  split; [ exists first, w1, w2; split; assumption | ].
  split; [ split; assumption | ]. split; [ reflexivity | ].
  split; [ split; assumption | ]. split; [ exact Hsl | ]. split; [ exact Hpt | ].
  split; [ reflexivity | ].
  msimpl. rewrite Hs.
  split; [ reflexivity | ]. split; [ reflexivity | ].
  exists tr. split; [ rewrite Ht, <- app_assoc; reflexivity | exact Hf ].
Qed.

(** On [Scenario.tie_day] the reads are the double 50.25 twice: the
    position is opened at 50.25, with the stop loss at the double 45.23
    and the profit target at the double 55.28, where the exact products
    45.225 and 55.275 would round to 45.22 and 55.28. *)
Lemma entered_position_levels_witness :
  exists position w',
    enter_position Scenario.tie_day CALL "NIFTY26N0318500CE" "FNO" 18500
      Scenario.after_reset = Ok (Some position) w'
    /\ p_entry_price position = (201 # 4)
    /\ p_stop_loss position = (6365556598311485 # 140737488355328)
    /\ p_profit_target position = (1944992089070633 # 35184372088832)
    /\ p_stop_loss position < p_entry_price position
    /\ p_entry_price position < p_profit_target position.
Proof.
  destruct (enter_position Scenario.tie_day CALL "NIFTY26N0318500CE" "FNO" 18500
              Scenario.after_reset) as [ [ position | ] w' | e w' ] eqn:Hrun;
    try (vm_compute in Hrun; discriminate Hrun).
  exists position, w'. split; [ reflexivity | ].
  destruct (entered_position_levels _ _ _ _ _ _ _ _ Hrun)
    as (_ & _ & _ & (Hlo & Hhi) & _).
  vm_compute in Hrun. inversion Hrun; subst position.
  split; [ reflexivity | ]. split; [ reflexivity | ]. split; [ reflexivity | ].
  split; [ exact Hlo | exact Hhi ].
Defined.

(** What a check of the open position [p] against a level does on the
    date [today], given the quote its fetch obtains and the globals [w1]
    the fetch leaves.  No quote: nothing more.  A quote that hits the
    level: the sale of the position at that quote for the reason of the
    check, and then, when the journal can be written, the row of the
    trade appended and the position cleared, and otherwise [OSError]
    raised with the position and the journal as they were.  Another
    quote: no order, the session as it was and the quote shown on the
    dashboard as the last price. *)
Definition check_contract (groww : Groww) (today : Z) (check : M unit)
    (level_hit : Q -> Prop) (reason : string)
    (w : World) (p : Position) (quote : option Q) (w1 : World) : Prop :=
  match quote with
  | None => check w = Ok tt w1
  | Some q =>
      (level_hit q ->
       trace (world_of (check w))
       = (trace w1 ++ [PaperSell (p_symbol p) (p_quantity p) q reason])%list
       /\ executed_trades_count (sess (world_of (check w)))
          = executed_trades_count (sess w)
       /\ if journal_writable groww (journal_calls w1)
          then exists w',
                 check w = Ok tt w'
                 /\ current_position (sess w') = None
                 /\ journal w' = (journal w1 ++ [Journal.trade_record today p q reason])%list
          else exists w',
                 check w = Raised OSError w'
                 /\ current_position (sess w') = Some p
                 /\ journal w' = journal w1)
      /\ (~ level_hit q ->
          exists w',
            check w = Ok tt w'
            /\ sess w' = sess w /\ trace w' = trace w1
            /\ (current_trade (dash w) <> None -> last_known_price w' = Some q))
  end.

Lemma monitor_contract groww today hit reason w p :
  session_inv w -> current_position (sess w) = Some p ->
  exists quote w1,
    fetch_option_price groww (p_symbol p) (p_segment p) w = Ok quote w1
    /\ check_contract groww today (monitor groww today hit reason)
         (fun q => hit p q = true) reason w p quote w1.
Proof.
  intros Hinv Hpos.
  destruct (fetch_option_price_run groww (p_symbol p) (p_segment p) w)
    as (quote & w1 & Hrun1 & Hio1 & _).
  exists quote, w1. split; [ exact Hrun1 | ].
  unfold check_contract, monitor. msimpl. rewrite Hpos.
  rewrite (bind_ok _ _ _ _ _ Hrun1).
  destruct quote as [ q | ]; [ | reflexivity ].
  pose proof (io_only_step _ _ Hinv Hio1) as (Hinv1 & _).
  destruct (dash_update_trade_price_run q w1 Hinv1) as (w2 & Hrun2 & Hdw2 & Hlast).
  rewrite (bind_ok _ _ _ _ _ Hrun2).
  pose proof (dash_write_step _ _ Hinv1 Hdw2) as (Hinv2 & _).
  destruct Hio1 as (Hs1 & Hd1 & _).
  assert (Hs2 : sess w2 = sess w) by (rewrite (dash_write_sess _ _ Hdw2); exact Hs1).
  assert (Ht2 : trace w2 = trace w1) by exact (dash_write_trace _ _ Hdw2).
  assert (Hj2 : journal w2 = journal w1 /\ journal_calls w2 = journal_calls w1).
  { destruct Hdw2 as (d & -> & _). split; reflexivity. }
  destruct Hj2 as (Hj2 & Hc2).
  destruct (hit p q) eqn:Ehit.
  - assert (Hpos2 : current_position (sess w2) = Some p) by (rewrite Hs2; exact Hpos).
    pose proof (exit_position_run groww today q reason w2 p Hinv2 Hpos2) as Hrun3.
    cbv zeta in Hrun3. rewrite Hc2 in Hrun3.
    split; [ intros _ | intros H; exfalso; apply H; reflexivity ].
    destruct (journal_writable groww (journal_calls w1)).
    + destruct Hrun3 as (d & -> & _). msimpl. rewrite Hs2, Ht2.
      split; [ reflexivity | ]. split; [ reflexivity | ].
      eexists. split; [ reflexivity | ]. msimpl. rewrite Hj2. split; reflexivity.
    + rewrite Hrun3. msimpl. rewrite Hs2, Ht2.
      split; [ reflexivity | ]. split; [ reflexivity | ].
      eexists. split; [ reflexivity | ]. msimpl. rewrite Hs2, Hj2.
      split; [ exact Hpos | reflexivity ].
  - split; [ discriminate | ]. intros _.
    exists w2. split; [ reflexivity | ].
    split; [ exact Hs2 | ]. split; [ exact Ht2 | ].
    intros Hshown. rewrite <- Hd1 in Hshown.
    destruct (current_trade (dash w1)) as [ t | ] eqn:Et;
      [ exact (Hlast t eq_refl) | exfalso; apply Hshown; reflexivity ].
Qed.

(** X23. With a position open, [check_stop_loss] and
    [check_profit_target] each fetch one quote.  Without a quote they do
    nothing more.  The stop-loss check sells at the quote, for the
    reason STOP_LOSS, exactly when the quote is at or below the stop
    level; the profit-target check sells at the quote, for the reason
    PROFIT_TARGET, exactly when the quote is at or above the target
    level.  After the sale the trade is journalled and the position
    cleared when the journal can be written; when it cannot, the check
    raises [OSError] and the position and the journal are as they were.
    With a quote that does not reach the level no order is placed, the
    session is as it was, and the dashboard shows the quote as the last
    price. *)
Theorem stop_and_target_checks groww today w p :
  session_inv w -> current_position (sess w) = Some p ->
  exists quote w1,
    fetch_option_price groww (p_symbol p) (p_segment p) w = Ok quote w1
    /\ check_contract groww today (check_stop_loss groww today)
         (fun q => q <= p_stop_loss p) "STOP_LOSS" w p quote w1
    /\ check_contract groww today (check_profit_target groww today)
         (fun q => p_profit_target p <= q) "PROFIT_TARGET" w p quote w1.
Proof.
  intros Hinv Hpos.
  destruct (monitor_contract groww today
              (fun position price => Qle_bool price (p_stop_loss position))
              "STOP_LOSS" w p Hinv Hpos) as (quote & w1 & Hrun & Hspec).
  destruct (monitor_contract groww today
              (fun position price => Qle_bool (p_profit_target position) price)
              "PROFIT_TARGET" w p Hinv Hpos) as (quote' & w1' & Hrun' & Hspec').
  rewrite Hrun in Hrun'. inversion Hrun'; subst quote' w1'. clear Hrun'.
  exists quote, w1. split; [ exact Hrun | ].
  rewrite check_stop_loss_monitor, check_profit_target_monitor.
  unfold check_contract in *.
  destruct quote as [ q | ]; [ | split; assumption ].
  destruct Hspec as (Hhit & Hmiss). destruct Hspec' as (Hhit' & Hmiss').
  split; split.
  - intros Hle. apply Hhit. apply Qle_bool_iff. exact Hle.
  - intros Hnot. apply Hmiss. intros H. apply Hnot. apply Qle_bool_iff. exact H.
  - intros Hle. apply Hhit'. apply Qle_bool_iff. exact Hle.
  - intros Hnot. apply Hmiss'. intros H. apply Hnot. apply Qle_bool_iff. exact H.
Qed.

(** On [Scenario.quiet_day], with the position bought at 100 at 10:00:
    the next quote is 105, between the levels 90 and 110, and neither
    check sells.  On [Scenario.target_day] the next quote is 111: the
    profit-target check sells at 111 and journals the trade with a
    profit of 715, and with the journal of [Scenario.target_day_down],
    which cannot be written, it sells, raises and keeps the position. *)
Lemma stop_and_target_checks_witness :
  let w := main Scenario.quiet_day Scenario.opening [(Scenario.day, hhmm 10 0)] in
  let p := opened_position CALL "NIFTY26N0318500CE" "FNO" 18500 100 in
  current_position (sess w) = Some p
  /\ (exists w1,
        fetch_option_price Scenario.quiet_day (p_symbol p) (p_segment p) w
        = Ok (Some 105) w1
        /\ check_contract Scenario.quiet_day Scenario.day
             (check_stop_loss Scenario.quiet_day Scenario.day)
             (fun q => q <= p_stop_loss p) "STOP_LOSS" w p (Some 105) w1
        /\ sess (world_of (check_stop_loss Scenario.quiet_day Scenario.day w)) = sess w)
  /\ (exists w',
        check_profit_target Scenario.target_day Scenario.day w = Ok tt w'
        /\ current_position (sess w') = None
        /\ map Journal.j_pnl (journal w') = [715]
        /\ In (PaperSell "NIFTY26N0318500CE" 65 111 "PROFIT_TARGET") (trace w'))
  /\ (exists w',
        check_profit_target Scenario.target_day_down Scenario.day w = Raised OSError w'
        /\ current_position (sess w') = Some p
        /\ journal w' = []
        /\ In (PaperSell "NIFTY26N0318500CE" 65 111 "PROFIT_TARGET") (trace w')).
Proof.
  intros w p.
  assert (Hpos : current_position (sess w) = Some p) by (vm_compute; reflexivity).
  assert (Hinv : session_inv w) by apply main_session_inv.
  split; [ exact Hpos | ]. split; [ | split ].
  - destruct (stop_and_target_checks Scenario.quiet_day Scenario.day w p Hinv Hpos)
      as (quote & w1 & Hrun & Hsl & _).
    assert (Hquote : quote = Some 105).
    { vm_compute in Hrun. inversion Hrun. reflexivity. }
    subst quote. exists w1. split; [ exact Hrun | ]. split; [ exact Hsl | ].
    destruct Hsl as (_ & Hmiss).
    destruct Hmiss as (w' & Hcheck & Hs & _).
    { vm_compute. intros H. apply H. reflexivity. }
    rewrite Hcheck. exact Hs.
  - destruct (stop_and_target_checks Scenario.target_day Scenario.day w p Hinv Hpos)
      as (quote & w1 & Hrun & _ & Hpt).
    assert (Hquote : quote = Some 111).
    { vm_compute in Hrun. inversion Hrun. reflexivity. }
    subst quote. destruct Hpt as (Hhit & _).
    destruct Hhit as (Ht & _ & Hbooked); [ vm_compute; discriminate | ].
    change (journal_writable Scenario.target_day (journal_calls w1)) with true in Hbooked.
    destruct Hbooked as (w' & Hcheck & Hnone & Hj).
    exists w'. split; [ exact Hcheck | ]. split; [ exact Hnone | ].
    rewrite Hcheck in Ht. cbn [world_of] in Ht.
    split.
    + rewrite Hj. vm_compute in Hrun. inversion Hrun; subst w1. vm_compute. reflexivity.
    + rewrite Ht. apply in_or_app. right. left. reflexivity.
  - destruct (stop_and_target_checks Scenario.target_day_down Scenario.day w p Hinv Hpos)
      as (quote & w1 & Hrun & _ & Hpt).
    assert (Hquote : quote = Some 111).
    { vm_compute in Hrun. inversion Hrun. reflexivity. }
    subst quote. destruct Hpt as (Hhit & _).
    destruct Hhit as (Ht & _ & Hkept); [ vm_compute; discriminate | ].
    change (journal_writable Scenario.target_day_down (journal_calls w1)) with false
      in Hkept.
    destruct Hkept as (w' & Hcheck & Hsome & Hj).
    exists w'. split; [ exact Hcheck | ]. split; [ exact Hsome | ].
    rewrite Hcheck in Ht. cbn [world_of] in Ht.
    split.
    + rewrite Hj. vm_compute in Hrun. inversion Hrun; subst w1. reflexivity.
    + rewrite Ht. apply in_or_app. right. left. reflexivity.
Defined.

(** X24. A daily reset on a date other than the one recorded, made with
    a position open, drops the position without selling it: the
    position and the trade count are cleared and the effects added are a
    request and the breakers' resets, no order.  The dashboard is not
    told and goes on showing the trade.  The reset also closes both
    breakers, clears the heartbeat stamp and records the date. *)
Theorem reset_drops_open_position groww today w p :
  last_trading_date (sess w) <> Some today -> current_position (sess w) = Some p ->
  exists w',
    reset_daily_state groww today w = Ok tt w'
    /\ current_position (sess w') = None
    /\ executed_trades_count (sess w') = 0%nat
    /\ last_trading_date (sess w') = Some today
    /\ last_heartbeat_timestamp (sess w') = None
    /\ daily_bias (sess w') = None
    /\ trace w'
       = (trace w ++ [RecordSuccess SpotBreaker; RecordSuccess OptionBreaker;
                      CallCandles 1440])%list
    /\ dash w' = dash w
    /\ spot_price_breaker w' = CircuitBreaker.record_success (spot_price_breaker w)
    /\ option_price_breaker w' = CircuitBreaker.record_success (option_price_breaker w).
Proof.
  intros Hnew Hpos. unfold reset_daily_state. msimpl.
  assert (Hdiff : same_date (last_trading_date (sess w)) today = false).
  { destruct (last_trading_date (sess w)) as [ d | ]; [ | reflexivity ].
    simpl. apply Z.eqb_neq. intros ->. apply Hnew. reflexivity. }
  rewrite Hdiff. unfold breaker_record_success. msimpl.
  rewrite (bind_ok _ _ _ _ _ (fetch_and_calculate_pivot_run groww today _)). msimpl.
  eexists. split; [ reflexivity | ]. msimpl.
  repeat (split; [ reflexivity | ]).
  split; [ rewrite <- !app_assoc; reflexivity | ].
  repeat (split; [ reflexivity | ]). reflexivity.
Qed.

(** The position of [Scenario.quiet_day], still open when the reset of
    4 November runs: it is dropped, and the dashboard keeps showing it. *)
Lemma reset_drops_open_position_witness :
  let w := Scenario.in_trade_at_105 in
  exists w',
    reset_daily_state Scenario.quiet_day (Scenario.day + 1) w = Ok tt w'
    /\ current_position (sess w') = None
    /\ open_orders (trace w') = 1%Z
    /\ last_known_price w' = Some 105.
Proof.
  intros w.
  destruct (reset_drops_open_position Scenario.quiet_day (Scenario.day + 1)%Z w
              (opened_position CALL "NIFTY26N0318500CE" "FNO" 18500 100))
    as (w' & Hrun & Hpos & _ & _ & _ & _ & Ht & Hd & _).
  - vm_compute. intros H. inversion H.
  - reflexivity.
  - exists w'. split; [ exact Hrun | ]. split; [ exact Hpos | ].
    split; [ rewrite Ht; reflexivity | ].
    unfold last_known_price. rewrite Hd. reflexivity.
Defined.

(* ================================================================== *)
(** * Further properties: the trade journal *)
(* ================================================================== *)

Module JournalFacts.
Import Journal.

Lemma rd_nonpos x : x <= 0 -> Double.rd x <= 0.
Proof. intros H. apply (DoubleFacts.rd_int_le 0); [ reflexivity | exact H ]. Qed.

Lemma rd_nonneg x : 0 <= x -> 0 <= Double.rd x.
Proof. intros H. apply (DoubleFacts.rd_int_ge 0); [ reflexivity | exact H ]. Qed.

Lemma py_round2_nonpos x : x <= 0 -> py_round2 x <= 0.
Proof.
  intros H. unfold py_round2. apply rd_nonpos.
  assert (Hk : (round_half_even (x * 100) <= 0)%Z).
  { apply round_half_even_le. change (inject_Z 0) with 0. lra. }
  unfold Qle. simpl. lia.
Qed.

Lemma py_round2_nonneg x : 0 <= x -> 0 <= py_round2 x.
Proof.
  intros H. unfold py_round2. apply rd_nonneg.
  assert (Hk : (0 <= round_half_even (x * 100))%Z).
  { apply round_half_even_ge. change (inject_Z 0) with 0. lra. }
  unfold Qle. simpl. lia.
Qed.

(** X25. Closing the open position at a price within the option range
    writes the journal after the sale.  When the journal can be written
    one row is appended, the [trade_record] of the position, and the
    position is cleared; when it cannot, [exit_position] raises
    [OSError], the journal is as it was and the position stays.  The row
    carries the date, the contract, the direction, the prices, the
    quantity and the reason given.  Its profit and its profit in percent
    are zero for an exit at the entry price, not above zero for an exit
    below it and not below zero for an exit above it. *)
Theorem journal_books_exit groww today exit_price reason w p :
  session_inv w -> current_position (sess w) = Some p ->
  MIN_OPTION_PRICE <= exit_price -> exit_price <= MAX_OPTION_PRICE ->
  let row := trade_record today p exit_price reason in
  (if journal_writable groww (journal_calls w)
   then exists w',
          exit_position groww today exit_price reason w = Ok tt w'
          /\ journal w' = (journal w ++ [row])%list
          /\ journal_calls w' = S (journal_calls w)
          /\ current_position (sess w') = None
   else exists w',
          exit_position groww today exit_price reason w = Raised OSError w'
          /\ journal w' = journal w
          /\ journal_calls w' = S (journal_calls w)
          /\ current_position (sess w') = Some p)
  /\ (j_date row = today /\ j_symbol row = p_symbol p
      /\ j_direction row = p_direction p /\ j_entry_price row = p_entry_price p
      /\ j_exit_price row = exit_price /\ j_quantity row = p_quantity p
      /\ j_exit_reason row = reason)
  /\ (exit_price == p_entry_price p -> j_pnl row = 0 /\ j_pnl_percent row = 0)
  /\ (exit_price <= p_entry_price p -> j_pnl row <= 0 /\ j_pnl_percent row <= 0)
  /\ (p_entry_price p <= exit_price -> 0 <= j_pnl row /\ 0 <= j_pnl_percent row).
Proof.
  intros Hinv Hpos _ _ row.
  pose proof (exit_position_run groww today exit_price reason w p Hinv Hpos) as Hrun.
  cbv zeta in Hrun.
  destruct Hinv as (_ & Hok & _).
  destruct (Hok p Hpos) as (_ & Hmin & _ & _ & _ & Hqty).
  assert (Hentry : 0 < p_entry_price p) by (unfold MIN_OPTION_PRICE in Hmin; lra).
  assert (Hq : 0 <= inject_Z (p_quantity p)) by (rewrite Hqty; discriminate).
  split; [ | split; [ repeat split | split; [ | split ] ] ].
  - destruct (journal_writable groww (journal_calls w)).
    + destruct Hrun as (d & Hrun & _). eexists. split; [ exact Hrun | ].
      repeat split.
    + eexists. split; [ exact Hrun | ]. repeat split. exact Hpos.
  - intros Heq. unfold row, trade_record. cbn [j_pnl j_pnl_percent].
    assert (Hd : Double.sub exit_price (p_entry_price p) = 0).
    { apply DoubleFacts.rd_zero. rewrite Heq. ring. }
    rewrite Hd.
    assert (H1 : Double.mul 0 (inject_Z (p_quantity p)) = 0)
      by (apply DoubleFacts.rd_zero; ring).
    assert (H2 : Double.div 0 (p_entry_price p) = 0).
    { apply DoubleFacts.rd_zero. field. intros E. rewrite E in Hentry. discriminate Hentry. }
    rewrite H1, H2. split; vm_compute; reflexivity.
  - intros Hle. unfold row, trade_record. cbn [j_pnl j_pnl_percent].
    set (d := Double.sub exit_price (p_entry_price p)).
    assert (Hd : d <= 0) by (apply rd_nonpos; lra).
    split; apply py_round2_nonpos; apply rd_nonpos.
    + rewrite <- (Qmult_0_l (inject_Z (p_quantity p))).
      apply Qmult_le_compat_r; assumption.
    + assert (Hr : Double.div d (p_entry_price p) <= 0).
      { apply rd_nonpos. apply Qle_shift_div_r; [ exact Hentry | lra ]. }
      lra.
  - intros Hle. unfold row, trade_record. cbn [j_pnl j_pnl_percent].
    set (d := Double.sub exit_price (p_entry_price p)).
    assert (Hd : 0 <= d) by (apply rd_nonneg; lra).
    split; apply py_round2_nonneg; apply rd_nonneg.
    + apply Qmult_le_0_compat; assumption.
    + assert (Hr : 0 <= Double.div d (p_entry_price p)).
      { apply rd_nonneg. apply Qle_shift_div_l; [ exact Hentry | lra ]. }
      lra.
Qed.

(** The position of [Scenario.quiet_day], bought at 100, closed at 88:
    the journal takes one row, a loss of 780 and of 12%; with the journal
    of [Scenario.journal_down] the exit raises and nothing is written. *)
Lemma journal_books_exit_witness :
  let w := Scenario.in_trade_at_105 in
  (exists w' row,
      exit_position Scenario.quiet_day Scenario.day 88 "STOP_LOSS" w = Ok tt w'
      /\ journal w' = [row]
      /\ j_pnl row = - (780) /\ j_pnl_percent row = - (12)
      /\ j_pnl row <= 0)
  /\ (exists w',
        exit_position Scenario.journal_down Scenario.day 88 "STOP_LOSS" w
        = Raised OSError w'
        /\ journal w' = []
        /\ current_position (sess w') = current_position (sess w)).
Proof.
  intros w.
  assert (Hpos : current_position (sess w)
                 = Some (opened_position CALL "NIFTY26N0318500CE" "FNO" 18500 100))
    by (vm_compute; reflexivity).
  split.
  - destruct (journal_books_exit Scenario.quiet_day Scenario.day 88 "STOP_LOSS" w _
                scenario_in_trade_inv Hpos) as (Hrun & _ & _ & Hsign & _);
      [ vm_compute; discriminate | vm_compute; discriminate | ].
    change (journal_writable Scenario.quiet_day (journal_calls w)) with true in Hrun.
    destruct Hrun as (w' & Hrun & Hj & _).
    assert (Hempty : journal w = []) by (vm_compute; reflexivity).
    rewrite Hempty in Hj.
    exists w'. eexists. split; [ exact Hrun | ]. split; [ exact Hj | ].
    split; [ vm_compute; reflexivity | ]. split; [ vm_compute; reflexivity | ].
    apply Hsign. vm_compute. discriminate.
  - destruct (journal_books_exit Scenario.journal_down Scenario.day 88 "STOP_LOSS" w _
                scenario_in_trade_inv Hpos) as (Hrun & _);
      [ vm_compute; discriminate | vm_compute; discriminate | ].
    change (journal_writable Scenario.journal_down (journal_calls w)) with false in Hrun.
    destruct Hrun as (w' & Hrun & Hj & _ & Hkept).
    assert (Hempty : journal w = []) by (vm_compute; reflexivity).
    rewrite Hempty in Hj.
    exists w'. split; [ exact Hrun | ]. split; [ exact Hj | ].
    rewrite Hkept, Hpos. reflexivity.
Defined.







End JournalFacts.
